(** * ABDS front end: a shallow embedding of the TypeScript sources

    The first part follows the source files of the repository:

    - [JS]              the JavaScript primitives the code relies on
                        ([slice], [repeat], [toString], truthiness of
                        [string | null], settled promises);
    - [Helpers]         [src/utils/helpers.ts] ([chunk]);
    - [Settings]        the settings service ([maskAPIKey],
                        [validateThresholds]);
    - [ImageService]    [frontend/src/services/imageService.ts]
                        ([validateImageFile], [uploadImage]);
    - [Domain], [Http]  threat levels, the [WhitelistDomain] type, requests
                        and the console;
    - [SearchService]   the search service ([searchImages] and its fallback
                        [generateMockSearchResults]);
    - [AnalysisService] the analysis service ([getAnalysisDetail] and
                        [generateMockAnalysisData]);
    - [Aggregator]      the weight configuration of the Analysis Aggregator,
                        which is not among the sources and is modelled from
                        the spec;
    - [ImageUploader]   the upload component ([onDrop], [removeFile],
                        [clearAllFiles], [uploadFiles]) as a transition
                        system over the component state.

    The second part states and proves the properties, one [...Spec] module
    per source module.

    Numbers.  JavaScript numbers that are file sizes, indices and counters
    are integers and are modelled in [Z].  The values of [Math.random()]
    and what the code computes from them are IEEE 754 binary64 numbers
    ([JS.number], with the arithmetic of the Standard Library's
    [SpecFloat]).  Configured thresholds and filter bounds are finite
    numbers that the code only compares; they are modelled in [Q].

    Strings.  Messages are opaque text and are kept as [string] (the UTF-8
    bytes of the source literal).  Where the code indexes a string by
    character ([maskAPIKey]) a string is the list of its UTF-16 code units.

    Effects.  [Math.random()] and [Date.now()] are inputs: a function that
    reads them takes the values they return.  An asynchronous call returns
    how its promise settles together with what it did on the way (requests
    issued, lines written to the console). *)

From Stdlib Require Import String Ascii DecimalString.
From Stdlib Require Import ZArith QArith Qround Bool Lia Lqa SpecFloat List.
Import ListNotations.

Open Scope Z_scope.

(* ================================================================== *)
(** ** JavaScript primitives *)

Module JS.

(** [length] of an array as a JavaScript number. *)
Definition len {A} (l : list A) : Z := Z.of_nat (List.length l).

(** Relative index of [Array.prototype.slice] / [String.prototype.slice]:
    a negative index counts from the end, and the result is clamped to
    [0, len]. *)
Definition rel_index (n k : Z) : Z :=
  if k <? 0 then Z.max (n + k) 0 else Z.min k n.

(** [l.slice(s, e)]. *)
Definition slice {A} (l : list A) (s e : Z) : list A :=
  let k := rel_index (len l) s in
  let final := rel_index (len l) e in
  firstn (Z.to_nat (Z.max (final - k) 0)) (skipn (Z.to_nat k) l).

(** [l.slice(s)]: the end defaults to the length. *)
Definition slice_from {A} (l : list A) (s : Z) : list A :=
  slice l s (len l).

(** [[c].repeat(n)] for a one-unit string [c]; a negative count raises a
    [RangeError] in JavaScript and is never passed by the code modelled
    here. *)
Definition repeat1 {A} (c : A) (n : Z) : list A := List.repeat c (Z.to_nat n).

(** Truthiness of a value of type [string | null]: [null] and the empty
    string are falsy. *)
Definition truthy (v : option string) : bool :=
  match v with
  | None => false
  | Some s => negb (String.eqb s EmptyString)
  end.

(** [>=], [<] and [>] on finite numbers. *)
Definition geb (x y : Q) : bool := Qle_bool y x.
Definition ltb (x y : Q) : bool := negb (Qle_bool y x).
Definition gtb (x y : Q) : bool := negb (Qle_bool x y).

(** Numbers with a fraction are IEEE 754 binary64 numbers: precision 53,
    infinities at exponent 1024, results rounded to the nearest number,
    ties to even. *)
Definition number : Type := spec_float.

(** [x * y], [x + y] and [x < y], [x > y] ([false] when an operand is
    [NaN]). *)
Definition fmul (x y : number) : number := SFmul 53 1024 x y.
Definition fadd (x y : number) : number := SFadd 53 1024 x y.
Definition flt (x y : number) : bool := SFltb x y.
Definition fgt (x y : number) : bool := SFltb y x.

(** The number of an integer literal or of an array length. *)
Definition ofZ (n : Z) : number := binary_normalize 53 1024 n 0 false.

(** The number a decimal literal denotes, given as a fraction of two
    integers below 2^53, as [0.2] is 2/10: the binary64 number nearest to
    the fraction.  (The division of two exact operands rounds the exact
    quotient, which is what reading the literal does.) *)
Definition decimal (n d : Z) : number := SFdiv 53 1024 (ofZ n) (ofZ d).

(** [Math.floor] of a finite number, as an integer.  [NaN] and the
    infinities, which neither [Math.random()] nor the constants of the code
    produce, have no integer value; 0 stands in for it. *)
Definition floor (x : number) : Z :=
  match x with
  | S754_finite s m e =>
      let v := if s then Z.neg m else Z.pos m in
      if 0 <=? e then v * 2 ^ e else v / 2 ^ (- e)
  | _ => 0
  end.

(** [l[Math.floor(r * l.length)]], the idiom the mock generators use to
    pick an element at random; [r] is a value of [Math.random()].  The
    default [d] stands for [undefined], which the range [0, 1) of
    [Math.random()] rules out. *)
Definition pick {A} (l : list A) (r : number) (d : A) : A :=
  let k := floor (fmul r (ofZ (len l))) in
  if k <? 0 then d else nth (Z.to_nat k) l d.

(** [n.toString()] and the interpolation [${n}] of an integer. *)
Definition toString (n : Z) : string := NilZero.string_of_int (Z.to_int n).

(** A settled promise. *)
Inductive Outcome (A : Type) : Type :=
| Resolved (a : A)
| Rejected (message : string).
Arguments Resolved {A} a.
Arguments Rejected {A} message.

End JS.

(* ================================================================== *)
(** ** [src/utils/helpers.ts] *)

Module Helpers.

(** The loop of [chunk]:
<<
  for (let i = 0; i < array.length; i += size) {
    chunks.push(array.slice(i, i + size));
  }
>>
    [fuel] bounds the number of iterations; [None] means the bound was
    reached while the loop condition still held. *)
Fixpoint chunk_loop {T} (fuel : nat) (array : list T) (size i : Z)
    (chunks : list (list T)) : option (list (list T)) :=
  if i <? JS.len array then
    match fuel with
    | O => None
    | S fuel' =>
        chunk_loop fuel' array size (i + size)
                   (chunks ++ [JS.slice array i (i + size)])
    end
  else Some chunks.

Definition chunk {T} (fuel : nat) (array : list T) (size : Z)
    : option (list (list T)) :=
  chunk_loop fuel array size 0 [].

End Helpers.

(* ================================================================== *)
(** ** The settings service ([maskAPIKey], [validateThresholds]) *)

Module Settings.
Import JS.

(** A string seen through [length], [slice] and [repeat]: the list of its
    UTF-16 code units. *)
Definition code_unit := N.
Definition ustring := list code_unit.

(** ['●'], U+25CF, one code unit. *)
Definition mask_char : code_unit := 9679%N.

(** [maskAPIKey]:
<<
  if (!key) return '';
  if (key.length <= 8) return '●'.repeat(key.length);
  return key.slice(0, 4) + '●'.repeat(key.length - 8) + key.slice(-4);
>> *)
Definition maskAPIKey (key : ustring) : ustring :=
  match key with
  | [] => []
  | _ =>
      if JS.len key <=? 8 then JS.repeat1 mask_char (JS.len key)
      else JS.slice key 0 4
           ++ JS.repeat1 mask_char (JS.len key - 8)
           ++ JS.slice_from key (-4)
  end.

(** [ThresholdSettings]. *)
Record ThreatScoreBands := {
  safe : Q; low : Q; medium : Q; high : Q }.
Record SimilarityThresholds := {
  similarity_minimum : Q; similarity_high : Q }.
Record ConfidenceThresholds := {
  confidence_minimum : Q; confidence_reliable : Q }.
Record DomainTrustThresholds := {
  trust_minimum : Q; trust_trusted : Q }.
Record AiAnalysisThresholds := {
  contentAbuse : Q; copyrightInfringement : Q; commercialUseThreshold : Q }.

Record ThresholdSettings := {
  threatScore : ThreatScoreBands;
  similarityScore : SimilarityThresholds;
  confidenceScore : ConfidenceThresholds;
  domainTrust : DomainTrustThresholds;
  aiAnalysis : AiAnalysisThresholds }.

(** [defaultSettings.thresholds]. *)
Definition defaultThresholds : ThresholdSettings := {|
  threatScore := {| safe := 20; low := 40; medium := 70; high := 85 |};
  similarityScore := {| similarity_minimum := 60; similarity_high := 85 |};
  confidenceScore := {| confidence_minimum := 50; confidence_reliable := 80 |};
  domainTrust := {| trust_minimum := 30; trust_trusted := 80 |};
  aiAnalysis := {| contentAbuse := 70; copyrightInfringement := 75;
                   commercialUseThreshold := 80 |} |}.

Definition msg_safe_low : string :=
  "安全スコアは低リスクスコアより小さい必要があります".
Definition msg_low_medium : string :=
  "低リスクスコアは中リスクスコアより小さい必要があります".
Definition msg_medium_high : string :=
  "中リスクスコアは高リスクスコアより小さい必要があります".
Definition msg_range : string :=
  "すべてのスコアは0-100の範囲内である必要があります".

(** The array [allScores] of [validateThresholds]: ten of the thirteen
    values of a [ThresholdSettings]. *)
Definition allScores (t : ThresholdSettings) : list Q :=
  [ safe (threatScore t); low (threatScore t);
    medium (threatScore t); high (threatScore t);
    similarity_minimum (similarityScore t); similarity_high (similarityScore t);
    confidence_minimum (confidenceScore t); confidence_reliable (confidenceScore t);
    trust_minimum (domainTrust t); trust_trusted (domainTrust t) ].

(** [errors.push(m)] under a condition. *)
Definition push_if (c : bool) (m : string) (errors : list string) : list string :=
  if c then errors ++ [m] else errors.

(** [validateThresholds]. *)
Definition validateThresholds (t : ThresholdSettings) : list string :=
  let errors := [] in
  let s := safe (threatScore t) in
  let l := low (threatScore t) in
  let m := medium (threatScore t) in
  let h := high (threatScore t) in
  let errors := push_if (geb s l) msg_safe_low errors in
  let errors := push_if (geb l m) msg_low_medium errors in
  let errors := push_if (geb m h) msg_medium_high errors in
  let errors :=
    push_if (existsb (fun score => ltb score 0 || gtb score 100) (allScores t))
            msg_range errors in
  errors.

(** The save handler of the settings page:
<<
  const errors = validateThresholds(thresholds);
  if (errors.length > 0) { toast.error(errors[0]); return; }
  updateThresholdsMutation.mutate(thresholds);
>>
    [true] when the thresholds are handed to the update. *)
Definition handleSaveThresholds_saves (t : ThresholdSettings) : bool :=
  negb (0 <? JS.len (validateThresholds t)).

(** The thirteen values of a [ThresholdSettings]. *)
Definition configuredThresholds (t : ThresholdSettings) : list Q :=
  allScores t
  ++ [ contentAbuse (aiAnalysis t); copyrightInfringement (aiAnalysis t);
       commercialUseThreshold (aiAnalysis t) ].

Definition with_contentAbuse (t : ThresholdSettings) (v : Q) : ThresholdSettings :=
  {| threatScore := threatScore t;
     similarityScore := similarityScore t;
     confidenceScore := confidenceScore t;
     domainTrust := domainTrust t;
     aiAnalysis := {| contentAbuse := v;
                      copyrightInfringement := copyrightInfringement (aiAnalysis t);
                      commercialUseThreshold := commercialUseThreshold (aiAnalysis t) |} |}.

End Settings.

(* ================================================================== *)
(** ** [frontend/src/services/imageService.ts] *)

Module ImageService.
Import JS.

(** The fields of a browser [File] that the code reads. *)
Record File := {
  file_name : string;
  file_size : Z;
  file_type : string }.

(** [ImageUploadResponse], the [Image] record the server answers with. *)
Record ImageUploadResponse := {
  resp_id : string;
  resp_filename : string;
  resp_size : Z;
  resp_mimeType : string }.

(** [UPLOAD_CONFIG]. *)
Definition maxFileSize : Z := 10 * 1024 * 1024.
Definition allowedTypes : list string :=
  ["image/jpeg"; "image/png"; "image/gif"; "image/webp"]%string.
Definition maxFiles : Z := 10.

(** [Array.prototype.includes] on strings. *)
Definition includes (l : list string) (s : string) : bool :=
  existsb (String.eqb s) l.

(** The two messages of [validateImageFile]; in the first the template
    [${UPLOAD_CONFIG.maxFileSize / 1024 / 1024}] is the constant 10. *)
Definition msg_too_large : string :=
  "ファイルサイズが大きすぎます。最大10MBまでです。".
Definition msg_invalid_type : string :=
  "対応していないファイル形式です。JPEG、PNG、GIF、WebPのみサポートしています。".

(** [validateImageFile]: [None] is [null]. *)
Definition validateImageFile (file : File) : option string :=
  if file_size file >? maxFileSize then Some msg_too_large
  else if negb (includes allowedTypes (file_type file)) then Some msg_invalid_type
  else None.

(** What [axios.post] does with an upload request: the server answers with
    the record, or the call throws an error that carries a response
    ([error.response], with [data.message] possibly absent), a request
    without response ([error.request]), or neither. *)
Inductive PostResult :=
| PostOk (data : ImageUploadResponse)
| PostServerError (message : option string)
| PostNoResponse
| PostOtherError (message : option string).

(** [m || d] on [string | undefined]. *)
Definition or_default (m : option string) (d : string) : string :=
  match m with
  | Some s => if truthy m then s else d
  | None => d
  end.

(** The result of running an asynchronous service call: how its promise
    settles, and the upload requests it issued on the way. *)
Record Run (A : Type) := {
  outcome : Outcome A;
  requests : list File }.
Arguments outcome {A} r.
Arguments requests {A} r.

(** The second half of [uploadImage]: the form data is posted and the
    answer, or the error of the call, decides how the promise settles. *)
Definition postUpload (post : File -> PostResult) (file : File)
    : Run ImageUploadResponse :=
  {| outcome :=
       match post file with
       | PostOk data => Resolved data
       | PostServerError message =>
           Rejected (or_default message "アップロードに失敗しました")
       | PostNoResponse => Rejected "ネットワークエラーが発生しました"
       | PostOtherError message =>
           Rejected (or_default message "不明なエラーが発生しました")
       end;
     requests := [file] |}.

(** [uploadImage]: validation first; a truthy validation error is thrown
    ([throw new Error(validationError)]) before the form data is built and
    posted. *)
Definition uploadImage (post : File -> PostResult) (file : File)
    : Run ImageUploadResponse :=
  match validateImageFile file with
  | Some validationError =>
      if truthy (Some validationError)
      then {| outcome := Rejected validationError; requests := [] |}
      else postUpload post file
  | None => postUpload post file
  end.

End ImageService.

(* ================================================================== *)
(** ** Threat levels, statuses and the whitelist type *)

Module Domain.

(** ['SAFE' | 'LOW' | 'MEDIUM' | 'HIGH' | 'UNKNOWN']. *)
Inductive ThreatLevel := SAFE | LOW | MEDIUM | HIGH | UNKNOWN.

(** ['ACTIVE' | 'REMOVED' | 'INVESTIGATING']. *)
Inductive ResultStatus := ACTIVE | REMOVED | INVESTIGATING.

Definition threatLevel_name (l : ThreatLevel) : string :=
  match l with
  | SAFE => "SAFE" | LOW => "LOW" | MEDIUM => "MEDIUM"
  | HIGH => "HIGH" | UNKNOWN => "UNKNOWN"
  end.

Definition status_name (s : ResultStatus) : string :=
  match s with
  | ACTIVE => "ACTIVE" | REMOVED => "REMOVED" | INVESTIGATING => "INVESTIGATING"
  end.

(** [WhitelistDomain] of [WhitelistManager.tsx] (the fields a lookup by
    domain reads). *)
Inductive WhitelistCategory := official | partner | trusted | other.

Record WhitelistDomain := {
  wl_id : string;
  wl_domain : string;
  wl_isActive : bool;
  wl_category : WhitelistCategory }.

(** A domain is active-whitelisted when some entry of the whitelist has
    that domain and is active. *)
Definition activeWhitelisted (whitelist : list WhitelistDomain) (domain : string)
    : bool :=
  existsb (fun w => String.eqb (wl_domain w) domain && wl_isActive w) whitelist.

End Domain.

(* ================================================================== *)
(** ** The HTTP client and the console *)

Module Http.
Import JS.

(** A value appended to a [URLSearchParams] (after [toString()]). *)
Inductive QueryValue :=
| QString (s : string)
| QInt (n : Z)
| QNumber (x : Q)
| QBool (b : bool).

(** A request of [api.get]: the path and the query parameters, in the
    order they were appended. *)
Record Request := {
  path : string;
  query : list (string * QueryValue) }.

(** A call of [console.error(label, error)]. *)
Record ConsoleError := {
  label : string;
  error_message : string }.

(** How an asynchronous service function ends: how its promise settles and
    what it wrote to the console. *)
Record Logged (A : Type) := {
  settled : Outcome A;
  console : list ConsoleError }.
Arguments settled {A} l.
Arguments console {A} l.

End Http.

(* ================================================================== *)
(** ** The search service *)

Module SearchService.
Import JS Domain Http.

(** [FilterConfig]. *)
Record FilterConfig := {
  f_threatLevels : list string;
  f_domains : list string;
  f_startDate : option string;
  f_endDate : option string;
  f_similarityMin : Q;
  f_similarityMax : Q;
  f_status : list string;
  f_isOfficial : option bool;
  f_hasRiskFactors : option bool;
  f_sortBy : string;
  f_sortOrder : string }.

(** [SearchParams]. *)
Record SearchParams := {
  imageId : option string;
  query_text : option string;
  filters : FilterConfig;
  page : Z;
  limit : Z }.

(** [SearchResult]: the fields that carry the domain, the scores and the
    classification.  The presentation fields (urls, titles, dates, page
    metadata, the shuffled [riskFactors]) are left out. *)
Record AiAnalysis := {
  ai_contentAbuse : number;
  ai_copyrightRisk : number;
  ai_commercialUse : bool;
  ai_unauthorizedRepost : bool }.

Record SearchResult := {
  result_index : Z;          (* the number in the id [result-${...}] *)
  domain : string;
  similarityScore : number;
  threatLevel : ThreatLevel;
  threatScore : number;
  isOfficial : bool;
  status : ResultStatus;
  aiAnalysis : AiAnalysis }.

(** [SearchResultsResponse] without [totalPages] and the facets. *)
Record SearchResultsResponse := {
  results : list SearchResult;
  total : Z;
  resp_page : Z;
  resp_limit : Z;
  hasMore : bool }.

(** The calls of [Math.random()] in [generateMockSearchResults], by call
    site.  A site inside the loop is read once per iteration. *)
Inductive RandomSite :=
| RTotal | RDomain | RThreatLevel | RStatus | ROfficial
| RSimilarity | RThreatScore
| RContentAbuse | RCopyrightRisk | RCommercialUse | RUnauthorizedRepost.

(** The values [Math.random()] returns, by call site and loop iteration. *)
Definition Random := RandomSite -> Z -> number.

Definition mockDomains : list string :=
  [ "example.com"; "test-site.org"; "sample.net"; "demo.co.jp"; "mock-site.com";
    "photo-sharing.io"; "art-gallery.net"; "social-media.com"; "blog-platform.org";
    "news-site.jp"; "e-commerce.store"; "portfolio.dev"; "creative-works.art"
  ]%string.

Definition threatLevels : list ThreatLevel := [SAFE; LOW; MEDIUM; HIGH; UNKNOWN].
Definition statuses : list ResultStatus := [ACTIVE; REMOVED; INVESTIGATING].

(** [getThreatScore]. *)
Definition getThreatScore (level : ThreatLevel) (r : number) : number :=
  match level with
  | HIGH => fadd (ofZ 80) (fmul r (ofZ 20))
  | MEDIUM => fadd (ofZ 50) (fmul r (ofZ 30))
  | LOW => fadd (ofZ 20) (fmul r (ofZ 30))
  | SAFE => fmul r (ofZ 20)
  | UNKNOWN => fmul r (ofZ 100)
  end.

Definition includes (l : list string) (s : string) : bool :=
  existsb (String.eqb s) l.

(** [params.filters.isOfficial === null || params.filters.isOfficial === isOfficial]. *)
Definition official_matches (f : option bool) (b : bool) : bool :=
  match f with
  | None => true
  | Some b' => Bool.eqb b' b
  end.

(** One iteration of the loop of [generateMockSearchResults]: [None] is the
    [continue] taken when the drawn result does not pass the filter. *)
Definition mockResult (rnd : Random) (params : SearchParams) (i : Z)
    : option SearchResult :=
  let domain := pick mockDomains (rnd RDomain i) ""%string in
  let threatLevel := pick threatLevels (rnd RThreatLevel i) UNKNOWN in
  let status := pick statuses (rnd RStatus i) ACTIVE in
  let isOfficial := flt (rnd ROfficial i) (decimal 2 10) in
  let f := filters params in
  let passesFilter :=
    ((len (f_threatLevels f) =? 0)
       || includes (f_threatLevels f) (threatLevel_name threatLevel))
    && ((len (f_domains f) =? 0) || includes (f_domains f) domain)
    && ((len (f_status f) =? 0) || includes (f_status f) (status_name status))
    && official_matches (f_isOfficial f) isOfficial in
  if negb passesFilter then None
  else Some {|
    result_index := i + (page params - 1) * limit params;
    domain := domain;
    similarityScore := fmul (rnd RSimilarity i) (ofZ 100);
    threatLevel := threatLevel;
    threatScore := getThreatScore threatLevel (rnd RThreatScore i);
    isOfficial := isOfficial;
    status := status;
    aiAnalysis := {|
      ai_contentAbuse := fmul (rnd RContentAbuse i) (ofZ 100);
      ai_copyrightRisk := fmul (rnd RCopyrightRisk i) (ofZ 100);
      ai_commercialUse := flt (rnd RCommercialUse i) (decimal 3 10);
      ai_unauthorizedRepost := flt (rnd RUnauthorizedRepost i) (decimal 4 10) |} |}.

(** The indices [0, 1, ..., bound - 1] of a counting loop. *)
Definition iterations (bound : Z) : list Z :=
  map Z.of_nat (seq 0 (Z.to_nat bound)).

(** [results.push] over the iterations that do not [continue]. *)
Fixpoint collect {A B} (f : A -> option B) (l : list A) : list B :=
  match l with
  | [] => []
  | a :: l' =>
      match f a with
      | Some b => b :: collect f l'
      | None => collect f l'
      end
  end.

(** [generateMockSearchResults]. *)
Definition generateMockSearchResults (rnd : Random) (params : SearchParams)
    : SearchResultsResponse :=
  let totalResults := floor (fmul (rnd RTotal 0) (ofZ 200)) + 50 in
  let bound :=
    Z.min (limit params) (totalResults - (page params - 1) * limit params) in
  {| results := collect (mockResult rnd params) (iterations bound);
     total := totalResults;
     resp_page := page params;
     resp_limit := limit params;
     hasMore := page params * limit params <? totalResults |}.

(** The query string [searchImages] builds. *)
Definition opt_param (key : string) (v : option string)
    : list (string * QueryValue) :=
  match v with
  | Some s => if truthy v then [(key, QString s)] else []
  | None => []
  end.

Definition searchQuery (params : SearchParams) : list (string * QueryValue) :=
  let f := filters params in
  opt_param "imageId" (imageId params)
  ++ opt_param "query" (query_text params)
  ++ [ ("page", QInt (page params)); ("limit", QInt (limit params));
       ("sortBy", QString (f_sortBy f)); ("sortOrder", QString (f_sortOrder f)) ]%string
  ++ map (fun level => ("threatLevels"%string, QString level)) (f_threatLevels f)
  ++ map (fun d => ("domains"%string, QString d)) (f_domains f)
  ++ map (fun s => ("status"%string, QString s)) (f_status f)
  ++ opt_param "startDate" (f_startDate f)
  ++ opt_param "endDate" (f_endDate f)
  ++ (if gtb (f_similarityMin f) 0
      then [("minSimilarity"%string, QNumber (f_similarityMin f))] else [])
  ++ (if ltb (f_similarityMax f) 100
      then [("maxSimilarity"%string, QNumber (f_similarityMax f))] else [])
  ++ match f_isOfficial f with
     | Some b => [("isOfficial"%string, QBool b)]
     | None => []
     end
  ++ match f_hasRiskFactors f with
     | Some b => [("hasRiskFactors"%string, QBool b)]
     | None => []
     end.

Definition searchRequest (params : SearchParams) : Request :=
  {| path := "/api/v1/search/results"; query := searchQuery params |}.

(** [searchImages]:
<<
  try { ...; const response = await api.get(...); return response; }
  catch (error) {
    console.error('Search images error:', error);
    return generateMockSearchResults(params);
  }
>>
    [api] is what the HTTP client answers to a request. *)
Definition searchImages (api : Request -> Outcome SearchResultsResponse)
    (rnd : Random) (params : SearchParams) : Logged SearchResultsResponse :=
  match api (searchRequest params) with
  | Resolved response => {| settled := Resolved response; console := [] |}
  | Rejected error =>
      {| settled := Resolved (generateMockSearchResults rnd params);
         console := [ {| label := "Search images error:";
                         error_message := error |} ] |}
  end.

(** [getSearchResultDetails], which rethrows:
<<
  catch (error) {
    console.error('Get search result details error:', error);
    throw new Error('検索結果の詳細取得に失敗しました');
  }
>> *)
Definition getSearchResultDetails (api : Request -> Outcome SearchResult)
    (resultId : string) : Logged SearchResult :=
  match api {| path := "/api/v1/search/results/" ++ resultId; query := [] |} with
  | Resolved response => {| settled := Resolved response; console := [] |}
  | Rejected error =>
      {| settled := Rejected "検索結果の詳細取得に失敗しました";
         console := [ {| label := "Get search result details error:";
                         error_message := error |} ] |}
  end.

End SearchService.

(* ================================================================== *)
(** ** The analysis service *)

Module AnalysisService.
Import JS Domain Http.

(** [basicInfo] of an [AnalysisReportData]. *)
Record BasicInfo := {
  similarityScore : number;
  threatLevel : ThreatLevel;
  threatScore : number;
  status : ResultStatus;
  isOfficial : bool }.

(** One entry of [scoreBreakdown]; the list of factor names is left out. *)
Record WeightedScore := {
  score : number;
  weight : number }.

Record ScoreBreakdown := {
  domainTrust : WeightedScore;
  contentSimilarity : WeightedScore;
  aiAnalysis : WeightedScore;
  contextualFactors : WeightedScore }.

Record ManualEvaluation := {
  overrideScore : option number;
  overrideThreatLevel : option ThreatLevel;
  confidence : number }.

(** [AnalysisReportData]: the identifier, the classification, the score
    breakdown and the manual evaluation.  The descriptive parts (analyst,
    evidence texts, risk factors, recommendations, comments, dates) are
    left out. *)
Record AnalysisReportData := {
  id : string;
  basicInfo : BasicInfo;
  scoreBreakdown : ScoreBreakdown;
  manualEvaluation : option ManualEvaluation }.

(** The calls of [Math.random()] in [generateMockAnalysisData] that the
    fields above read. *)
Inductive RandomSite :=
| ASimilarity | AThreatLevel | AThreatScore | AStatus | AOfficial
| ADomainTrust | AContentSimilarity | AAiAnalysis | AContextualFactors
| AManualEvaluation.

Definition Random := RandomSite -> number.

(** [generateMockAnalysisData]. *)
Definition generateMockAnalysisData (rnd : Random) (analysisId : string)
    : AnalysisReportData :=
  {| id := analysisId;
     basicInfo := {|
       similarityScore := fadd (ofZ 75) (fmul (rnd ASimilarity) (ofZ 20));
       threatLevel :=
         pick [SAFE; LOW; MEDIUM; HIGH; UNKNOWN] (rnd AThreatLevel) UNKNOWN;
       threatScore := fmul (rnd AThreatScore) (ofZ 100);
       status := pick [ACTIVE; REMOVED; INVESTIGATING] (rnd AStatus) ACTIVE;
       isOfficial := flt (rnd AOfficial) (decimal 2 10) |};
     scoreBreakdown := {|
       domainTrust :=
         {| score := fmul (rnd ADomainTrust) (ofZ 100);
            weight := decimal 4 10 |};
       contentSimilarity :=
         {| score := fmul (rnd AContentSimilarity) (ofZ 100);
            weight := decimal 3 10 |};
       aiAnalysis :=
         {| score := fmul (rnd AAiAnalysis) (ofZ 100);
            weight := decimal 2 10 |};
       contextualFactors :=
         {| score := fmul (rnd AContextualFactors) (ofZ 100);
            weight := decimal 1 10 |} |};
     manualEvaluation :=
       if flt (rnd AManualEvaluation) (decimal 5 10)
       then Some {| overrideScore := Some (ofZ 85);
                    overrideThreatLevel := Some HIGH;
                    confidence := ofZ 95 |}
       else None |}.

(** [getAnalysisDetail]:
<<
  try { const response = await api.get(`/api/v1/analysis/${analysisId}`);
        return response; }
  catch (error) {
    console.error('Get analysis detail error:', error);
    return generateMockAnalysisData(analysisId);
  }
>> *)
Definition getAnalysisDetail (api : Request -> Outcome AnalysisReportData)
    (rnd : Random) (analysisId : string) : Logged AnalysisReportData :=
  match api {| path := "/api/v1/analysis/" ++ analysisId; query := [] |} with
  | Resolved response => {| settled := Resolved response; console := [] |}
  | Rejected error =>
      {| settled := Resolved (generateMockAnalysisData rnd analysisId);
         console := [ {| label := "Get analysis detail error:";
                         error_message := error |} ] |}
  end.

(** [submitManualEvaluation], which rethrows. *)
Definition submitManualEvaluation (api : Request -> Outcome unit)
    (analysisId : string) : Logged unit :=
  match api {| path := "/api/v1/analysis/" ++ analysisId ++ "/evaluation";
               query := [] |} with
  | Resolved _ => {| settled := Resolved tt; console := [] |}
  | Rejected error =>
      {| settled := Rejected "手動評価の送信に失敗しました";
         console := [ {| label := "Submit manual evaluation error:";
                         error_message := error |} ] |}
  end.

End AnalysisService.

(* ================================================================== *)
(** ** The Analysis Aggregator's weight configuration *)

Module Aggregator.

(** Modelled from the spec: the composite-score weights of the Analysis
    Aggregator, "default weights {domainTrust:0.4, contentSimilarity:0.3,
    aiAnalysis:0.2, contextualFactors:0.1} (weights configurable ...)".
    The aggregator and the check of its configuration are back-end code,
    which is not among the sources: the front end only displays the weights
    of a [scoreBreakdown] it is sent or generates.  The spec writes the
    weights as decimal numbers; they are exact rationals here. *)
Record Weights := {
  w_domainTrust : Q;
  w_contentSimilarity : Q;
  w_aiAnalysis : Q;
  w_contextualFactors : Q }.

(** Modelled from the spec: the default weights of section 4.4. *)
Definition defaultWeights : Weights := {|
  w_domainTrust := 4 # 10;
  w_contentSimilarity := 3 # 10;
  w_aiAnalysis := 2 # 10;
  w_contextualFactors := 1 # 10 |}.

(** Modelled from the spec: the sum that "must sum to 1.0" speaks of. *)
Definition weightSum (w : Weights) : Q :=
  w_domainTrust w + w_contentSimilarity w + w_aiAnalysis w
  + w_contextualFactors w.

(** Modelled from the spec: "must sum to 1.0 - reject configuration
    otherwise". *)
Definition validateWeights (w : Weights) : bool := Qeq_bool (weightSum w) 1.

(** Modelled from the spec: "the Aggregator refuses to start (config
    validation fails fast)": the check comes first, and an aggregator
    exists only for a configuration that passed it. *)
Inductive Startup :=
| Started (w : Weights)
| Refused.

Definition start (w : Weights) : Startup :=
  if validateWeights w then Started w else Refused.


End Aggregator.

(* ================================================================== *)
(** ** The upload component [ImageUploader] *)

Module ImageUploader.
Import JS ImageService.

(** ['pending' | 'uploading' | 'completed' | 'failed']. *)
Inductive Status := pending | uploading | completed | failed.

(** The id [`${Date.now()}-${index}`] of an [ImageFile]: the time stamp of
    the drop and the position of the file in the drop.  Two such strings
    are equal exactly when both numbers are. *)
Record FileId := {
  stamp : Z;
  position : Z }.

Definition fileId_eqb (a b : FileId) : bool :=
  (stamp a =? stamp b) && (position a =? position b).

(** [ImageUploadError]. *)
Record ImageUploadError := {
  code : string;
  message : string }.

(** [ImageFile] (the object URL [preview] is left out). *)
Record ImageFile := {
  file : File;
  id : FileId;
  status : Status;
  progress : Z;
  response : option ImageUploadResponse;
  error : option ImageUploadError }.

(** A file rejected by the drop zone, with the errors the drop zone gives. *)
Record FileError := {
  err_code : string;
  err_message : string }.

Record FileRejection := {
  rej_file : File;
  rej_errors : list FileError }.

Inductive Toast :=
| ToastError (text : string)
| ToastSuccess (text : string).

(** The component: the [files] state, the uploads whose promise has not
    settled yet (the id captured by the closure and the file handed to
    [uploadImage]), and what the component did to the outside: the toasts
    shown, the lists handed to [onFilesUploaded] and the files
    [uploadImage] was called with.  The flag
    [isUploading] is read by the view only (it disables the buttons) and is
    left out, with the bookkeeping that follows [Promise.allSettled]. *)
Record State := {
  files : list ImageFile;
  inflight : list (FileId * File);
  toasts : list Toast;
  handed : list (list ImageFile);
  uploadCalls : list File }.

Definition initial : State := {|
  files := []; inflight := []; toasts := []; handed := [];
  uploadCalls := [] |}.

(** The message shown for one error of a rejected file (the [switch] of
    [onDrop]). *)
Definition rejectionMessage (maxFiles : Z) (f : File) (e : FileError) : string :=
  if String.eqb (err_code e) "file-too-large" then
    "ファイルサイズが大きすぎます: " ++ file_name f
  else if String.eqb (err_code e) "file-invalid-type" then
    "対応していないファイル形式です: " ++ file_name f
  else if String.eqb (err_code e) "too-many-files" then
    "ファイル数が上限を超えています（最大" ++ toString maxFiles ++ "個）"
  else
    "ファイルエラー: " ++ err_message e.

Definition rejectionToasts (maxFiles : Z) (rejected : list FileRejection)
    : list Toast :=
  flat_map
    (fun r => map (fun e => ToastError (rejectionMessage maxFiles (rej_file r) e))
                  (rej_errors r))
    rejected.

(** The message of the guard on the length of the list. *)
Definition limitMessage (maxFiles : Z) : string :=
  "最大" ++ toString maxFiles ++ "個のファイルまでアップロードできます".

(** [acceptedFiles.map((file, index) => ...)]. *)
Definition newImageFile (now : Z) (index : Z) (f : File) : ImageFile :=
  let validationError := validateImageFile f in
  {| file := f;
     id := {| stamp := now; position := index |};
     status := if truthy validationError then failed else pending;
     progress := 0;
     response := None;
     error :=
       match validationError with
       | Some text =>
           if truthy validationError
           then Some {| code := "validation"; message := text |}
           else None
       | None => None
       end |}.

Fixpoint newImageFiles_from (now : Z) (index : Z) (accepted : list File)
    : list ImageFile :=
  match accepted with
  | [] => []
  | f :: rest => newImageFile now index f :: newImageFiles_from now (index + 1) rest
  end.

Definition newImageFiles (now : Z) (accepted : list File) : list ImageFile :=
  newImageFiles_from now 0 accepted.

(** [onDrop], with the value [now] of [Date.now()]. *)
Definition onDrop (maxFiles now : Z) (accepted : list File)
    (rejected : list FileRejection) (s : State) : State :=
  let new := newImageFiles now accepted in
  let combined := files s ++ new in
  let over := len combined >? maxFiles in
  {| files := if over then slice combined 0 maxFiles else combined;
     inflight := inflight s;
     toasts := toasts s
               ++ rejectionToasts maxFiles rejected
               ++ (if over then [ToastError (limitMessage maxFiles)] else []);
     handed := handed s ++ [new];
     uploadCalls := uploadCalls s |}.

(** [removeFile]. *)
Definition removeFile (fileId : FileId) (s : State) : State :=
  {| files := filter (fun f => negb (fileId_eqb (id f) fileId)) (files s);
     inflight := inflight s;
     toasts := toasts s;
     handed := handed s;
     uploadCalls := uploadCalls s |}.

(** [clearAllFiles]. *)
Definition clearAllFiles (s : State) : State :=
  {| files := [];
     inflight := inflight s;
     toasts := toasts s;
     handed := handed s;
     uploadCalls := uploadCalls s |}.

(** [prev.map(f => f.id === fileId ? g(f) : f)]. *)
Definition updateById (fileId : FileId) (g : ImageFile -> ImageFile)
    (l : list ImageFile) : list ImageFile :=
  map (fun f => if fileId_eqb (id f) fileId then g f else f) l.

Definition setUploading (f : ImageFile) : ImageFile :=
  {| file := file f; id := id f; status := uploading;
     progress := progress f; response := response f; error := error f |}.

Definition setProgress (percentage : Z) (f : ImageFile) : ImageFile :=
  {| file := file f; id := id f; status := status f;
     progress := percentage; response := response f; error := error f |}.

Definition setCompleted (r : ImageUploadResponse) (f : ImageFile) : ImageFile :=
  {| file := file f; id := id f; status := completed;
     progress := 100; response := Some r; error := error f |}.

Definition setFailed (errorMessage : string) (f : ImageFile) : ImageFile :=
  {| file := file f; id := id f; status := failed;
     progress := 0; response := response f;
     error := Some {| code := "upload"; message := errorMessage |} |}.

Definition isPending (f : ImageFile) : bool :=
  match status f with
  | pending => true
  | _ => false
  end.

(** The synchronous part of [uploadFiles]: the pending files are selected,
    each is marked [uploading] and handed to [uploadImage]. *)
Definition uploadFiles (s : State) : State :=
  let pendingFiles := filter isPending (files s) in
  if len pendingFiles =? 0 then
    {| files := files s;
       inflight := inflight s;
       toasts := toasts s ++ [ToastError "アップロードするファイルがありません"];
       handed := handed s;
       uploadCalls := uploadCalls s |}
  else
    {| files :=
         fold_left (fun l p => updateById (id p) setUploading l)
                   pendingFiles (files s);
       inflight := inflight s ++ map (fun p => (id p, file p)) pendingFiles;
       toasts := toasts s;
       handed := handed s;
       uploadCalls := uploadCalls s ++ map file pendingFiles |}.

(** An upload progress event of an upload that has not settled. *)
Definition inflightFile (fileId : FileId) (l : list (FileId * File))
    : option File :=
  match find (fun p => fileId_eqb (fst p) fileId) l with
  | Some p => Some (snd p)
  | None => None
  end.

Fixpoint removeInflight (fileId : FileId) (l : list (FileId * File))
    : list (FileId * File) :=
  match l with
  | [] => []
  | p :: rest =>
      if fileId_eqb (fst p) fileId then rest
      else p :: removeInflight fileId rest
  end.

Definition onProgress (fileId : FileId) (percentage : Z) (s : State) : State :=
  match inflightFile fileId (inflight s) with
  | None => s
  | Some _ =>
      {| files := updateById fileId (setProgress percentage) (files s);
         inflight := inflight s;
         toasts := toasts s;
         handed := handed s;
         uploadCalls := uploadCalls s |}
  end.

(** The promise of [uploadImage] for the upload [fileId] settles; [answer]
    is what [axios.post] does if the request is issued.  On success the
    record is marked [completed], on failure [failed] with the message of
    the error, and an error toast is shown. *)
Definition onSettled (fileId : FileId) (answer : PostResult) (s : State) : State :=
  match inflightFile fileId (inflight s) with
  | None => s
  | Some f =>
      let run := uploadImage (fun _ => answer) f in
      match outcome run with
      | Resolved r =>
          {| files := updateById fileId (setCompleted r) (files s);
             inflight := removeInflight fileId (inflight s);
             toasts := toasts s;
             handed := handed s;
             uploadCalls := uploadCalls s |}
      | Rejected errorMessage =>
          {| files := updateById fileId (setFailed errorMessage) (files s);
             inflight := removeInflight fileId (inflight s);
             toasts := toasts s
                       ++ [ToastError (file_name f ++ ": " ++ errorMessage)];
             handed := handed s;
             uploadCalls := uploadCalls s |}
      end
  end.

(** What happens to the component. *)
Inductive Event :=
| Drop (now : Z) (accepted : list File) (rejected : list FileRejection)
| Remove (fileId : FileId)
| ClearAll
| Upload
| Progress (fileId : FileId) (percentage : Z)
| Settled (fileId : FileId) (answer : PostResult).

Definition step (maxFiles : Z) (s : State) (e : Event) : State :=
  match e with
  | Drop now accepted rejected => onDrop maxFiles now accepted rejected s
  | Remove fileId => removeFile fileId s
  | ClearAll => clearAllFiles s
  | Upload => uploadFiles s
  | Progress fileId percentage => onProgress fileId percentage s
  | Settled fileId answer => onSettled fileId answer s
  end.

Definition run (maxFiles : Z) (trace : list Event) : State :=
  fold_left (step maxFiles) trace initial.

(** The time stamps of the drops of a trace. *)
Definition dropStamps (trace : list Event) : list Z :=
  flat_map (fun e => match e with
                     | Drop now _ _ => [now]
                     | _ => []
                     end) trace.

(** The status changes of the upload life cycle:
    pending -> uploading -> completed | failed, or no change. *)
Definition advances (a b : Status) : Prop :=
  a = b
  \/ (a = pending /\ b = uploading)
  \/ (a = uploading /\ (b = completed \/ b = failed)).

Definition terminal (a : Status) : Prop := a = completed \/ a = failed.

(** What a status can become along the life cycle, in any number of steps. *)
Definition reaches (a b : Status) : Prop :=
  a = b \/ a = pending \/ (a = uploading /\ terminal b).

(** The status of the records of a list that carry a given id. *)
Definition statusesOf (fileId : FileId) (l : list ImageFile) : list Status :=
  map status (filter (fun f => fileId_eqb (id f) fileId) l).

End ImageUploader.

(* ================================================================== *)
(** ** Sample inputs and the invariants of the upload component *)

Module ImageServiceExamples.
Import JS ImageService.

Definition photo_2MB : File :=
  {| file_name := "a.jpg"; file_size := 2 * 1024 * 1024; file_type := "image/jpeg" |}.
Definition photo_50MB : File :=
  {| file_name := "b.jpg"; file_size := 50 * 1024 * 1024; file_type := "image/jpeg" |}.
Definition document_pdf : File :=
  {| file_name := "c.pdf"; file_size := 1024; file_type := "application/pdf" |}.

End ImageServiceExamples.

Module SearchExamples.
Import JS Domain Http SearchService.

(** A call of the search API that fails with a network error. *)
Definition failing_api {A} : Request -> Outcome A :=
  fun _ => Rejected "Network Error".

(** [Math.random()] returning 0.7 at every call. *)
Definition rnd_07 : Random := fun _ _ => decimal 7 10.

Definition no_filters : FilterConfig := {|
  f_threatLevels := []; f_domains := [];
  f_startDate := None; f_endDate := None;
  f_similarityMin := 0; f_similarityMax := 100;
  f_status := []; f_isOfficial := None; f_hasRiskFactors := None;
  f_sortBy := "detectedAt"; f_sortOrder := "desc" |}.

Definition first_page : SearchParams := {|
  imageId := Some "img-1"%string; query_text := None;
  filters := no_filters; page := 1; limit := 2 |}.

(** A value of [Math.random()] in the middle of part [k] of the [n] equal
    parts of [0, 1): the number (2k + 1) / 2n. *)
Definition drawFor (n k : Z) : number := decimal (2 * k + 1) (2 * n).

(** [Math.random()] returning the middle of part [kd] of 13 where a domain
    is picked, the middle of part [kl] of 5 where a threat level is picked,
    and 0.5 elsewhere. *)
Definition rnd_picking (kd kl : Z) : Random :=
  fun site _ =>
    match site with
    | RDomain => drawFor 13 kd
    | RThreatLevel => drawFor 5 kl
    | _ => decimal 1 2
    end.

(** A whitelist whose only entry is the active domain [news-site.jp]. *)
Definition whitelist_news : list WhitelistDomain :=
  [ {| wl_id := "wl-1"; wl_domain := "news-site.jp";
       wl_isActive := true; wl_category := trusted |} ].

End SearchExamples.

Module AnalysisExamples.
Import JS Domain Http AnalysisService.

(** [Math.random()] returning 0.7 at every call. *)
Definition arnd_07 : AnalysisService.Random := fun _ => decimal 7 10.

End AnalysisExamples.

Module ImageUploaderInvariants.
Import JS ImageService ImageUploader.

Definition photoA : File :=
  {| file_name := "a.jpg"; file_size := 1000; file_type := "image/jpeg" |}.
Definition photoB : File :=
  {| file_name := "b.png"; file_size := 2000; file_type := "image/png" |}.
Definition photoC : File :=
  {| file_name := "c.gif"; file_size := 3000; file_type := "image/gif" |}.
Definition photoD : File :=
  {| file_name := "d.webp"; file_size := 4000; file_type := "image/webp" |}.
Definition bitmap : File :=
  {| file_name := "e.bmp"; file_size := 5000; file_type := "image/bmp" |}.

Definition stored : ImageUploadResponse :=
  {| resp_id := "img-1"; resp_filename := "a.jpg";
     resp_size := 1000; resp_mimeType := "image/jpeg" |}.

(** Every pending record holds a file that passes validation, and so does
    every file [uploadImage] was called with. *)
Definition validated (s : State) : Prop :=
  (forall x, In x (files s) -> status x = pending ->
             validateImageFile (file x) = None)
  /\ Forall (fun f => validateImageFile f = None) (uploadCalls s).

Definition upload_a : list Event :=
  [ Drop 1000 [photoA] []; Upload;
    Settled {| stamp := 1000; position := 0 |} (PostOk stored) ].

Definition upload_a_then_b_same_stamp : list Event :=
  upload_a ++ [ Drop 1000 [photoB] []; Upload ].

(** The record of [photoA] once its upload has completed. *)
Definition photoA_completed : ImageFile :=
  {| file := photoA; id := {| stamp := 1000; position := 0 |};
     status := completed; progress := 100;
     response := Some stored; error := None |}.

Definition drop_b_later : list Event := [ Drop 2000 [photoB] []; Upload ].

(** Two drops of two valid files each, on a list that may hold two files. *)
Definition two_drops_of_two : list Event :=
  [ Drop 1000 [photoA; photoB] []; Drop 2000 [photoC; photoD] [] ].

(** The records of a well-formed component carry distinct ids, every id
    stems from a drop whose time stamp is in [seen], and a record whose
    upload has not settled is uploading. *)
Record wellFormed (seen : list Z) (s : State) : Prop := {
  wf_files_seen : forall x, In x (files s) -> In (stamp (id x)) seen;
  wf_files_nodup : NoDup (map id (files s));
  wf_inflight_seen : forall p, In p (inflight s) -> In (stamp (fst p)) seen;
  wf_inflight_nodup : NoDup (map fst (inflight s));
  wf_inflight_uploading :
    forall p x, In p (inflight s) -> In x (files s) -> id x = fst p ->
                status x = uploading }.

(** An event is fresh when it is not a drop with a time stamp seen before. *)
Definition freshEvent (seen : list Z) (e : Event) : Prop :=
  forall now, In now (dropStamps [e]) -> ~ In now seen.

End ImageUploaderInvariants.

(* ================================================================== *)
(** ** [src/utils/helpers.ts]: sets and objects *)

Module HelpersCollections.

Section Unique.

(** The element type, with the equality a [Set] compares its members by. *)
Variable T : Type.
Variable T_eq_dec : forall x y : T, {x = y} + {x <> y}.

(** [Set.prototype.has]. *)
Definition set_has (x : T) (s : list T) : bool :=
  if in_dec T_eq_dec x s then true else false.

(** [Set.prototype.add]: a set keeps its members in insertion order, and
    adding a member again changes nothing. *)
Definition set_add (s : list T) (x : T) : list T :=
  if set_has x s then s else s ++ [x].

(** [new Set(array)]. *)
Definition new_Set (array : list T) : list T := fold_left set_add array [].

(** [unique]: [[...new Set(array)]]. *)
Definition unique (array : list T) : list T := new_Set array.

End Unique.

Arguments unique {T} T_eq_dec array.
Arguments set_add {T} T_eq_dec s x.
Arguments set_has {T} T_eq_dec x s.
Arguments new_Set {T} T_eq_dec array.

Section Objects.

(** The type of property values. *)
Variable V : Type.

(** A plain object: its own properties in insertion order, each key once.
    The properties an object inherits from [Object.prototype] are not
    modelled; the keys passed to [pick] and [omit] are keys of the object's
    type. *)
Definition Obj := list (string * V).

(** [obj[key]]: [None] is [undefined] for an absent key. *)
Fixpoint obj_get (key : string) (obj : Obj) : option V :=
  match obj with
  | [] => None
  | (k, v) :: rest => if String.eqb k key then Some v else obj_get key rest
  end.

(** [key in obj]. *)
Definition obj_has (key : string) (obj : Obj) : bool :=
  existsb (fun p => String.eqb (fst p) key) obj.

(** [obj[key] = v]: an existing property keeps its place. *)
Fixpoint obj_set (key : string) (v : V) (obj : Obj) : Obj :=
  match obj with
  | [] => [(key, v)]
  | (k, w) :: rest =>
      if String.eqb k key then (k, v) :: rest
      else (k, w) :: obj_set key v rest
  end.

(** [delete obj[key]]. *)
Definition obj_delete (key : string) (obj : Obj) : Obj :=
  filter (fun p => negb (String.eqb (fst p) key)) obj.

(** [pick]:
<<
  const result = {};
  keys.forEach(key => { if (key in obj) { result[key] = obj[key]; } });
>> *)
Definition pick (obj : Obj) (keys : list string) : Obj :=
  fold_left
    (fun result key =>
       if obj_has key obj then
         match obj_get key obj with
         | Some v => obj_set key v result
         | None => result
         end
       else result)
    keys [].

(** [omit]:
<<
  const result = { ...obj };
  keys.forEach(key => { delete result[key]; });
>> *)
Definition omit (obj : Obj) (keys : list string) : Obj :=
  fold_left (fun result key => obj_delete key result) keys obj.

(** [keys.includes(k)]. *)
Definition mentions (keys : list string) (k : string) : bool :=
  existsb (String.eqb k) keys.

(** The keys of an object, in order. *)
Definition obj_keys (obj : Obj) : list string := map fst obj.

End Objects.

Arguments obj_get {V} key obj.
Arguments obj_has {V} key obj.
Arguments obj_set {V} key v obj.
Arguments obj_delete {V} key obj.
Arguments pick {V} obj keys.
Arguments omit {V} obj keys.
Arguments obj_keys {V} obj.

(** The number of windows of [size] elements that cover the indices from [i]
    up to [n]: the iterations left to the loop of [chunk] at index [i]. *)
Definition windowsFrom (n size i : Z) : Z :=
  if n <=? i then 0 else (n - i + size - 1) / size.

End HelpersCollections.

(* ================================================================== *)
(** ** [frontend/src/services/imageService.ts]: utilities and batches *)

Module ImageServiceUtils.
Import JS ImageService.

(** ['.'], U+002E. *)
Definition dot : Settings.code_unit := 46%N.

(** [s.lastIndexOf(c)] for a one-unit string [c], scanning from index [i]:
    the greatest index of [c], or -1. *)
Fixpoint lastIndexOf_from (c : Settings.code_unit) (i : Z) (s : Settings.ustring) : Z :=
  match s with
  | [] => -1
  | x :: rest =>
      let later := lastIndexOf_from c (i + 1) rest in
      if later >=? 0 then later
      else if N.eqb x c then i else -1
  end.

Definition lastIndexOf (c : Settings.code_unit) (s : Settings.ustring) : Z :=
  lastIndexOf_from c 0 s.

(** [n >>> 0]: the number as an unsigned 32-bit integer. *)
Definition toUint32 (n : Z) : Z := n mod 2 ^ 32.

(** [getFileExtension]:
<<
  return filename.slice((filename.lastIndexOf('.') - 1 >>> 0) + 2);
>> *)
Definition getFileExtension (filename : Settings.ustring) : Settings.ustring :=
  slice_from filename (toUint32 (lastIndexOf dot filename - 1) + 2).

(** [isImageFile]. *)
Definition isImageFile (file : File) : bool :=
  ImageService.includes allowedTypes (file_type file).













(** [validateImageFile(file) === null]. *)
Definition passesValidation (file : File) : bool :=
  match validateImageFile file with
  | None => true
  | Some _ => false
  end.

End ImageServiceUtils.

(* ================================================================== *)
(** ** The settings service: notifications, API keys and the store *)

Module SettingsStore.
Import JS Domain Settings.

(** [NotificationSettings]. *)
Inductive Frequency := immediate | hourly | daily | weekly.

Record EmailSettings := {
  email_enabled : bool;
  email_address : string;
  email_frequency : Frequency;
  email_threatLevels : list ThreatLevel }.

Record BrowserSettings := {
  browser_enabled : bool;
  browser_threatLevels : list ThreatLevel }.

Record WebhookSettings := {
  webhook_enabled : bool;
  webhook_url : string;
  webhook_secret : string;
  webhook_threatLevels : list ThreatLevel;
  webhook_retryAttempts : Z }.

Record SlackSettings := {
  slack_enabled : bool;
  slack_webhook : string;
  slack_channel : string;
  slack_threatLevels : list ThreatLevel }.

Record TeamsSettings := {
  teams_enabled : bool;
  teams_webhook : string;
  teams_threatLevels : list ThreatLevel }.

Record NotificationSettings := {
  email : EmailSettings;
  browser : BrowserSettings;
  webhook : WebhookSettings;
  slack : SlackSettings;
  teams : TeamsSettings }.

(** [!s] for a string. *)
Definition blank (s : string) : bool := String.eqb s EmptyString.

Definition msg_email : string :=
  "メール通知が有効な場合、メールアドレスは必須です".
Definition msg_webhook : string :=
  "Webhook通知が有効な場合、URLは必須です".
Definition msg_slack : string :=
  "Slack通知が有効な場合、Webhook URLは必須です".
Definition msg_teams : string :=
  "Teams通知が有効な場合、Webhook URLは必須です".

(** [validateNotificationSettings]. *)
Definition validateNotificationSettings (n : NotificationSettings) : list string :=
  let errors := [] in
  let errors :=
    push_if (email_enabled (email n) && blank (email_address (email n)))
            msg_email errors in
  let errors :=
    push_if (webhook_enabled (webhook n) && blank (webhook_url (webhook n)))
            msg_webhook errors in
  let errors :=
    push_if (slack_enabled (slack n) && blank (slack_webhook (slack n)))
            msg_slack errors in
  let errors :=
    push_if (teams_enabled (teams n) && blank (teams_webhook (teams n)))
            msg_teams errors in
  errors.

(** The save handler of the settings page shows [errors[0]] and returns
    when there is an error: [None] when the settings are handed to the
    update. *)
Definition handleSaveNotifications_toast (n : NotificationSettings)
    : option string :=
  match validateNotificationSettings n with
  | [] => None
  | first :: _ => Some first
  end.

(** [APIKeySettings]. *)
Record Usage := {
  usage_daily : Z;
  usage_monthly : Z;
  usage_limit : Z }.

Record ProviderKey := {
  key : string;
  isValid : bool;
  lastValidated : string;
  usage : option Usage }.

Record GoogleKey := {
  apiKey : string;
  searchEngineId : string;
  google_isValid : bool;
  google_lastValidated : string;
  google_usage : option Usage }.

Record APIKeySettings := {
  gemini : ProviderKey;
  openai : ProviderKey;
  serpapi : ProviderKey;
  googleCustomSearch : GoogleKey }.

(** [SystemSettings]. *)
Record GeneralSettings := {
  language : string;
  timezone : string;
  dateFormat : string;
  theme : string }.

Record SecuritySettings := {
  sessionTimeout : Z;
  maxLoginAttempts : Z;
  passwordMinLength : Z;
  requireTwoFactor : bool }.

Record PerformanceSettings := {
  maxConcurrentAnalyses : Z;
  cacheExpiryHours : Z;
  imageSizeLimit : Z;
  batchProcessingSize : Z }.

Record StorageSettings := {
  retentionDays : Z;
  autoCleanup : bool;
  backupEnabled : bool;
  backupFrequency : string }.

Record SystemSettings := {
  general : GeneralSettings;
  security : SecuritySettings;
  performance : PerformanceSettings;
  storage : StorageSettings }.

(** [AllSettings]. *)
Record AllSettings := {
  thresholds : ThresholdSettings;
  notifications : NotificationSettings;
  apiKeys : APIKeySettings;
  system : SystemSettings;
  lastUpdated : string;
  updatedBy : string }.

Definition emptyKey : ProviderKey :=
  {| key := ""; isValid := false; lastValidated := ""; usage := None |}.

(** [defaultSettings]; [loadTime] is the value of [new Date().toISOString()]
    when the module is loaded. *)
Definition defaultSettings (loadTime : string) : AllSettings := {|
  thresholds := defaultThresholds;
  notifications := {|
    email := {| email_enabled := true; email_address := "";
                email_frequency := daily; email_threatLevels := [HIGH; MEDIUM] |};
    browser := {| browser_enabled := true; browser_threatLevels := [HIGH] |};
    webhook := {| webhook_enabled := false; webhook_url := ""; webhook_secret := "";
                  webhook_threatLevels := [HIGH; MEDIUM];
                  webhook_retryAttempts := 3 |};
    slack := {| slack_enabled := false; slack_webhook := "";
                slack_channel := "#security"; slack_threatLevels := [HIGH] |};
    teams := {| teams_enabled := false; teams_webhook := "";
                teams_threatLevels := [HIGH] |} |};
  apiKeys := {|
    gemini := emptyKey; openai := emptyKey; serpapi := emptyKey;
    googleCustomSearch := {| apiKey := ""; searchEngineId := "";
                             google_isValid := false; google_lastValidated := "";
                             google_usage := None |} |};
  system := {|
    general := {| language := "ja"; timezone := "Asia/Tokyo";
                  dateFormat := "yyyy/MM/dd"; theme := "light" |};
    security := {| sessionTimeout := 480; maxLoginAttempts := 5;
                   passwordMinLength := 8; requireTwoFactor := false |};
    performance := {| maxConcurrentAnalyses := 5; cacheExpiryHours := 24;
                      imageSizeLimit := 10485760; batchProcessingSize := 10 |};
    storage := {| retentionDays := 90; autoCleanup := true;
                  backupEnabled := false; backupFrequency := "weekly" |} |};
  lastUpdated := loadTime;
  updatedBy := "system" |}.

(** An object that holds some of the keys of an [AllSettings]: what
    [JSON.parse] gives for a stored or imported settings text. *)
Record PartialSettings := {
  p_thresholds : option ThresholdSettings;
  p_notifications : option NotificationSettings;
  p_apiKeys : option APIKeySettings;
  p_system : option SystemSettings;
  p_lastUpdated : option string;
  p_updatedBy : option string }.

(** [{ ...base, ...over }]. *)
Definition spread (base : AllSettings) (over : PartialSettings) : AllSettings := {|
  thresholds := match p_thresholds over with Some x => x | None => thresholds base end;
  notifications :=
    match p_notifications over with Some x => x | None => notifications base end;
  apiKeys := match p_apiKeys over with Some x => x | None => apiKeys base end;
  system := match p_system over with Some x => x | None => system base end;
  lastUpdated :=
    match p_lastUpdated over with Some x => x | None => lastUpdated base end;
  updatedBy := match p_updatedBy over with Some x => x | None => updatedBy base end |}.

(** The object that [JSON.parse(JSON.stringify(s))] gives for a settings
    object [s]: every key is present.  ([JSON.stringify] and [JSON.parse]
    are taken as inverse of each other on settings objects, which hold
    strings, finite numbers, booleans, arrays and objects only.) *)
Definition stringified (s : AllSettings) : PartialSettings := {|
  p_thresholds := Some (thresholds s);
  p_notifications := Some (notifications s);
  p_apiKeys := Some (apiKeys s);
  p_system := Some (system s);
  p_lastUpdated := Some (lastUpdated s);
  p_updatedBy := Some (updatedBy s) |}.

(** The item ['app-settings'] of [localStorage]: absent, or the object its
    text parses to. *)
Definition LocalStorage := option PartialSettings.

Section Store.

Variable loadTime : string.

(** [getAllSettings]. *)
Definition getAllSettings (st : LocalStorage) : AllSettings :=
  match st with
  | Some stored => spread (defaultSettings loadTime) stored
  | None => defaultSettings loadTime
  end.

(** [updateThresholds], with the value [now] of [new Date().toISOString()]. *)
Definition updateThresholds (now : string) (t : ThresholdSettings)
    (st : LocalStorage) : LocalStorage :=
  let settings := getAllSettings st in
  Some (stringified {|
    thresholds := t;
    notifications := notifications settings;
    apiKeys := apiKeys settings;
    system := system settings;
    lastUpdated := now;
    updatedBy := "Current User" |}).

(** [updateNotifications]. *)
Definition updateNotifications (now : string) (n : NotificationSettings)
    (st : LocalStorage) : LocalStorage :=
  let settings := getAllSettings st in
  Some (stringified {|
    thresholds := thresholds settings;
    notifications := n;
    apiKeys := apiKeys settings;
    system := system settings;
    lastUpdated := now;
    updatedBy := "Current User" |}).

(** [updateAPIKeys]. *)
Definition updateAPIKeys (now : string) (k : APIKeySettings)
    (st : LocalStorage) : LocalStorage :=
  let settings := getAllSettings st in
  Some (stringified {|
    thresholds := thresholds settings;
    notifications := notifications settings;
    apiKeys := k;
    system := system settings;
    lastUpdated := now;
    updatedBy := "Current User" |}).

(** [updateSystemSettings]. *)
Definition updateSystemSettings (now : string) (y : SystemSettings)
    (st : LocalStorage) : LocalStorage :=
  let settings := getAllSettings st in
  Some (stringified {|
    thresholds := thresholds settings;
    notifications := notifications settings;
    apiKeys := apiKeys settings;
    system := y;
    lastUpdated := now;
    updatedBy := "Current User" |}).

(** [resetToDefaults]. *)
Definition resetToDefaults (st : LocalStorage) : LocalStorage := None.

(** [exportSettings]: the settings whose text is returned. *)
Definition exportSettings (st : LocalStorage) : AllSettings := getAllSettings st.

(** What [JSON.parse(settingsJson)] does in [importSettings]: it throws, it
    gives a value that is not an object ([null], a number, a string, a
    boolean), or it gives an object. *)
Inductive Parsed :=
| ParseError
| NotAnObject
| ParsedObject (imported : PartialSettings).

(** The result of [importSettings]. *)
Record ImportResult := {
  success : bool;
  import_error : option string;
  imported : option PartialSettings }.

(** [importSettings]: the result and the storage after the call. *)
Definition importSettings (now : string) (json : Parsed) (st : LocalStorage)
    : ImportResult * LocalStorage :=
  match json with
  | ParseError =>
      ({| success := false;
          import_error := Some "ファイルの解析に失敗しました"%string;
          imported := None |}, st)
  | NotAnObject =>
      ({| success := false;
          import_error := Some "無効な設定ファイルです"%string;
          imported := None |}, st)
  | ParsedObject imp =>
      let currentSettings := getAllSettings st in
      let merged := spread currentSettings imp in
      ({| success := true; import_error := None; imported := Some imp |},
       Some (stringified {|
         thresholds := thresholds merged;
         notifications := notifications merged;
         apiKeys := apiKeys merged;
         system := system merged;
         lastUpdated := now;
         updatedBy := "Import" |}))
  end.

(** The calls of the settings API that write the store. *)
Inductive StoreCall :=
| UpdateThresholds (now : string) (t : ThresholdSettings)
| UpdateNotifications (now : string) (n : NotificationSettings)
| UpdateAPIKeys (now : string) (k : APIKeySettings)
| UpdateSystemSettings (now : string) (y : SystemSettings)
| ResetToDefaults
| ImportSettings (now : string) (json : Parsed).

Definition call (st : LocalStorage) (c : StoreCall) : LocalStorage :=
  match c with
  | UpdateThresholds now t => updateThresholds now t st
  | UpdateNotifications now n => updateNotifications now n st
  | UpdateAPIKeys now k => updateAPIKeys now k st
  | UpdateSystemSettings now y => updateSystemSettings now y st
  | ResetToDefaults => resetToDefaults st
  | ImportSettings now json => snd (importSettings now json st)
  end.

End Store.

(** A call that leaves the thresholds alone: not an update of the
    thresholds, not a reset, and not an import whose object has a
    [thresholds] key. *)
Definition keepsThresholds (c : StoreCall) : bool :=
  match c with
  | UpdateThresholds _ _ => false
  | ResetToDefaults => false
  | ImportSettings _ (ParsedObject imp) =>
      match p_thresholds imp with
      | Some _ => false
      | None => true
      end
  | _ => true
  end.

(** A sample sequence of calls that leave the thresholds alone. *)
Definition otherCalls : list StoreCall :=
  [ UpdateNotifications "2024-07-30T10:00:00Z"
      (notifications (defaultSettings "2024-07-01T00:00:00Z"));
    ImportSettings "2024-07-30T11:00:00Z" ParseError;
    ImportSettings "2024-07-30T12:00:00Z"
      (ParsedObject {| p_thresholds := None; p_notifications := None;
                       p_apiKeys := None;
                       p_system := Some (system (defaultSettings "2024-07-01T00:00:00Z"));
                       p_lastUpdated := None; p_updatedBy := None |}) ].

(** The four sections of a settings object. *)
Definition sections (s : AllSettings)
    : ThresholdSettings * NotificationSettings * APIKeySettings * SystemSettings :=
  (thresholds s, notifications s, apiKeys s, system s).

(** ['invalid'] as code units. *)
Definition invalid_word : ustring := [105; 110; 118; 97; 108; 105; 100]%N.

(** [s.startsWith(w)] on code units. *)
Fixpoint startsWith (w s : ustring) : bool :=
  match w, s with
  | [], _ => true
  | _ :: _, [] => false
  | a :: w', b :: s' => N.eqb a b && startsWith w' s'
  end.

(** [s.includes(w)]. *)
Fixpoint includesWord (w s : ustring) : bool :=
  startsWith w s
  || match s with
     | [] => false
     | _ :: s' => includesWord w s'
     end.

Inductive Provider := Gemini | Openai | Serpapi | GoogleCustomSearch.

(** The result of [validateAPIKey]. *)
Record KeyValidation := {
  kv_isValid : bool;
  kv_error : option string;
  kv_usage : option Usage }.

(** [validateAPIKey]; [r1] and [r2] are the two values of [Math.random()]
    read for the mock usage. *)
Definition validateAPIKey (r1 r2 : number) (provider : Provider) (k : ustring)
    : KeyValidation :=
  if (len k =? 0) || (len k <? 10) then
    {| kv_isValid := false; kv_error := Some "APIキーが短すぎます"%string;
       kv_usage := None |}
  else if includesWord invalid_word k then
    {| kv_isValid := false; kv_error := Some "無効なAPIキーです"%string;
       kv_usage := None |}
  else
    {| kv_isValid := true; kv_error := None;
       kv_usage := Some {|
         usage_daily := floor (fmul r1 (ofZ 1000));
         usage_monthly := floor (fmul r2 (ofZ 10000));
         usage_limit := match provider with
                        | Gemini => 1000000
                        | Serpapi => 100
                        | _ => 1000
                        end |} |}.

End SettingsStore.

(* ================================================================== *)
(** ** The search service: what the generated results satisfy *)

Module SearchChecks.
Import JS Domain Http SearchService.

(** The filter of [generateMockSearchResults], read on a result. *)
Definition passesFilter (f : FilterConfig) (r : SearchResult) : Prop :=
  (f_threatLevels f = [] \/ In (threatLevel_name (threatLevel r)) (f_threatLevels f))
  /\ (f_domains f = [] \/ In (domain r) (f_domains f))
  /\ (f_status f = [] \/ In (status_name (status r)) (f_status f))
  /\ (f_isOfficial f = None \/ f_isOfficial f = Some (isOfficial r)).

End SearchChecks.

(* ================================================================== *)
(** ** The upload component: what its traces are measured against *)

Module ImageUploaderChecks.
Import JS ImageService ImageUploader.

(** The dropped files that pass [validateImageFile], over all drops of a
    trace, in the order of the drops. *)
Definition validDropped (trace : list Event) : list File :=
  flat_map (fun e => match e with
                     | Drop _ accepted _ =>
                         filter ImageServiceUtils.passesValidation accepted
                     | _ => []
                     end) trace.

(** The pending records of a list whose file satisfies [P]. *)
Definition pendingOf (P : File -> bool) (l : list ImageFile) : list ImageFile :=
  filter (fun r => isPending r && P (file r)) l.

(** What the fields of a record show for its status: a pending record has
    no progress, response or error; a completed one is at 100 with the
    response of its upload; a failed one is at 0 with an error. *)
Definition fieldsMatchStatus (x : ImageFile) : Prop :=
  match status x with
  | pending => progress x = 0 /\ response x = None /\ error x = None
  | uploading => True
  | completed => progress x = 100 /\ exists r, response x = Some r
  | failed => progress x = 0 /\ exists e, error x = Some e
  end.

(** A trace with more drops than the list holds, an upload in between and
    a removal. *)
Definition busy_trace : list Event :=
  [ Drop 1000 [ImageUploaderInvariants.photoA; ImageUploaderInvariants.bitmap] [];
    Upload;
    Drop 2000 [ImageUploaderInvariants.photoB; ImageUploaderInvariants.photoC] [];
    Remove {| stamp := 1000; position := 1 |};
    Drop 3000 [ImageUploaderInvariants.photoD] [];
    Upload ].

(** A trace that leaves a completed record, a record that failed
    validation and a pending one. *)
Definition mixed_trace : list Event :=
  [ Drop 1000 [ImageUploaderInvariants.photoA; ImageUploaderInvariants.bitmap] [];
    Upload;
    Settled {| stamp := 1000; position := 0 |}
            (PostOk ImageUploaderInvariants.stored);
    Drop 2000 [ImageUploaderInvariants.photoB] [] ].

End ImageUploaderChecks.

(* ================================================================== *)
(** ** The filter panel and the search results page *)

Module FilterPanel.
Import JS SearchService.

(** The body shared by [toggleThreatLevel], [toggleDomain] and
    [toggleStatus]:
<<
  current.includes(value) ? current.filter(l => l !== value)
                          : [...current, value]
>> *)
Definition toggle (value : string) (current : list string) : list string :=
  if includes current value
  then filter (fun l => negb (String.eqb l value)) current
  else current ++ [value].

(** [updateFilter(key, value)] for the three list-valued keys: the new
    filters handed to [onFiltersChange]. *)
Definition with_threatLevels (f : FilterConfig) (v : list string) : FilterConfig :=
  {| f_threatLevels := v; f_domains := f_domains f;
     f_startDate := f_startDate f; f_endDate := f_endDate f;
     f_similarityMin := f_similarityMin f; f_similarityMax := f_similarityMax f;
     f_status := f_status f; f_isOfficial := f_isOfficial f;
     f_hasRiskFactors := f_hasRiskFactors f;
     f_sortBy := f_sortBy f; f_sortOrder := f_sortOrder f |}.

Definition with_domains (f : FilterConfig) (v : list string) : FilterConfig :=
  {| f_threatLevels := f_threatLevels f; f_domains := v;
     f_startDate := f_startDate f; f_endDate := f_endDate f;
     f_similarityMin := f_similarityMin f; f_similarityMax := f_similarityMax f;
     f_status := f_status f; f_isOfficial := f_isOfficial f;
     f_hasRiskFactors := f_hasRiskFactors f;
     f_sortBy := f_sortBy f; f_sortOrder := f_sortOrder f |}.

Definition with_status (f : FilterConfig) (v : list string) : FilterConfig :=
  {| f_threatLevels := f_threatLevels f; f_domains := f_domains f;
     f_startDate := f_startDate f; f_endDate := f_endDate f;
     f_similarityMin := f_similarityMin f; f_similarityMax := f_similarityMax f;
     f_status := v; f_isOfficial := f_isOfficial f;
     f_hasRiskFactors := f_hasRiskFactors f;
     f_sortBy := f_sortBy f; f_sortOrder := f_sortOrder f |}.

Definition toggleThreatLevel (level : string) (filters : FilterConfig) : FilterConfig :=
  with_threatLevels filters (toggle level (f_threatLevels filters)).

Definition toggleDomain (domain : string) (filters : FilterConfig) : FilterConfig :=
  with_domains filters (toggle domain (f_domains filters)).

Definition toggleStatus (status : string) (filters : FilterConfig) : FilterConfig :=
  with_status filters (toggle status (f_status filters)).

(** [resetFilters]. *)
Definition resetFilters : FilterConfig := {|
  f_threatLevels := []; f_domains := [];
  f_startDate := None; f_endDate := None;
  f_similarityMin := 0; f_similarityMax := 100;
  f_status := []; f_isOfficial := None; f_hasRiskFactors := None;
  f_sortBy := "detectedAt"; f_sortOrder := "desc" |}.

Definition isSome {A} (v : option A) : bool :=
  match v with
  | Some _ => true
  | None => false
  end.

(** [activeFilterCount]: the entries of the array that are truthy. *)
Definition activeFilterCount (filters : FilterConfig) : Z :=
  len (filter (fun b : bool => b)
         [ len (f_threatLevels filters) >? 0;
           len (f_domains filters) >? 0;
           truthy (f_startDate filters) || truthy (f_endDate filters);
           len (f_status filters) >? 0;
           isSome (f_isOfficial filters);
           isSome (f_hasRiskFactors filters);
           gtb (f_similarityMin filters) 0 || ltb (f_similarityMax filters) 100 ]).

End FilterPanel.

Module SearchResultsPage.
Import JS SearchService.

(** [URLSearchParams]: the name/value pairs in their order. *)
Definition URLSearchParams := list (string * string).

Definition named (name : string) (kv : string * string) : bool :=
  String.eqb (fst kv) name.

(** [getAll], [get] ([None] is [null]), [delete], [append] and [set]
    ([set] overwrites the first pair of the name and drops the others, or
    appends a pair). *)
Definition getAll (name : string) (p : URLSearchParams) : list string :=
  map snd (filter (named name) p).

Definition get (name : string) (p : URLSearchParams) : option string :=
  match find (named name) p with
  | Some kv => Some (snd kv)
  | None => None
  end.

Definition delete (name : string) (p : URLSearchParams) : URLSearchParams :=
  filter (fun kv => negb (named name kv)) p.

Definition append (name value : string) (p : URLSearchParams) : URLSearchParams :=
  p ++ [(name, value)].

Fixpoint set (name value : string) (p : URLSearchParams) : URLSearchParams :=
  match p with
  | [] => [(name, value)]
  | kv :: rest =>
      if named name kv then (name, value) :: delete name rest
      else kv :: set name value rest
  end.

(** [v || d] for [v : string | null]. *)
Definition orString (v : option string) (d : string) : string :=
  match v with
  | Some s => if truthy v then s else d
  | None => d
  end.

(** [v === 'true' ? true : v === 'false' ? false : null]. *)
Definition triState (v : option string) : option bool :=
  match v with
  | Some s =>
      if String.eqb s "true" then Some true
      else if String.eqb s "false" then Some false
      else None
  | None => None
  end.

(** [b.toString()]. *)
Definition boolToString (b : bool) : string :=
  if b then "true" else "false".

(** The filters read from the URL: [FilterConfig] with the two bounds as
    [parseInt] returns them, [None] being [NaN]. *)
Record UrlFilters := {
  u_threatLevels : list string;
  u_domains : list string;
  u_startDate : option string;
  u_endDate : option string;
  u_similarityMin : option Q;
  u_similarityMax : option Q;
  u_status : list string;
  u_isOfficial : option bool;
  u_hasRiskFactors : option bool;
  u_sortBy : string;
  u_sortOrder : string }.

Definition ofConfig (f : FilterConfig) : UrlFilters := {|
  u_threatLevels := f_threatLevels f;
  u_domains := f_domains f;
  u_startDate := f_startDate f;
  u_endDate := f_endDate f;
  u_similarityMin := Some (f_similarityMin f);
  u_similarityMax := Some (f_similarityMax f);
  u_status := f_status f;
  u_isOfficial := f_isOfficial f;
  u_hasRiskFactors := f_hasRiskFactors f;
  u_sortBy := f_sortBy f;
  u_sortOrder := f_sortOrder f |}.

(** The state [handleFiltersChange] sets. *)
Record PageState := {
  page_filters : FilterConfig;
  currentPage : Z;
  page_searchParams : URLSearchParams }.

(** The names [handleFiltersChange] deletes before it writes the filters. *)
Definition listKeys : list string := ["threatLevels"; "domains"; "status"]%string.

Definition scalarKeys : list string :=
  ["startDate"; "endDate"; "minSimilarity"; "maxSimilarity";
   "isOfficial"; "hasRiskFactors"]%string.

Section Page.

(** [parseInt] on strings ([None] is [NaN]) and [Number.prototype.toString]
    are the runtime's. *)
Variable parseInt : string -> option Q.
Variable numberToString : Q -> string.

(** [initialFilters]. *)
Definition initialFilters (searchParams : URLSearchParams) : UrlFilters := {|
  u_threatLevels := getAll "threatLevels" searchParams;
  u_domains := getAll "domains" searchParams;
  u_startDate := get "startDate" searchParams;
  u_endDate := get "endDate" searchParams;
  u_similarityMin := parseInt (orString (get "minSimilarity" searchParams) "0");
  u_similarityMax := parseInt (orString (get "maxSimilarity" searchParams) "100");
  u_status := getAll "status" searchParams;
  u_isOfficial := triState (get "isOfficial" searchParams);
  u_hasRiskFactors := triState (get "hasRiskFactors" searchParams);
  u_sortBy := orString (get "sortBy" searchParams) "detectedAt";
  u_sortOrder := orString (get "sortOrder" searchParams) "desc" |}.

Definition setDate (name : string) (v : option string) (p : URLSearchParams)
    : URLSearchParams :=
  match v with
  | Some s => if truthy v then set name s p else p
  | None => p
  end.

Definition setFlag (name : string) (v : option bool) (p : URLSearchParams)
    : URLSearchParams :=
  match v with
  | Some b => set name (boolToString b) p
  | None => p
  end.

(** [if (cond) newSearchParams.set(name, value)]. *)
Definition setWhen (cond : bool) (name value : string) (p : URLSearchParams)
    : URLSearchParams :=
  if cond then set name value p else p.

(** The value a date or a flag is written with. *)
Definition dateValue (v : option string) : string :=
  match v with
  | Some s => s
  | None => EmptyString
  end.

Definition flagValue (v : option bool) : list string :=
  match v with
  | Some b => [boolToString b]
  | None => []
  end.

(** The parameters [handleFiltersChange] hands to [setSearchParams], in the
    order of its statements. *)
Definition newSearchParams (newFilters : FilterConfig)
    (searchParams : URLSearchParams) : URLSearchParams :=
  let p := fold_left (fun p key => delete key p) listKeys searchParams in
  let p := fold_left (fun p key => delete key p) scalarKeys p in
  let p := fold_left (fun p level => append "threatLevels" level p)
                     (f_threatLevels newFilters) p in
  let p := fold_left (fun p domain => append "domains" domain p)
                     (f_domains newFilters) p in
  let p := fold_left (fun p status => append "status" status p)
                     (f_status newFilters) p in
  let p := setDate "startDate" (f_startDate newFilters) p in
  let p := setDate "endDate" (f_endDate newFilters) p in
  let p := setWhen (gtb (f_similarityMin newFilters) 0) "minSimilarity"
                   (numberToString (f_similarityMin newFilters)) p in
  let p := setWhen (ltb (f_similarityMax newFilters) 100) "maxSimilarity"
                   (numberToString (f_similarityMax newFilters)) p in
  let p := setFlag "isOfficial" (f_isOfficial newFilters) p in
  let p := setFlag "hasRiskFactors" (f_hasRiskFactors newFilters) p in
  let p := set "sortBy" (f_sortBy newFilters) p in
  set "sortOrder" (f_sortOrder newFilters) p.

(** [handleFiltersChange]. *)
Definition handleFiltersChange (newFilters : FilterConfig)
    (searchParams : URLSearchParams) : PageState := {|
  page_filters := newFilters;
  currentPage := 1;
  page_searchParams := newSearchParams newFilters searchParams |}.

End Page.

(** What the pagination of the page reads from [searchData]. *)
Record SearchData := {
  resultCount : Z;          (* [searchData.results.length] *)
  totalPages : Z }.

(** The page numbers of the buttons between [前へ] and [次へ]; [None] is
    the [searchData] of a query without data.  With a [searchError] the
    component returns the error view.  Otherwise the results are rendered
    when the search is not loading and [searchData?.results.length === 0]
    does not hold, and the buttons among them when
    [searchData && searchData.totalPages > 1]:
<<
  Array.from({ length: Math.min(5, totalPages) }, (_, i) =>
    Math.max(1, Math.min(totalPages - 4, currentPage - 2)) + i)
>> *)
Definition pageButtons (searchError isSearchLoading : bool)
    (searchData : option SearchData) (currentPage : Z) : list Z :=
  if searchError then []
  else if isSearchLoading then []
  else match searchData with
       | None => []
       | Some data =>
           if resultCount data =? 0 then []
           else if totalPages data >? 1 then
             map (fun i => Z.max 1 (Z.min (totalPages data - 4)
                                          (currentPage - 2)) + i)
                 (map Z.of_nat
                      (seq 0 (Z.to_nat (Z.min 5 (totalPages data)))))
           else []
       end.

(** [parseInt] on the decimal numerals, for the examples. *)
Definition parseDecimal (s : string) : option Q :=
  match NilZero.int_of_string s with
  | Some i => Some (inject_Z (Z.of_int i))
  | None => None
  end.

(** A number's decimal numeral when it is an integer, for the examples. *)
Definition integerToString (q : Q) : string := toString (Qfloor q).

(** Filters with every kind of entry, and the parameters of a page that
    was opened for an image with other filters. *)
Definition recent_high : FilterConfig := {|
  f_threatLevels := ["HIGH"; "MEDIUM"]%string;
  f_domains := ["news-site.jp"]%string;
  f_startDate := Some "2024-01-01"%string; f_endDate := None;
  f_similarityMin := 30; f_similarityMax := 100;
  f_status := ["ACTIVE"]%string;
  f_isOfficial := Some false; f_hasRiskFactors := None;
  f_sortBy := "threatScore"; f_sortOrder := "asc" |}.

Definition opened_for_image : URLSearchParams :=
  [ ("imageId", "img-1"); ("threatLevels", "LOW"); ("sortBy", "domain");
    ("maxSimilarity", "80"); ("sortBy", "lastChecked") ]%string.

End SearchResultsPage.

(* ================================================================== *)
(** ** [mockWhitelistAPI] of [WhitelistManager.tsx] *)

Module WhitelistAPI.
Import JS Domain.

(** [filters.isActive] of a [Partial<FilterOptions>]: absent, [null] or a
    boolean. *)
Inductive ActiveFilter :=
| ActiveUndefined
| ActiveNull
| ActiveIs (b : bool).

(** [Partial<FilterOptions>] ([None] is an absent key); [dateRange] is
    never read by the API. *)
Record FilterOptions := {
  search : option string;
  category : option string;
  isActive : ActiveFilter }.

(** The default [{}] of the parameter [filters]. *)
Definition noFilters : FilterOptions :=
  {| search := None; category := None; isActive := ActiveUndefined |}.

(** The initial [filters] state of the component. *)
Definition initialFilters : FilterOptions :=
  {| search := Some ""%string; category := Some "all"%string;
     isActive := ActiveNull |}.

Definition category_name (c : WhitelistCategory) : string :=
  match c with
  | official => "official" | partner => "partner"
  | trusted => "trusted" | other => "other"
  end.

(** [s.includes(sub)]. *)
Fixpoint includesText (s sub : string) : bool :=
  String.prefix sub s
  || match s with
     | EmptyString => false
     | String _ rest => includesText rest sub
     end.

(** The string of a key that holds one. *)
Definition text (v : option string) : string :=
  match v with
  | Some s => s
  | None => EmptyString
  end.

(** [WhitelistResponse]. *)
Record WhitelistResponse := {
  domains : list WhitelistDomain;
  total : Z;
  resp_page : Z;
  resp_limit : Z }.

(** The values of the [Math.random()] that decides [isActive] in one call
    of [getWhitelistDomains], by index of the generated domain.  Every call
    draws afresh. *)
Definition Draws := Z -> number.

Section API.

(** [String.prototype.toLowerCase] is the runtime's. *)
Variable toLowerCase : string -> string.

(** The element [i] of [Array.from({ length: 15 }, (_, i) => ...)], with
    the fields of [Domain.WhitelistDomain]; [isActive] is
    [Math.random() > 0.2]. *)
Definition mockDomain (rnd : Draws) (i : Z) : WhitelistDomain :=
  {| wl_id := "domain-" ++ toString (i + 1);
     wl_domain :=
       nth (Z.to_nat (i mod 5))
           ["example"; "trusted"; "official"; "partner"; "secure"]%string
           ""%string
       ++ "-" ++ toString (i + 1) ++ ".com";
     wl_isActive := fgt (rnd i) (decimal 2 10);
     wl_category :=
       nth (Z.to_nat (i mod 4)) [official; partner; trusted; other] other |}.

(** The callback of [filter]: [true] when the domain is kept.  A key that
    is read after its truthiness was tested holds a string. *)
Definition keeps (filters : FilterOptions) (domain : WhitelistDomain) : bool :=
  if truthy (search filters)
     && negb (includesText (toLowerCase (wl_domain domain))
                           (toLowerCase (text (search filters))))
  then false
  else if truthy (category filters)
          && negb (String.eqb (text (category filters)) "all")
          && negb (String.eqb (category_name (wl_category domain))
                              (text (category filters)))
  then false
  else match isActive filters with
       | ActiveNull => true
       | ActiveUndefined => false
       | ActiveIs b => Bool.eqb (wl_isActive domain) b
       end.

(** The fields of a generated domain that no draw decides. *)
Definition entry (domain : WhitelistDomain)
    : string * string * WhitelistCategory :=
  (wl_id domain, wl_domain domain, wl_category domain).

(** The filtered [mockDomains] of a call with the draws [rnd]. *)
Definition mockDomains (rnd : Draws) (filters : FilterOptions)
    : list WhitelistDomain :=
  filter (keeps filters) (map (mockDomain rnd) (map Z.of_nat (seq 0 15))).

(** [getWhitelistDomains], with the draws of the call. *)
Definition getWhitelistDomains (rnd : Draws) (page limit : Z)
    (filters : FilterOptions) : WhitelistResponse :=
  {| domains := slice (mockDomains rnd filters)
                      ((page - 1) * limit) (page * limit);
     total := len (mockDomains rnd filters);
     resp_page := page;
     resp_limit := limit |}.

(** [exportDomains]: one call of [getWhitelistDomains], with its draws. *)
Definition exportDomains (rnd : Draws) (filters : FilterOptions)
    : list WhitelistDomain :=
  domains (getWhitelistDomains rnd 1 1000 filters).

(** The pages [first], [first + 1], ... ([count] of them), one after the
    other, each fetched by a call of its own: [rnds page] are the draws of
    the call for [page]. *)
Fixpoint pagesFrom (rnds : Z -> Draws) (count : nat) (first limit : Z)
    (filters : FilterOptions) : list WhitelistDomain :=
  match count with
  | O => []
  | S k => domains (getWhitelistDomains (rnds first) first limit filters)
           ++ pagesFrom rnds k (first + 1) limit filters
  end.

End API.


(** Lower case of the ASCII letters, for the examples. *)
Fixpoint asciiLower (s : string) : string :=
  match s with
  | EmptyString => EmptyString
  | String c rest =>
      let n := Ascii.nat_of_ascii c in
      String (if ((65 <=? n) && (n <=? 90))%nat
              then Ascii.ascii_of_nat (n + 32) else c)
             (asciiLower rest)
  end.

Definition partners : FilterOptions :=
  {| search := Some "PARTNER"%string; category := Some "all"%string;
     isActive := ActiveNull |}.

(** Filters that ask for the active domains. *)
Definition activeOnly : FilterOptions :=
  {| search := Some ""%string; category := Some "all"%string;
     isActive := ActiveIs true |}.

(** Draws that make every domain active, draws that make none active, and
    draws that differ from page to page. *)
Definition allActive : Draws := fun _ => decimal 9 10.
Definition noneActive : Draws := fun _ => decimal 1 10.
Definition varying : Z -> Draws :=
  fun page i => decimal ((page + i) mod 10) 10.

End WhitelistAPI.

(* ================================================================== *)
(** * Properties *)

Module JSFacts.

Lemma len_nonneg {A} (l : list A) : 0 <= JS.len l.
Proof. unfold JS.len. lia. Qed.

(** Inside the array, [slice i (i + size)] is the window of [size]
    elements that starts at [i], cut at the end of the array. *)
Lemma slice_window {A} (l : list A) (i size : Z) :
  0 <= i -> 0 <= size ->
  JS.slice l i (i + size)
  = firstn (Z.to_nat size) (skipn (Z.to_nat i) l).
Proof.
  intros Hi Hs. unfold JS.slice, JS.rel_index.
  assert (Hl := len_nonneg l).
  replace (i <? 0) with false by (symmetry; apply Z.ltb_ge; lia).
  replace (i + size <? 0) with false by (symmetry; apply Z.ltb_ge; lia).
  destruct (Z.le_gt_cases (JS.len l) i) as [Hout | Hin].
  - rewrite (Z.min_r i) by lia.
    rewrite !skipn_all2 by (unfold JS.len in *; lia).
    now rewrite !firstn_nil.
  - rewrite (Z.min_l i) by lia.
    destruct (Z.le_gt_cases (i + size) (JS.len l)) as [Hfit | Hcut].
    + rewrite Z.min_l by lia. f_equal. lia.
    + rewrite Z.min_r by lia.
      rewrite !firstn_all2; try reflexivity;
        rewrite length_skipn; unfold JS.len in *; lia.
Qed.

Lemma slice_prefix {A} (l : list A) (k : Z) :
  0 <= k -> JS.slice l 0 k = firstn (Z.to_nat k) l.
Proof.
  intros Hk. change k with (0 + k) at 1.
  now rewrite slice_window by lia.
Qed.

(** [l.slice(-k)] keeps the last [k] elements. *)
Lemma slice_from_suffix {A} (l : list A) (k : Z) :
  0 < k <= JS.len l ->
  JS.slice_from l (- k) = skipn (Z.to_nat (JS.len l - k)) l.
Proof.
  intros Hk. unfold JS.slice_from, JS.slice, JS.rel_index.
  replace (- k <? 0) with true by (symmetry; apply Z.ltb_lt; lia).
  replace (JS.len l <? 0) with false by (symmetry; apply Z.ltb_ge; lia).
  rewrite Z.min_id.
  replace (JS.len l + - k) with (JS.len l - k) by lia.
  rewrite (Z.max_l (JS.len l - k)) by lia.
  apply firstn_all2. rewrite length_skipn. unfold JS.len in *. lia.
Qed.

End JSFacts.

Module HelpersSpec.
Import Helpers JSFacts.

Example chunk_5_by_2 :
  chunk 5 [1; 2; 3; 4; 5] 2 = Some [[1; 2]; [3; 4]; [5]].
Proof. reflexivity. Qed.

Example chunk_size_0_exhausts_fuel :
  chunk 1000 [1; 2; 3] 0 = None.
Proof. reflexivity. Qed.

Lemma chunk_loop_stops {T} (fuel : nat) (array : list T) (size i : Z) acc :
  JS.len array <= i -> chunk_loop fuel array size i acc = Some acc.
Proof.
  intros H. destruct fuel; simpl;
    replace (i <? JS.len array) with false
      by (symmetry; apply Z.ltb_ge; lia); reflexivity.
Qed.

(** Loop invariant of [chunk]: from index [i] on, the loop appends to the
    accumulator a list of windows that covers the rest of the array. *)
Lemma chunk_loop_spec {T} (array : list T) (size : Z) :
  1 <= size ->
  forall (m : nat) (i : Z) (acc : list (list T)),
    0 <= i -> (Z.to_nat (JS.len array - i) <= m)%nat ->
    exists rest,
      (forall fuel, (m <= fuel)%nat ->
         chunk_loop fuel array size i acc = Some (acc ++ rest))
      /\ concat rest = skipn (Z.to_nat i) array
      /\ Forall (fun c => JS.len c = size) (removelast rest).
Proof.
  intros Hsize. induction m as [| m IH]; intros i acc Hi Hm.
  - exists []. repeat split.
    + intros fuel _. rewrite app_nil_r. apply chunk_loop_stops. lia.
    + simpl. symmetry. apply skipn_all2. unfold JS.len in *. lia.
    + constructor.
  - destruct (Z.le_gt_cases (JS.len array) i) as [Hout | Hin].
    + exists []. repeat split.
      * intros fuel _. rewrite app_nil_r. now apply chunk_loop_stops.
      * simpl. symmetry. apply skipn_all2. unfold JS.len in *. lia.
      * constructor.
    + set (w := JS.slice array i (i + size)).
      destruct (IH (i + size) (acc ++ [w])) as (rest & Hrun & Hcat & Hlen);
        [lia | lia |].
      exists (w :: rest). repeat split.
      * intros fuel Hfuel. destruct fuel as [| fuel]; [lia |]. simpl.
        replace (i <? JS.len array) with true
          by (symmetry; apply Z.ltb_lt; lia).
        fold w. rewrite (Hrun fuel) by lia. now rewrite <- app_assoc.
      * simpl. rewrite Hcat. unfold w.
        rewrite slice_window by lia.
        replace (Z.to_nat (i + size))
          with (Z.to_nat size + Z.to_nat i)%nat by lia.
        rewrite <- skipn_skipn. apply firstn_skipn.
      * destruct rest as [| c rest']; [constructor |].
        change (removelast (w :: c :: rest'))
          with (w :: removelast (c :: rest')).
        constructor; [| exact Hlen].
        destruct (Z.le_gt_cases (i + size) (JS.len array)) as [Hfit | Hcut].
        -- unfold w. rewrite slice_window by lia. unfold JS.len.
           rewrite length_firstn, length_skipn. unfold JS.len in *. lia.
        -- exfalso. specialize (Hrun m (Nat.le_refl m)).
           rewrite chunk_loop_stops in Hrun by lia.
           injection Hrun as Hrun.
           rewrite <- (app_nil_r (acc ++ [w])) in Hrun at 1.
           apply app_inv_head in Hrun. discriminate.
Qed.

(** C8. For every array and every integer [size >= 1], [chunk] terminates
    (any iteration budget of at least [array.length] lets the loop run to
    its end, with one and the same result), the returned sublists
    concatenated in order are exactly the array, and every sublist except
    possibly the last has length exactly [size]. *)
Theorem chunk_partitions {T} (array : list T) (size : Z) :
  1 <= size ->
  exists chunks,
    (forall fuel, (List.length array <= fuel)%nat ->
       chunk fuel array size = Some chunks)
    /\ concat chunks = array
    /\ Forall (fun c => JS.len c = size) (removelast chunks).
Proof.
  intros Hsize.
  destruct (chunk_loop_spec array size Hsize (List.length array) 0 [])
    as (chunks & Hrun & Hcat & Hlen); [lia | unfold JS.len; lia |].
  exists chunks. repeat split; assumption.
Qed.

Lemma chunk_partitions_witness :
  1 <= 2 /\
  exists chunks,
    (forall fuel, (List.length [10; 20; 30; 40; 50] <= fuel)%nat ->
       chunk fuel [10; 20; 30; 40; 50] 2 = Some chunks)
    /\ concat chunks = [10; 20; 30; 40; 50]
    /\ Forall (fun c => JS.len c = 2) (removelast chunks).
Proof.
  split; [lia | apply (chunk_partitions [10; 20; 30; 40; 50] 2); lia].
Defined.

End HelpersSpec.

Module SettingsSpec.
Import JS Settings.

Example mask_short : maskAPIKey [65; 66; 67]%N = [9679; 9679; 9679]%N.
Proof. reflexivity. Qed.

Example mask_long :
  maskAPIKey [1; 2; 3; 4; 5; 6; 7; 8; 9; 10]%N
  = [1; 2; 3; 4; 9679; 9679; 7; 8; 9; 10]%N.
Proof. reflexivity. Qed.

Example defaults_validate : validateThresholds defaultThresholds = [].
Proof. reflexivity. Qed.

Lemma maskAPIKey_long (key : ustring) :
  8 < JS.len key ->
  maskAPIKey key
  = firstn 4 key
    ++ repeat mask_char (length key - 8)
    ++ skipn (length key - 4) key.
Proof.
  intros Hlen. unfold maskAPIKey.
  destruct key as [| c key']; [cbn in Hlen; lia |].
  set (key := c :: key') in *.
  replace (JS.len key <=? 8) with false by (symmetry; apply Z.leb_gt; lia).
  rewrite JSFacts.slice_prefix by lia.
  change (JS.slice_from key (-4)) with (JS.slice_from key (- (4))).
  rewrite (JSFacts.slice_from_suffix key 4) by lia.
  unfold JS.repeat1. unfold JS.len in *.
  repeat f_equal; lia.
Qed.

(** C10. [maskAPIKey] returns a string of the same length as the key.  When
    the key has at most 8 characters every output character is the mask
    character; otherwise the output agrees with the key on its first four
    and its last four positions, and every position between them holds the
    mask character. *)
Theorem maskAPIKey_shape (key : ustring) :
  JS.len (maskAPIKey key) = JS.len key
  /\ (JS.len key <= 8 -> Forall (fun c => c = mask_char) (maskAPIKey key))
  /\ (8 < JS.len key ->
      forall i : nat, (i < length key)%nat ->
        nth_error (maskAPIKey key) i
        = if (i <? 4)%nat || (length key - 4 <=? i)%nat
          then nth_error key i
          else Some mask_char).
Proof.
  destruct (Z.le_gt_cases (JS.len key) 8) as [Hshort | Hlong].
  - assert (Hout : maskAPIKey key = repeat mask_char (length key)).
    { unfold maskAPIKey. destruct key as [| c key']; [reflexivity |].
      replace (JS.len (c :: key') <=? 8) with true
        by (symmetry; apply Z.leb_le; lia).
      unfold JS.repeat1, JS.len. now rewrite Nat2Z.id. }
    repeat split.
    + rewrite Hout. unfold JS.len. now rewrite repeat_length.
    + intros _. rewrite Hout. apply Forall_forall.
      intros c Hc. now apply repeat_spec in Hc.
    + intros Habs. lia.
  - rewrite (maskAPIKey_long key Hlong). unfold JS.len in *.
    repeat split.
    + rewrite !length_app, length_firstn, repeat_length, length_skipn. lia.
    + intros Habs. lia.
    + intros _ i Hi.
      destruct (Nat.ltb_spec i 4) as [Hhead | Hnothead]; cbn [orb].
      * rewrite nth_error_app1 by (rewrite length_firstn; lia).
        rewrite nth_error_firstn.
        now replace (i <? 4)%nat with true by (symmetry; apply Nat.ltb_lt; lia).
      * rewrite nth_error_app2 by (rewrite length_firstn; lia).
        rewrite length_firstn.
        replace (Nat.min 4 (length key)) with 4%nat by lia.
        destruct (Nat.leb_spec (length key - 4) i) as [Htail | Hmid].
        -- rewrite nth_error_app2 by (rewrite repeat_length; lia).
           rewrite repeat_length, nth_error_skipn. f_equal. lia.
        -- rewrite nth_error_app1 by (rewrite repeat_length; lia).
           apply nth_error_repeat. lia.
Qed.


Lemma push_if_nil (c : bool) (m : string) (errors : list string) :
  push_if c m errors = [] <-> c = false /\ errors = [].
Proof.
  unfold push_if. destruct c.
  - split; [| intros [H _]; discriminate].
    intros H. destruct errors; discriminate.
  - tauto.
Qed.

Lemma geb_false (x y : Q) : geb x y = false <-> (x < y)%Q.
Proof.
  unfold geb. split.
  - intros H. apply Qnot_le_lt. intros Hle.
    apply Qle_bool_iff in Hle. congruence.
  - intros H. destruct (Qle_bool y x) eqn:E; [| reflexivity].
    apply Qle_bool_iff in E. exfalso. now apply (Qlt_not_le x y).
Qed.

Lemma out_of_range_false (score : Q) :
  ltb score 0 || gtb score 100 = false <-> (0 <= score <= 100)%Q.
Proof.
  unfold ltb, gtb. rewrite orb_false_iff, !negb_false_iff, !Qle_bool_iff.
  tauto.
Qed.

Lemma existsb_false_Forall {A} (f : A -> bool) (l : list A) :
  existsb f l = false <-> Forall (fun x => f x = false) l.
Proof.
  induction l as [| a l IH]; simpl.
  - split; [constructor | reflexivity].
  - rewrite orb_false_iff, IH. split.
    + intros [Ha Hl]. now constructor.
    + intros H. inversion H; subst. tauto.
Qed.

(** X1. What [validateThresholds] checks: it returns no error exactly when the
    four threat score bands are strictly increasing (safe < low < medium <
    high) and the ten values of [allScores] lie in [0, 100].  A configuration
    that passes therefore has monotonic bands. *)
Theorem validateThresholds_accepts_iff (t : ThresholdSettings) :
  validateThresholds t = []
  <-> ((safe (threatScore t) < low (threatScore t))%Q
       /\ (low (threatScore t) < medium (threatScore t))%Q
       /\ (medium (threatScore t) < high (threatScore t))%Q)
      /\ Forall (fun score => (0 <= score <= 100)%Q) (allScores t).
Proof.
  unfold validateThresholds.
  rewrite !push_if_nil, !geb_false, existsb_false_Forall.
  rewrite (Forall_forall (fun x => ltb x 0 || gtb x 100 = false)).
  rewrite (Forall_forall (fun score => (0 <= score <= 100)%Q)).
  split.
  - intros (Hr & Hmh & Hlm & Hsl & _). repeat split; try assumption;
      apply out_of_range_false; now apply Hr.
  - intros ((Hsl & Hlm & Hmh) & Hr). repeat split; try assumption.
    intros x Hx. apply out_of_range_false. now apply Hr.
Qed.

(** C5, the failing input.  The default thresholds with
    [aiAnalysis.contentAbuse] set to 150 pass [validateThresholds] (and are
    saved by the settings page) although a configured threshold is above
    100: the range check reads the ten values of [allScores] and none of the
    three [aiAnalysis] thresholds. *)
Theorem validateThresholds_skips_aiAnalysis :
  validateThresholds (with_contentAbuse defaultThresholds 150) = []
  /\ handleSaveThresholds_saves (with_contentAbuse defaultThresholds 150) = true
  /\ In 150%Q (configuredThresholds (with_contentAbuse defaultThresholds 150))
  /\ (100 < 150)%Q.
Proof.
  repeat split; try reflexivity.
  unfold configuredThresholds. apply in_or_app. right. now left.
Qed.

End SettingsSpec.

Module ImageServiceSpec.
Import JS ImageService ImageServiceExamples.

Example accepts_2MB_jpeg : validateImageFile photo_2MB = None.
Proof. reflexivity. Qed.

Example rejects_50MB : validateImageFile photo_50MB = Some msg_too_large.
Proof. reflexivity. Qed.

Example rejects_pdf : validateImageFile document_pdf = Some msg_invalid_type.
Proof. reflexivity. Qed.

Lemma includes_In (l : list string) (s : string) :
  includes l s = true <-> In s l.
Proof.
  unfold includes. rewrite existsb_exists. split.
  - intros (x & Hx & Heq). apply String.eqb_eq in Heq. now subst.
  - intros H. exists s. split; [assumption | apply String.eqb_refl].
Qed.

(** The messages of [validateImageFile] are truthy. *)
Lemma validation_error_truthy (file : File) (msg : string) :
  validateImageFile file = Some msg -> truthy (Some msg) = true.
Proof.
  unfold validateImageFile.
  destruct (file_size file >? maxFileSize);
    [| destruct (negb (includes allowedTypes (file_type file)))];
    intros H; inversion H; reflexivity.
Qed.

Lemma validateImageFile_accepts_iff (file : File) :
  validateImageFile file = None
  <-> file_size file <= 10 * 1024 * 1024
      /\ In (file_type file)
            ["image/jpeg"; "image/png"; "image/gif"; "image/webp"]%string.
Proof.
  unfold validateImageFile. change maxFileSize with (10 * 1024 * 1024).
  destruct (Z.gtb_spec (file_size file) (10 * 1024 * 1024)) as [Hbig | Hfit].
  - split; [discriminate | lia].
  - destruct (includes allowedTypes (file_type file)) eqn:Hinc; cbn [negb].
    + apply includes_In in Hinc. tauto.
    + split; [discriminate |]. intros [_ Hin].
      apply includes_In in Hin. fold allowedTypes in Hin. congruence.
Qed.

(** C3. [validateImageFile] accepts a file (returns [null]) exactly when its
    size is at most 10 MB (10 * 1024 * 1024 bytes) and its MIME type is one
    of image/jpeg, image/png, image/gif, image/webp; and for a file it
    rejects, [uploadImage] throws the validation message and issues no
    upload request, whatever the server would answer. *)
Theorem validateImageFile_gates_upload (file : File) :
  (validateImageFile file = None
   <-> file_size file <= 10 * 1024 * 1024
       /\ In (file_type file)
             ["image/jpeg"; "image/png"; "image/gif"; "image/webp"]%string)
  /\ (forall msg, validateImageFile file = Some msg ->
        forall post : File -> PostResult,
          uploadImage post file
          = {| outcome := Rejected msg; requests := [] |}).
Proof.
  split; [apply validateImageFile_accepts_iff |].
  intros msg Hmsg post. unfold uploadImage.
  pose proof (validation_error_truthy file msg Hmsg) as Ht.
  rewrite Hmsg. now rewrite Ht.
Qed.

Lemma validateImageFile_gates_upload_witness :
  validateImageFile photo_50MB = Some msg_too_large
  /\ forall post : File -> PostResult,
       uploadImage post photo_50MB
       = {| outcome := Rejected msg_too_large; requests := [] |}.
Proof.
  split; [reflexivity |].
  apply (proj2 (validateImageFile_gates_upload photo_50MB) msg_too_large).
  reflexivity.
Defined.

End ImageServiceSpec.

Module SearchServiceSpec.
Import JS Domain Http SearchService SearchExamples.

Example mock_first_page :
  map (fun r => (domain r, threatLevel r))
      (results (generateMockSearchResults rnd_07 first_page))
  = [ ("news-site.jp"%string, HIGH); ("news-site.jp"%string, HIGH) ]
  /\ total (generateMockSearchResults rnd_07 first_page) = 190.
Proof. split; reflexivity. Qed.

Lemma in_collect {A B} (f : A -> option B) (l : list A) (b : B) :
  In b (collect f l) <-> exists a, In a l /\ f a = Some b.
Proof.
  induction l as [| a l IH]; simpl.
  - split; [tauto | intros (a & [] & _)].
  - destruct (f a) as [b' |] eqn:Hfa; simpl; rewrite IH; split.
    + intros [Heq | (a' & Hin & Hf)].
      * subst. exists a. auto.
      * exists a'. auto.
    + intros (a' & [Heq | Hin] & Hf).
      * subst. left. congruence.
      * right. exists a'. auto.
    + intros (a' & Hin & Hf). exists a'. auto.
    + intros (a' & [Heq | Hin] & Hf).
      * subst. congruence.
      * exists a'. auto.
Qed.

Lemma in_iterations (bound i : Z) :
  In i (iterations bound) <-> 0 <= i < bound.
Proof.
  unfold iterations. rewrite in_map_iff. split.
  - intros (n & Hn & Hin). apply in_seq in Hin. lia.
  - intros Hi. exists (Z.to_nat i). split; [lia |]. apply in_seq. lia.
Qed.

(** The level picked from [threatLevels] is SAFE exactly when the index
    computed from the draw is 0. *)
Lemma pick_threatLevel_safe (r : number) :
  pick threatLevels r UNKNOWN = SAFE <-> floor (fmul r (ofZ 5)) = 0.
Proof.
  unfold pick. change (len threatLevels) with 5.
  set (k := floor (fmul r (ofZ 5))).
  destruct (Z.ltb_spec k 0) as [Hneg | Hpos].
  - split; [discriminate | lia].
  - unfold threatLevels.
    destruct (Z.to_nat k) as [| [| [| [| [| n]]]]] eqn:Hk;
      cbn [nth]; split; intros H; try discriminate; try lia;
      try reflexivity.
    destruct n; discriminate.
Qed.

(** The first generated result of the example run. *)
Lemma mock_first_result :
  exists r,
    In r (results (generateMockSearchResults rnd_07 first_page))
    /\ domain r = "news-site.jp"%string
    /\ threatLevel r = HIGH.
Proof.
  destruct (mockResult rnd_07 first_page 0) as [r |] eqn:Hr;
    [| vm_compute in Hr; discriminate].
  exists r. split; [| split].
  - unfold generateMockSearchResults. cbn [results].
    apply (proj2 (in_collect _ _ _)). exists 0. split; [| exact Hr].
    apply (proj2 (in_iterations _ _)).
    vm_compute. split; [discriminate | reflexivity].
  - vm_compute in Hr. injection Hr as <-. reflexivity.
  - vm_compute in Hr. injection Hr as <-. reflexivity.
Qed.

(** C1, counterexample.  With the search API failing and [Math.random()]
    returning 0.7, the generated results are on [news-site.jp], which is
    active in the whitelist, and their threat level is HIGH. *)
Lemma whitelisted_result_rated_high :
  exists r,
    In r (results (generateMockSearchResults rnd_07 first_page))
    /\ activeWhitelisted whitelist_news (domain r) = true
    /\ threatLevel r = HIGH
    /\ settled (searchImages failing_api rnd_07 first_page)
       = Resolved (generateMockSearchResults rnd_07 first_page).
Proof.
  destruct mock_first_result as (r & Hin & Hdom & Hlevel).
  exists r. split; [exact Hin |]. split; [rewrite Hdom; reflexivity |].
  split; [exact Hlevel |]. reflexivity.
Qed.

(** With the draws of [rnd_picking kd kl] the first generated result is on
    domain number [kd] with threat level number [kl]. *)
Lemma picking_first_result (kd kl : nat) :
  (kd < 13)%nat -> (kl < 5)%nat ->
  exists r,
    mockResult (rnd_picking (Z.of_nat kd) (Z.of_nat kl)) first_page 0 = Some r
    /\ domain r = nth kd mockDomains ""%string
    /\ threatLevel r = nth kl threatLevels UNKNOWN.
Proof.
  intros Hd Hl.
  do 13 (destruct kd as [| kd];
         [do 5 (destruct kl as [| kl];
                [eexists; split; [vm_compute; reflexivity | split; reflexivity]
                |]); lia
         |]).
  lia.
Qed.

(** C1, as the code has it.  The threat level of a generated result is the
    level picked by that result's own draw of [Math.random()], and it is
    SAFE exactly when the index computed from the draw is 0; its domain is
    picked by another draw.  No whitelist takes part, and the two draws are
    free: every domain of the generator comes with every threat level for
    suitable values of [Math.random()]. *)
Theorem mock_threatLevel_follows_draw
    (rnd : Random) (params : SearchParams) (r : SearchResult)
    (d : string) (level : ThreatLevel) :
  In r (results (generateMockSearchResults rnd params)) ->
  In d mockDomains -> In level threatLevels ->
  (exists i,
      0 <= i
      /\ domain r = pick mockDomains (rnd RDomain i) ""%string
      /\ threatLevel r = pick threatLevels (rnd RThreatLevel i) UNKNOWN
      /\ (threatLevel r = SAFE
          <-> floor (fmul (rnd RThreatLevel i) (ofZ 5)) = 0))
  /\ (exists rnd' r',
         In r' (results (generateMockSearchResults rnd' first_page))
         /\ domain r' = d
         /\ threatLevel r' = level).
Proof.
  intros Hin Hd Hlevel. split.
  - cbn [results generateMockSearchResults] in Hin.
    apply in_collect in Hin. destruct Hin as (i & Hi & Hres).
    apply in_iterations in Hi. exists i.
    unfold mockResult in Hres.
    destruct (negb _) in Hres; [discriminate |].
    injection Hres as <-. cbn [domain threatLevel].
    repeat split; try lia; try apply pick_threatLevel_safe; auto.
  - apply (In_nth _ _ ""%string) in Hd. destruct Hd as (kd & Hkd & <-).
    apply (In_nth _ _ UNKNOWN) in Hlevel. destruct Hlevel as (kl & Hkl & <-).
    destruct (picking_first_result kd kl Hkd Hkl) as (r' & Hr' & Hdom & Hlev).
    exists (rnd_picking (Z.of_nat kd) (Z.of_nat kl)), r'.
    split; [| now split].
    unfold generateMockSearchResults. cbn [results].
    apply (proj2 (in_collect _ _ _)). exists 0. split; [| exact Hr'].
    apply (proj2 (in_iterations _ _)).
    vm_compute. split; [discriminate | reflexivity].
Qed.

Lemma mock_threatLevel_follows_draw_witness :
  exists rnd' r',
    In r' (results (generateMockSearchResults rnd' first_page))
    /\ domain r' = "news-site.jp"%string
    /\ threatLevel r' = SAFE.
Proof.
  destruct mock_first_result as (r & Hin & _).
  refine (proj2 (mock_threatLevel_follows_draw rnd_07 first_page r
                   "news-site.jp" SAFE Hin _ _)).
  - cbn. tauto.
  - cbn. tauto.
Defined.

Lemma searchImages_fallback (api : Request -> Outcome SearchResultsResponse)
    (rnd : Random) (params : SearchParams) (error : string) :
  api (searchRequest params) = Rejected error ->
  searchImages api rnd params
  = {| settled := Resolved (generateMockSearchResults rnd params);
       console := [ {| label := "Search images error:";
                       error_message := error |} ] |}.
Proof. intros H. unfold searchImages. now rewrite H. Qed.

(** The sibling [getSearchResultDetails] surfaces the failure. *)
Lemma getSearchResultDetails_rethrows (api : Request -> Outcome SearchResult)
    (resultId error : string) :
  api {| path := "/api/v1/search/results/" ++ resultId; query := [] |}
  = Rejected error ->
  settled (getSearchResultDetails api resultId)
  = Rejected "検索結果の詳細取得に失敗しました".
Proof. intros H. unfold getSearchResultDetails. now rewrite H. Qed.

End SearchServiceSpec.

Module AnalysisServiceSpec.
Import JS Domain Http AnalysisService AnalysisExamples.

Example mock_analysis_level :
  threatLevel (basicInfo (generateMockAnalysisData arnd_07 "analysis-1")) = HIGH.
Proof. reflexivity. Qed.

Lemma getAnalysisDetail_fallback (api : Request -> Outcome AnalysisReportData)
    (rnd : AnalysisService.Random) (analysisId error : string) :
  api {| path := "/api/v1/analysis/" ++ analysisId; query := [] |}
  = Rejected error ->
  getAnalysisDetail api rnd analysisId
  = {| settled := Resolved (generateMockAnalysisData rnd analysisId);
       console := [ {| label := "Get analysis detail error:";
                       error_message := error |} ] |}.
Proof. intros H. unfold getAnalysisDetail. now rewrite H. Qed.

(** C2, counterexample.  When the API call fails with a network error,
    [searchImages] and [getAnalysisDetail] do not fail: their promises
    resolve, with the data of the mock generators. *)
Lemma provider_error_answered_with_mock_data :
  settled (SearchService.searchImages
             SearchExamples.failing_api SearchExamples.rnd_07
             SearchExamples.first_page)
  = Resolved (SearchService.generateMockSearchResults
                SearchExamples.rnd_07 SearchExamples.first_page)
  /\ settled (getAnalysisDetail SearchExamples.failing_api arnd_07 "analysis-1")
     = Resolved (generateMockAnalysisData arnd_07 "analysis-1")
  /\ SearchService.total
       (SearchService.generateMockSearchResults
          SearchExamples.rnd_07 SearchExamples.first_page) = 190.
Proof. repeat split. Qed.

(** C2, as the code has it.  When the underlying API call fails,
    [searchImages] and [getAnalysisDetail] write the error to the console
    and resolve with generated mock data; the caller sees no failure. *)
Theorem fetch_failure_falls_back_to_mock (error : string) :
  (forall api rnd params,
      api (SearchService.searchRequest params) = Rejected error ->
      SearchService.searchImages api rnd params
      = {| settled := Resolved (SearchService.generateMockSearchResults rnd params);
           console := [ {| label := "Search images error:";
                           error_message := error |} ] |})
  /\ (forall api rnd analysisId,
        api {| path := "/api/v1/analysis/" ++ analysisId; query := [] |}
        = Rejected error ->
        getAnalysisDetail api rnd analysisId
        = {| settled := Resolved (generateMockAnalysisData rnd analysisId);
             console := [ {| label := "Get analysis detail error:";
                             error_message := error |} ] |}).
Proof.
  split.
  - intros api rnd params H. now apply SearchServiceSpec.searchImages_fallback.
  - intros api rnd analysisId H. now apply getAnalysisDetail_fallback.
Qed.

Lemma fetch_failure_falls_back_to_mock_witness :
  SearchService.searchImages
    SearchExamples.failing_api SearchExamples.rnd_07
    SearchExamples.first_page
  = {| settled := Resolved (SearchService.generateMockSearchResults
                              SearchExamples.rnd_07
                              SearchExamples.first_page);
       console := [ {| label := "Search images error:";
                       error_message := "Network Error" |} ] |}
  /\ getAnalysisDetail SearchExamples.failing_api arnd_07 "analysis-1"
     = {| settled := Resolved (generateMockAnalysisData arnd_07 "analysis-1");
          console := [ {| label := "Get analysis detail error:";
                          error_message := "Network Error" |} ] |}.
Proof.
  split.
  - apply (proj1 (fetch_failure_falls_back_to_mock "Network Error")).
    reflexivity.
  - apply (proj2 (fetch_failure_falls_back_to_mock "Network Error")).
    reflexivity.
Defined.

End AnalysisServiceSpec.

Module AggregatorSpec.
Import Aggregator.

Lemma defaultWeights_start : start defaultWeights = Started defaultWeights.
Proof. reflexivity. Qed.



End AggregatorSpec.

Module ImageUploaderSpec.
Import JS ImageService ImageUploader ImageUploaderInvariants.

Example drop_marks_invalid_failed :
  map status (files (run 10 [Drop 1000 [photoA; bitmap] []]))
  = [pending; failed].
Proof. reflexivity. Qed.

Example upload_cycle :
  map status
      (files (run 10 [ Drop 1000 [photoA; photoB] []; Upload;
                       Settled {| stamp := 1000; position := 0 |} (PostOk stored);
                       Settled {| stamp := 1000; position := 1 |} PostNoResponse ]))
  = [completed; failed].
Proof. reflexivity. Qed.

(* ---------------------------------------------------------------- *)
(** *** The reasons reported by [onDrop] *)

Lemma truthy_false_validation (f : File) :
  truthy (validateImageFile f) = false -> validateImageFile f = None.
Proof.
  destruct (validateImageFile f) as [msg |] eqn:Hv; [| reflexivity].
  rewrite (ImageServiceSpec.validation_error_truthy f msg Hv). discriminate.
Qed.

Lemma newImageFile_failed (now index : Z) (f : File) (msg : string) :
  validateImageFile f = Some msg ->
  status (newImageFile now index f) = failed
  /\ error (newImageFile now index f)
     = Some {| code := "validation"; message := msg |}.
Proof.
  intros Hv. unfold newImageFile. cbn [status error].
  pose proof (ImageServiceSpec.validation_error_truthy f msg Hv) as Ht.
  rewrite Hv, Ht. now split.
Qed.

Lemma newImageFile_pending (now index : Z) (f : File) :
  status (newImageFile now index f) = pending -> validateImageFile f = None.
Proof.
  unfold newImageFile. cbn [status].
  destruct (truthy (validateImageFile f)) eqn:Ht; [discriminate |].
  intros _. now apply truthy_false_validation.
Qed.

Lemma in_newImageFiles_from (now index : Z) (accepted : list File) (x : ImageFile) :
  In x (newImageFiles_from now index accepted) ->
  exists k f, index <= k < index + len accepted
              /\ In f accepted /\ x = newImageFile now k f.
Proof.
  revert index. induction accepted as [| f rest IH]; intros index; simpl.
  - tauto.
  - unfold len. cbn [List.length]. intros [Hx | Hx].
    + exists index, f. repeat split; try lia; auto.
    + destruct (IH (index + 1) Hx) as (k & g & Hk & Hg & Heq).
      exists k, g. unfold len in Hk. repeat split; try lia; auto.
Qed.

(** The three messages of the drop zone errors tell the reasons apart,
    whatever the file names. *)
Lemma rejectionMessage_distinguishes (maxFiles : Z) (f1 f2 : File)
    (e1 e2 : FileError) :
  In (err_code e1) ["file-too-large"; "file-invalid-type"; "too-many-files"]%string ->
  In (err_code e2) ["file-too-large"; "file-invalid-type"; "too-many-files"]%string ->
  rejectionMessage maxFiles f1 e1 = rejectionMessage maxFiles f2 e2 ->
  err_code e1 = err_code e2.
Proof.
  unfold rejectionMessage.
  intros [H1 | [H1 | [H1 | []]]] [H2 | [H2 | [H2 | []]]];
    rewrite <- H1, <- H2; cbn; intros H; try reflexivity; discriminate H.
Qed.

(** C6, counterexample.  The list may hold two files.  Two valid files are
    dropped and kept; two more valid files are dropped.  The list still holds
    the first two files only: the two files of the second drop are cut, a
    single toast about the limit is shown for both, and the records handed to
    [onFilesUploaded] for them are pending and carry no error. *)
Lemma excess_files_cut_without_reason :
  map (fun f => file_name (file f)) (files (run 2 two_drops_of_two))
  = ["a.jpg"%string; "b.png"%string]
  /\ toasts (run 2 two_drops_of_two)
     = [ToastError "最大2個のファイルまでアップロードできます"]
  /\ map (map (fun f => (file_name (file f), status f, error f)))
         (handed (run 2 two_drops_of_two))
     = [ [ ("a.jpg"%string, pending, None); ("b.png"%string, pending, None) ];
         [ ("c.gif"%string, pending, None); ("d.webp"%string, pending, None) ] ].
Proof. repeat split. Qed.

(** C6, as the code has it.  [onDrop] shows one toast for every error of
    every file the drop zone rejected, and for the codes file-too-large,
    file-invalid-type and too-many-files the text names the reason; an
    accepted file that fails [validateImageFile] gets a record with status
    failed and the validation message.  When the list would grow beyond
    [maxFiles] it is cut to its first [maxFiles] records and one toast
    about the limit is shown for the drop: the cut files get no report of
    their own.  The three texts tell the three reasons apart. *)
Theorem onDrop_reports (maxFiles now : Z) (accepted : list File)
    (rejected : list FileRejection) (s : State) :
  (forall r e, In r rejected -> In e (rej_errors r) ->
     In (ToastError (rejectionMessage maxFiles (rej_file r) e))
        (toasts (onDrop maxFiles now accepted rejected s))
     /\ (err_code e = "file-too-large"%string ->
         rejectionMessage maxFiles (rej_file r) e
         = ("ファイルサイズが大きすぎます: " ++ file_name (rej_file r))%string)
     /\ (err_code e = "file-invalid-type"%string ->
         rejectionMessage maxFiles (rej_file r) e
         = ("対応していないファイル形式です: " ++ file_name (rej_file r))%string)
     /\ (err_code e = "too-many-files"%string ->
         rejectionMessage maxFiles (rej_file r) e
         = ("ファイル数が上限を超えています（最大"
              ++ toString maxFiles ++ "個）")%string))
  /\ (forall f1 f2 e1 e2,
        In (err_code e1)
           ["file-too-large"; "file-invalid-type"; "too-many-files"]%string ->
        In (err_code e2)
           ["file-too-large"; "file-invalid-type"; "too-many-files"]%string ->
        rejectionMessage maxFiles f1 e1 = rejectionMessage maxFiles f2 e2 ->
        err_code e1 = err_code e2)
  /\ (forall x msg, In x (newImageFiles now accepted) ->
        validateImageFile (file x) = Some msg ->
        status x = failed
        /\ error x = Some {| code := "validation"; message := msg |})
  /\ handed (onDrop maxFiles now accepted rejected s)
     = handed s ++ [newImageFiles now accepted]
  /\ (len (files s ++ newImageFiles now accepted) > maxFiles ->
      files (onDrop maxFiles now accepted rejected s)
      = slice (files s ++ newImageFiles now accepted) 0 maxFiles
      /\ toasts (onDrop maxFiles now accepted rejected s)
         = toasts s ++ rejectionToasts maxFiles rejected
             ++ [ToastError (limitMessage maxFiles)])
  /\ (len (files s ++ newImageFiles now accepted) <= maxFiles ->
      files (onDrop maxFiles now accepted rejected s)
      = files s ++ newImageFiles now accepted
      /\ toasts (onDrop maxFiles now accepted rejected s)
         = toasts s ++ rejectionToasts maxFiles rejected).
Proof.
  split; [| split; [| split; [| split; [| split]]]].
  - intros r e Hr He. split; [| repeat split].
    + cbn [toasts onDrop]. apply in_or_app. right. apply in_or_app. left.
      unfold rejectionToasts. apply in_flat_map. exists r. split; [assumption |].
      apply in_map_iff. exists e. auto.
    + intros Hc. unfold rejectionMessage. now rewrite Hc.
    + intros Hc. unfold rejectionMessage. now rewrite Hc.
    + intros Hc. unfold rejectionMessage. now rewrite Hc.
  - apply rejectionMessage_distinguishes.
  - intros x msg Hx Hv. apply in_newImageFiles_from in Hx.
    destruct Hx as (k & f & _ & _ & ->). cbn [file newImageFile] in Hv.
    now apply newImageFile_failed.
  - reflexivity.
  - intros Hover. cbn [files toasts onDrop].
    replace (len (files s ++ newImageFiles now accepted) >? maxFiles)
      with true by (symmetry; apply Z.gtb_lt; lia).
    split; reflexivity.
  - intros Hfits. cbn [files toasts onDrop].
    destruct (Z.gtb_spec (len (files s ++ newImageFiles now accepted)) maxFiles);
      [lia |].
    split; [reflexivity | now rewrite app_nil_r].
Qed.

(* ---------------------------------------------------------------- *)
(** *** Records and list updates *)

Lemma in_slice {A} (l : list A) (a b : Z) (x : A) :
  In x (slice l a b) -> In x l.
Proof.
  unfold slice. intros H.
  set (n := Z.to_nat (rel_index (len l) a)) in *.
  set (m := Z.to_nat _) in H.
  rewrite <- (firstn_skipn n l). apply in_or_app. right.
  rewrite <- (firstn_skipn m (skipn n l)). apply in_or_app. now left.
Qed.

Lemma in_updateById (fileId : FileId) (g : ImageFile -> ImageFile)
    (l : list ImageFile) (x : ImageFile) :
  In x (updateById fileId g l) ->
  exists y, In y l
            /\ ((fileId_eqb (id y) fileId = false /\ x = y)
                \/ (fileId_eqb (id y) fileId = true /\ x = g y)).
Proof.
  unfold updateById. rewrite in_map_iff. intros (y & Hy & Hin).
  exists y. split; [assumption |].
  destruct (fileId_eqb (id y) fileId); [right | left]; auto.
Qed.

Lemma in_markUploading (ps l : list ImageFile) (x : ImageFile) :
  In x (fold_left (fun l p => updateById (id p) setUploading l) ps l) ->
  exists y, In y l /\ (x = y \/ x = setUploading y).
Proof.
  revert l. induction ps as [| p ps IH]; intros l; simpl.
  - intros H. exists x. auto.
  - intros H. destruct (IH _ H) as (y & Hy & Hx).
    apply in_updateById in Hy.
    destruct Hy as (z & Hz & [[_ ->] | [_ ->]]); exists z; split; auto.
    destruct Hx as [-> | ->]; right; reflexivity.
Qed.

(* ---------------------------------------------------------------- *)
(** *** Only validated files are uploaded *)

Lemma isPending_true (x : ImageFile) : isPending x = true <-> status x = pending.
Proof. unfold isPending. destruct (status x); split; congruence. Qed.

Lemma validated_step (maxFiles : Z) (s : State) (e : Event) :
  validated s -> validated (step maxFiles s e).
Proof.
  intros [Hfiles Hcalls].
  destruct e as [now accepted rejected | fileId | | | fileId pct | fileId answer];
    cbn [step].
  - split; [| exact Hcalls]. cbn [files onDrop]. intros x Hx Hst.
    assert (Hin : In x (files s ++ newImageFiles now accepted)).
    { destruct (len _ >? maxFiles); [now apply in_slice in Hx | exact Hx]. }
    apply in_app_or in Hin. destruct Hin as [Hold | Hnew]; [now apply Hfiles |].
    apply in_newImageFiles_from in Hnew. destruct Hnew as (k & f & _ & _ & ->).
    now apply newImageFile_pending in Hst.
  - split; [| exact Hcalls]. cbn [files removeFile]. intros x Hx Hst.
    apply filter_In in Hx. now apply Hfiles.
  - split; [| exact Hcalls]. cbn [files clearAllFiles]. intros x [].
  - unfold uploadFiles. destruct (len (filter isPending (files s)) =? 0).
    + split; assumption.
    + split.
      * cbn [files]. intros x Hx Hst. apply in_markUploading in Hx.
        destruct Hx as (y & Hy & [-> | ->]); [now apply Hfiles | discriminate].
      * cbn [uploadCalls]. apply Forall_app. split; [exact Hcalls |].
        apply Forall_forall. intros f Hf. apply in_map_iff in Hf.
        destruct Hf as (x & <- & Hx). apply filter_In in Hx.
        destruct Hx as [Hx Hp]. apply Hfiles; [assumption |].
        now apply isPending_true.
  - unfold onProgress. destruct (inflightFile fileId (inflight s));
      [| split; assumption].
    split; [| exact Hcalls]. cbn [files]. intros x Hx Hst.
    apply in_updateById in Hx.
    destruct Hx as (y & Hy & [[_ ->] | [_ ->]]); [now apply Hfiles |].
    cbn [file status setProgress] in *. now apply Hfiles.
  - unfold onSettled. destruct (inflightFile fileId (inflight s)) as [f |];
      [| split; assumption].
    destruct (outcome (uploadImage (fun _ => answer) f)) as [r | msg];
      (split; [| exact Hcalls]); cbn [files]; intros x Hx Hst;
      apply in_updateById in Hx;
      destruct Hx as (y & Hy & [[_ ->] | [_ ->]]);
      try discriminate; now apply Hfiles.
Qed.

Lemma validated_fold (maxFiles : Z) (trace : list Event) (s : State) :
  validated s -> validated (fold_left (step maxFiles) trace s).
Proof.
  revert s. induction trace as [| e trace IH]; intros s Hs; simpl.
  - exact Hs.
  - apply IH. now apply validated_step.
Qed.

Lemma uploadFiles_calls (s : State) :
  uploadCalls (uploadFiles s)
  = uploadCalls s ++ map file (filter isPending (files s)).
Proof.
  unfold uploadFiles.
  destruct (Z.eqb_spec (len (filter isPending (files s))) 0) as [Hnone | Hsome];
    [| reflexivity].
  cbn [uploadCalls]. destruct (filter isPending (files s)); [| discriminate].
  now rewrite app_nil_r.
Qed.

(** C9. A file that fails client-side validation is never uploaded: at drop
    time [onDrop] gives status failed to every file for which
    [validateImageFile] returns an error, [uploadFiles] calls [uploadImage]
    with the files of the pending records only, and after any sequence of
    drops, removals, uploads, progress events and settled uploads every
    file [uploadImage] was called with passes [validateImageFile]. *)
Theorem validation_failed_never_uploaded (maxFiles : Z) (trace : list Event) :
  (forall now index f msg,
      validateImageFile f = Some msg ->
      status (newImageFile now index f) = failed)
  /\ (forall s, uploadCalls (uploadFiles s)
                = uploadCalls s ++ map file (filter isPending (files s)))
  /\ Forall (fun f => validateImageFile f = None)
            (uploadCalls (run maxFiles trace)).
Proof.
  split; [| split].
  - intros now index f msg Hv. exact (proj1 (newImageFile_failed now index f msg Hv)).
  - exact uploadFiles_calls.
  - apply (validated_fold maxFiles trace initial).
    split; [intros x [] | constructor].
Qed.

(* ---------------------------------------------------------------- *)
(** *** The upload life cycle *)

(** C7, the failing input.  Two drops get the same value of [Date.now()],
    so the file of the first drop and the file of the second share the id
    1000-0.  The first file is uploaded and completed before the second
    drop; starting the upload of the second file marks every record with
    that id as uploading, the completed one included, and a failure of the
    second upload then marks it failed. *)
Theorem shared_id_reopens_completed_record :
  map (fun f => (file_name (file f), status f)) (files (run 10 upload_a))
  = [ ("a.jpg"%string, completed) ]
  /\ map (fun f => (file_name (file f), status f))
         (files (run 10 upload_a_then_b_same_stamp))
     = [ ("a.jpg"%string, uploading); ("b.png"%string, uploading) ]
  /\ map (fun f => (file_name (file f), status f))
         (files (run 10 (upload_a_then_b_same_stamp
                         ++ [Settled {| stamp := 1000; position := 0 |}
                                     PostNoResponse])))
     = [ ("a.jpg"%string, failed); ("b.png"%string, failed) ].
Proof. repeat split. Qed.

Lemma fileId_eqb_eq (a b : FileId) : fileId_eqb a b = true <-> a = b.
Proof.
  unfold fileId_eqb. destruct a as [sa pa], b as [sb pb]. cbn.
  rewrite andb_true_iff, !Z.eqb_eq. split.
  - intros [-> ->]. reflexivity.
  - intros H. injection H as -> ->. auto.
Qed.

Lemma fileId_eqb_neq (a b : FileId) : fileId_eqb a b = false <-> a <> b.
Proof.
  rewrite <- fileId_eqb_eq. destruct (fileId_eqb a b); split; congruence.
Qed.

Lemma NoDup_map_eq {A B} (f : A -> B) (l : list A) (x y : A) :
  NoDup (map f l) -> In x l -> In y l -> f x = f y -> x = y.
Proof.
  induction l as [| a l IH]; simpl; [tauto |].
  intros Hnd Hx Hy Hf. inversion Hnd as [| ? ? Hnotin Hnd']; subst.
  destruct Hx as [-> | Hx], Hy as [-> | Hy]; auto.
  - exfalso. apply Hnotin. rewrite Hf. now apply in_map.
  - exfalso. apply Hnotin. rewrite <- Hf. now apply in_map.
Qed.

(** Filtering the records keeps their ids distinct. *)
Lemma ids_NoDup_filter (keep : ImageFile -> bool) (l : list ImageFile) :
  NoDup (map id l) -> NoDup (map id (filter keep l)).
Proof.
  intros Hnd. induction l as [| a l IH]; cbn [filter map] in *; [constructor |].
  apply NoDup_cons_iff in Hnd. destruct Hnd as [Hfresh Hnd].
  destruct (keep a); cbn [map]; [| now apply IH].
  apply NoDup_cons_iff. split; [| now apply IH].
  intros Hin. apply Hfresh. apply in_map_iff in Hin.
  destruct Hin as (x & Hx & Hin). apply filter_In in Hin.
  apply in_map_iff. exists x. tauto.
Qed.

Lemma NoDup_slice {A} (l : list A) (a b : Z) : NoDup l -> NoDup (slice l a b).
Proof.
  unfold slice. intros H.
  set (n := Z.to_nat (rel_index (len l) a)).
  set (m := Z.to_nat _).
  rewrite <- (firstn_skipn n l) in H. apply NoDup_app_remove_l in H.
  rewrite <- (firstn_skipn m (skipn n l)) in H.
  now apply NoDup_app_remove_r in H.
Qed.

Lemma map_slice {A B} (f : A -> B) (l : list A) (a b : Z) :
  map f (slice l a b) = slice (map f l) a b.
Proof.
  unfold slice, len. now rewrite length_map, skipn_map, firstn_map.
Qed.

Lemma in_newImageFiles_stamp (now : Z) (accepted : list File) (x : ImageFile) :
  In x (newImageFiles now accepted) -> stamp (id x) = now.
Proof.
  intros H. apply in_newImageFiles_from in H.
  destruct H as (k & f & _ & _ & ->). reflexivity.
Qed.

Lemma NoDup_newImageFiles (now index : Z) (accepted : list File) :
  NoDup (map id (newImageFiles_from now index accepted)).
Proof.
  revert index. induction accepted as [| f rest IH]; intros index; simpl.
  - constructor.
  - constructor; [| apply IH].
    intros Hin. apply in_map_iff in Hin. destruct Hin as (x & Hid & Hx).
    apply in_newImageFiles_from in Hx. destruct Hx as (k & g & Hk & _ & ->).
    cbn in Hid. injection Hid as Hid. lia.
Qed.

Lemma map_id_updateById (fileId : FileId) (g : ImageFile -> ImageFile)
    (l : list ImageFile) :
  (forall x, id (g x) = id x) ->
  map id (updateById fileId g l) = map id l.
Proof.
  intros Hg. unfold updateById. rewrite map_map. apply map_ext.
  intros x. destruct (fileId_eqb (id x) fileId); auto.
Qed.

(** The loop of [uploadFiles] marks the records whose id is the id of a
    pending file. *)
Lemma markUploading_eq (ps l : list ImageFile) :
  fold_left (fun l p => updateById (id p) setUploading l) ps l
  = map (fun x => if existsb (fun p => fileId_eqb (id x) (id p)) ps
                  then setUploading x else x) l.
Proof.
  revert l. induction ps as [| p ps IH]; intros l; simpl.
  - symmetry. apply map_id.
  - rewrite IH. unfold updateById. rewrite map_map. apply map_ext.
    intros x. destruct (fileId_eqb (id x) (id p)) eqn:Hxp;
      cbn [orb id setUploading]; [| reflexivity].
    now destruct (existsb _ ps).
Qed.

Lemma inflightFile_Some (fileId : FileId) (l : list (FileId * File)) (f : File) :
  inflightFile fileId l = Some f -> In (fileId, f) l.
Proof.
  unfold inflightFile. destruct (find _ l) as [p |] eqn:Hfind; [| discriminate].
  intros H. injection H as <-. apply find_some in Hfind.
  destruct Hfind as [Hin Heq]. apply fileId_eqb_eq in Heq.
  destruct p as [i g]. cbn in *. now subst.
Qed.

Lemma in_removeInflight (fileId : FileId) (l : list (FileId * File))
    (p : FileId * File) :
  In p (removeInflight fileId l) -> In p l.
Proof.
  induction l as [| q l IH]; simpl; [tauto |].
  destruct (fileId_eqb (fst q) fileId); simpl; tauto.
Qed.

Lemma removeInflight_NoDup (fileId : FileId) (l : list (FileId * File)) :
  NoDup (map fst l) ->
  NoDup (map fst (removeInflight fileId l))
  /\ (forall p, In p (removeInflight fileId l) -> fst p <> fileId).
Proof.
  induction l as [| q l IH]; simpl; intros Hnd.
  - split; [constructor | tauto].
  - apply NoDup_cons_iff in Hnd. destruct Hnd as [Hfresh Hnd].
    destruct (fileId_eqb (fst q) fileId) eqn:Hq.
    + apply fileId_eqb_eq in Hq. split; [assumption |].
      intros p Hp Heq. apply Hfresh. rewrite Hq, <- Heq. now apply in_map.
    + destruct (IH Hnd) as [Hnd' Hne]. split.
      * cbn [map]. apply NoDup_cons_iff. split; [| assumption].
        intros Hin. apply Hfresh. apply in_map_iff in Hin.
        destruct Hin as (p & Hp & Hin). apply in_removeInflight in Hin.
        apply in_map_iff. exists p. auto.
      * intros p [<- | Hp]; [now apply fileId_eqb_neq | now apply Hne].
Qed.

Lemma wellFormed_weaken (seen more : list Z) (s : State) :
  wellFormed seen s -> wellFormed (seen ++ more) s.
Proof.
  intros [H1 H2 H3 H4 H5]. constructor; auto.
  - intros x Hx. apply in_or_app. left. auto.
  - intros p Hp. apply in_or_app. left. auto.
Qed.

Lemma wellFormed_same (seen : list Z) (s s' : State) :
  files s' = files s -> inflight s' = inflight s ->
  wellFormed seen s -> wellFormed seen s'.
Proof.
  intros Hf Hi [H1 H2 H3 H4 H5]. constructor; rewrite ?Hf, ?Hi; auto.
Qed.

Lemma wellFormed_onDrop (maxFiles now : Z) (accepted : list File)
    (rejected : list FileRejection) (seen : list Z) (s : State) :
  wellFormed seen s -> ~ In now seen ->
  wellFormed (seen ++ [now]) (onDrop maxFiles now accepted rejected s).
Proof.
  intros [H1 H2 H3 H4 H5] Hfresh.
  assert (Hsub : forall x, In x (files (onDrop maxFiles now accepted rejected s)) ->
                           In x (files s) \/ In x (newImageFiles now accepted)).
  { cbn [files onDrop]. intros x Hx. apply in_app_or.
    destruct (len _ >? maxFiles); [now apply in_slice in Hx | exact Hx]. }
  constructor.
  - intros x Hx. apply in_or_app. destruct (Hsub x Hx) as [Hold | Hnew].
    + left. auto.
    + right. left. symmetry. now apply in_newImageFiles_stamp with accepted.
  - assert (Hall : NoDup (map id (files s ++ newImageFiles now accepted))).
    { rewrite map_app. apply NoDup_app; [assumption | apply NoDup_newImageFiles |].
      intros i Hold Hnew. apply in_map_iff in Hold, Hnew.
      destruct Hold as (x & <- & Hx), Hnew as (y & Hy & Hnew).
      apply in_newImageFiles_stamp in Hnew. apply Hfresh.
      rewrite <- Hnew, Hy. auto. }
    cbn [files onDrop]. destruct (len _ >? maxFiles); [| exact Hall].
    rewrite map_slice. now apply NoDup_slice.
  - intros p Hp. apply in_or_app. left. auto.
  - assumption.
  - cbn [inflight onDrop]. intros p x Hp Hx Hid.
    destruct (Hsub x Hx) as [Hold | Hnew]; [eauto |].
    exfalso. apply Hfresh. apply in_newImageFiles_stamp in Hnew.
    rewrite <- Hnew, Hid. auto.
Qed.

Lemma wellFormed_removeFile (fileId : FileId) (seen : list Z) (s : State) :
  wellFormed seen s -> wellFormed seen (removeFile fileId s).
Proof.
  intros [H1 H2 H3 H4 H5]. constructor; cbn [files inflight removeFile]; auto.
  - intros x Hx. apply filter_In in Hx. now apply H1.
  - now apply ids_NoDup_filter.
  - intros p x Hp Hx. apply filter_In in Hx. now apply H5.
Qed.

Lemma wellFormed_clearAllFiles (seen : list Z) (s : State) :
  wellFormed seen s -> wellFormed seen (clearAllFiles s).
Proof.
  intros [H1 H2 H3 H4 H5]. constructor; cbn [files inflight clearAllFiles]; auto.
  - intros x [].
  - constructor.
  - intros p x _ [].
Qed.

Lemma wellFormed_uploadFiles (seen : list Z) (s : State) :
  wellFormed seen s -> wellFormed seen (uploadFiles s).
Proof.
  intros Hwf. unfold uploadFiles.
  destruct (len (filter isPending (files s)) =? 0);
    [now apply (wellFormed_same seen s) |].
  destruct Hwf as [H1 H2 H3 H4 H5].
  set (ps := filter isPending (files s)).
  assert (Hps : forall q, In q ps -> In q (files s) /\ status q = pending).
  { intros q Hq. apply filter_In in Hq. now rewrite isPending_true in Hq. }
  assert (Hids : map id (fold_left (fun l p => updateById (id p) setUploading l)
                                   ps (files s)) = map id (files s)).
  { rewrite markUploading_eq, map_map. apply map_ext.
    intros x. now destruct (existsb _ ps). }
  constructor; cbn [files inflight].
  - intros x Hx. apply in_markUploading in Hx.
    destruct Hx as (y & Hy & [-> | ->]); cbn [id setUploading]; now apply H1.
  - now rewrite Hids.
  - intros p Hp. apply in_app_or in Hp. destruct Hp as [Hp | Hp]; [auto |].
    apply in_map_iff in Hp. destruct Hp as (q & <- & Hq).
    apply H1. now apply Hps.
  - rewrite map_app, map_map. cbn [fst]. apply NoDup_app.
    + assumption.
    + now apply ids_NoDup_filter.
    + intros i Hold Hnew. apply in_map_iff in Hold, Hnew.
      destruct Hold as (p & <- & Hp), Hnew as (q & Hq & Hin).
      destruct (Hps q Hin) as [Hqf Hqs].
      rewrite (H5 p q Hp Hqf Hq) in Hqs. discriminate.
  - intros p x Hp Hx Hid. rewrite markUploading_eq in Hx.
    apply in_map_iff in Hx. destruct Hx as (y & Hy & Hin).
    apply in_app_or in Hp. destruct Hp as [Hp | Hp].
    + assert (Hyu : status y = uploading).
      { apply (H5 p y Hp Hin). rewrite <- Hid, <- Hy.
        now destruct (existsb _ ps). }
      rewrite <- Hy. now destruct (existsb _ ps).
    + apply in_map_iff in Hp. destruct Hp as (q & <- & Hq). cbn [fst] in Hid.
      assert (Hex : existsb (fun p => fileId_eqb (id y) (id p)) ps = true).
      { apply existsb_exists. exists q. split; [assumption |].
        apply fileId_eqb_eq. rewrite <- Hid, <- Hy.
        now destruct (existsb _ ps). }
      rewrite Hex in Hy. now rewrite <- Hy.
Qed.

Lemma wellFormed_updateById (fileId : FileId) (g : ImageFile -> ImageFile)
    (seen : list Z) (s s' : State) :
  (forall x, id (g x) = id x) ->
  files s' = updateById fileId g (files s) ->
  (forall p, In p (inflight s') -> In p (inflight s)) ->
  NoDup (map fst (inflight s')) ->
  (forall p x, In p (inflight s') -> fst p = fileId -> In x (files s) ->
               id x = fileId -> status (g x) = uploading) ->
  wellFormed seen s -> wellFormed seen s'.
Proof.
  intros Hg Hfiles Hsub Hnd Hupd [H1 H2 H3 H4 H5]. constructor.
  - rewrite Hfiles. intros x Hx. apply in_updateById in Hx.
    destruct Hx as (y & Hy & [[_ ->] | [_ ->]]); rewrite ?Hg; now apply H1.
  - rewrite Hfiles. now rewrite map_id_updateById.
  - intros p Hp. apply H3. now apply Hsub.
  - assumption.
  - rewrite Hfiles. intros p x Hp Hx Hid. apply in_updateById in Hx.
    destruct Hx as (y & Hy & [[_ ->] | [Heq ->]]).
    + apply (H5 p y); auto.
    + apply fileId_eqb_eq in Heq. rewrite Hg in Hid.
      apply (Hupd p y); congruence.
Qed.

Lemma wellFormed_onProgress (fileId : FileId) (percentage : Z)
    (seen : list Z) (s : State) :
  wellFormed seen s -> wellFormed seen (onProgress fileId percentage s).
Proof.
  intros Hwf. unfold onProgress.
  destruct (inflightFile fileId (inflight s)) as [f |]; [| assumption].
  apply (wellFormed_updateById fileId (setProgress percentage) seen s);
    try reflexivity; auto.
  - apply (wf_inflight_nodup seen s Hwf).
  - cbn [inflight status setProgress]. intros p x Hp Hfst Hx Hid.
    apply (wf_inflight_uploading seen s Hwf p x); congruence.
Qed.

Lemma wellFormed_onSettled (fileId : FileId) (answer : PostResult)
    (seen : list Z) (s : State) :
  wellFormed seen s -> wellFormed seen (onSettled fileId answer s).
Proof.
  intros Hwf. unfold onSettled.
  destruct (inflightFile fileId (inflight s)) as [f |]; [| assumption].
  destruct (removeInflight_NoDup fileId (inflight s) (wf_inflight_nodup seen s Hwf))
    as [Hnd Hne].
  destruct (outcome (uploadImage (fun _ => answer) f)) as [r | msg].
  - apply (wellFormed_updateById fileId (setCompleted r) seen s);
      try reflexivity; auto; cbn [inflight].
    + intros p. apply in_removeInflight.
    + intros p x Hp Hfst. now apply Hne in Hp.
  - apply (wellFormed_updateById fileId (setFailed msg) seen s);
      try reflexivity; auto; cbn [inflight].
    + intros p. apply in_removeInflight.
    + intros p x Hp Hfst. now apply Hne in Hp.
Qed.

Lemma wellFormed_step (maxFiles : Z) (seen : list Z) (s : State) (e : Event) :
  wellFormed seen s -> freshEvent seen e ->
  wellFormed (seen ++ dropStamps [e]) (step maxFiles s e).
Proof.
  intros Hwf Hfresh.
  destruct e as [now accepted rejected | fileId | | | fileId pct | fileId answer];
    cbn [step dropStamps flat_map app]; rewrite ?app_nil_r.
  - apply wellFormed_onDrop; [assumption |]. apply Hfresh. now left.
  - now apply wellFormed_removeFile.
  - now apply wellFormed_clearAllFiles.
  - now apply wellFormed_uploadFiles.
  - now apply wellFormed_onProgress.
  - now apply wellFormed_onSettled.
Qed.

Lemma dropStamps_app (t1 t2 : list Event) :
  dropStamps (t1 ++ t2) = dropStamps t1 ++ dropStamps t2.
Proof. unfold dropStamps. apply flat_map_app. Qed.

Lemma run_snoc (maxFiles : Z) (trace : list Event) (e : Event) :
  run maxFiles (trace ++ [e]) = step maxFiles (run maxFiles trace) e.
Proof. unfold run. now rewrite fold_left_app. Qed.

Lemma fresh_last (trace : list Event) (e : Event) :
  NoDup (dropStamps (trace ++ [e])) ->
  NoDup (dropStamps trace) /\ freshEvent (dropStamps trace) e.
Proof.
  rewrite dropStamps_app. intros Hnd. split.
  - now apply NoDup_app_remove_r in Hnd.
  - intros now Hnow. destruct e; cbn in Hnow; try contradiction.
    destruct Hnow as [<- | []]. cbn in Hnd.
    apply NoDup_remove_2 in Hnd. now rewrite app_nil_r in Hnd.
Qed.

Lemma wellFormed_run (maxFiles : Z) (trace : list Event) :
  NoDup (dropStamps trace) -> wellFormed (dropStamps trace) (run maxFiles trace).
Proof.
  induction trace as [| e trace IH] using rev_ind; intros Hnd.
  - constructor; cbn; try constructor; tauto.
  - apply fresh_last in Hnd. destruct Hnd as [Hnd Hfresh].
    rewrite run_snoc, dropStamps_app. apply wellFormed_step; auto.
Qed.

Lemma advances_refl (a : Status) : advances a a.
Proof. now left. Qed.

Lemma reaches_advances (a b c : Status) :
  reaches a b -> advances b c -> reaches a c.
Proof.
  unfold reaches, advances, terminal.
  intros [-> | [-> | [-> Hb]]] [-> | [[-> ->] | [-> Hc]]]; auto;
    destruct Hb; discriminate.
Qed.

Lemma reaches_terminal (a b : Status) : reaches a b -> terminal a -> b = a.
Proof.
  unfold reaches, terminal.
  intros [-> | [-> | [-> _]]] [H | H]; auto; discriminate.
Qed.

(** One event moves the status of every record along the life cycle, when
    the ids are distinct and the event is not a drop with a used time
    stamp. *)
Lemma step_advances (maxFiles : Z) (seen : list Z) (s : State) (e : Event) :
  wellFormed seen s -> freshEvent seen e ->
  forall x x', In x (files s) -> In x' (files (step maxFiles s e)) ->
               id x' = id x -> advances (status x) (status x').
Proof.
  intros Hwf Hfresh x x' Hx Hx' Hid.
  pose proof (wf_files_nodup seen s Hwf) as Hnd.
  assert (Hsame : forall y, In y (files s) -> id y = id x -> y = x).
  { intros y Hy Hyx. now apply (NoDup_map_eq id (files s)). }
  destruct e as [now accepted rejected | fileId | | | fileId pct | fileId answer];
    cbn [step] in Hx'.
  - cbn [files onDrop] in Hx'.
    assert (Hin : In x' (files s ++ newImageFiles now accepted)).
    { destruct (len _ >? maxFiles); [now apply in_slice in Hx' | exact Hx']. }
    apply in_app_or in Hin. destruct Hin as [Hold | Hnew].
    + rewrite (Hsame x' Hold Hid). apply advances_refl.
    + exfalso. apply (Hfresh now); [now left |].
      apply in_newImageFiles_stamp in Hnew. rewrite <- Hnew, Hid.
      now apply (wf_files_seen seen s Hwf).
  - cbn [files removeFile] in Hx'. apply filter_In in Hx'.
    rewrite (Hsame x' (proj1 Hx') Hid). apply advances_refl.
  - destruct Hx'.
  - unfold uploadFiles in Hx'.
    destruct (len (filter isPending (files s)) =? 0).
    + rewrite (Hsame x' Hx' Hid). apply advances_refl.
    + cbn [files] in Hx'. rewrite markUploading_eq in Hx'.
      apply in_map_iff in Hx'. destruct Hx' as (y & Hy & Hin).
      assert (Hyx : y = x).
      { apply Hsame; [assumption |]. rewrite <- Hid, <- Hy.
        now destruct (existsb _ (filter isPending (files s))). }
      subst y.
      destruct (existsb _ (filter isPending (files s))) eqn:Hex;
        [| subst x'; apply advances_refl].
      apply existsb_exists in Hex. destruct Hex as (q & Hq & Heq).
      apply fileId_eqb_eq in Heq. apply filter_In in Hq.
      destruct Hq as [Hq Hpend]. apply isPending_true in Hpend.
      rewrite (Hsame q Hq (eq_sym Heq)) in Hpend.
      subst x'. right. left. split; [assumption | reflexivity].
  - unfold onProgress in Hx'.
    destruct (inflightFile fileId (inflight s));
      [| rewrite (Hsame x' Hx' Hid); apply advances_refl].
    cbn [files] in Hx'. apply in_updateById in Hx'.
    destruct Hx' as (y & Hy & [[_ ->] | [_ ->]]).
    + rewrite (Hsame y Hy Hid). apply advances_refl.
    + cbn [id setProgress] in Hid. rewrite (Hsame y Hy Hid). apply advances_refl.
  - unfold onSettled in Hx'.
    destruct (inflightFile fileId (inflight s)) as [f |] eqn:Hfl;
      [| rewrite (Hsame x' Hx' Hid); apply advances_refl].
    apply inflightFile_Some in Hfl.
    assert (Hup : forall y, In y (files s) -> fileId_eqb (id y) fileId = true ->
                            id y = id x -> status x = uploading).
    { intros y Hy Heq Hyx. apply fileId_eqb_eq in Heq.
      apply (wf_inflight_uploading seen s Hwf (fileId, f) x); auto.
      cbn [fst]. congruence. }
    destruct (outcome (uploadImage (fun _ => answer) f)) as [r | msg];
      cbn [files] in Hx'; apply in_updateById in Hx';
      destruct Hx' as (y & Hy & [[_ ->] | [Heq ->]]);
      try (rewrite (Hsame y Hy Hid); apply advances_refl);
      cbn [id setCompleted setFailed status] in *;
      right; right; rewrite (Hup y Hy Heq Hid); auto.
Qed.

(** A record of the next state continues a record of the current state,
    unless the event is a drop and the record carries its time stamp. *)
Lemma step_predecessor (maxFiles : Z) (s : State) (e : Event) (x' : ImageFile) :
  In x' (files (step maxFiles s e)) ->
  (exists x, In x (files s) /\ id x = id x')
  \/ In (stamp (id x')) (dropStamps [e]).
Proof.
  intros Hx'.
  destruct e as [now accepted rejected | fileId | | | fileId pct | fileId answer];
    cbn [step] in Hx'.
  - cbn [files onDrop] in Hx'.
    assert (Hin : In x' (files s ++ newImageFiles now accepted)).
    { destruct (len _ >? maxFiles); [now apply in_slice in Hx' | exact Hx']. }
    apply in_app_or in Hin. destruct Hin as [Hold | Hnew].
    + left. exists x'. auto.
    + right. left. symmetry. now apply in_newImageFiles_stamp with accepted.
  - left. cbn [files removeFile] in Hx'. apply filter_In in Hx'.
    exists x'. tauto.
  - destruct Hx'.
  - left. unfold uploadFiles in Hx'.
    destruct (len (filter isPending (files s)) =? 0); [exists x'; auto |].
    cbn [files] in Hx'. apply in_markUploading in Hx'.
    destruct Hx' as (y & Hy & [-> | ->]); exists y; auto.
  - left. unfold onProgress in Hx'.
    destruct (inflightFile fileId (inflight s)); [| exists x'; auto].
    cbn [files] in Hx'. apply in_updateById in Hx'.
    destruct Hx' as (y & Hy & [[_ ->] | [_ ->]]); exists y; auto.
  - left. unfold onSettled in Hx'.
    destruct (inflightFile fileId (inflight s)) as [f |]; [| exists x'; auto].
    destruct (outcome (uploadImage (fun _ => answer) f)) as [r | msg];
      cbn [files] in Hx'; apply in_updateById in Hx';
      destruct Hx' as (y & Hy & [[_ ->] | [_ ->]]); exists y; auto.
Qed.

(** X2. When no two drops of a run get the same value of [Date.now()], the
    status of a record only moves along pending -> uploading -> completed or
    failed, whatever happens later; a record that is completed or failed
    keeps its status for as long as it is in the list. *)
Theorem distinct_stamps_terminal_final
    (maxFiles : Z) (trace later : list Event) (x x' : ImageFile) :
  NoDup (dropStamps (trace ++ later)) ->
  In x (files (run maxFiles trace)) ->
  In x' (files (run maxFiles (trace ++ later))) ->
  id x' = id x ->
  reaches (status x) (status x')
  /\ (terminal (status x) -> status x' = status x).
Proof.
  intros Hnd Hx Hx' Hid.
  enough (Hreach : reaches (status x) (status x')).
  { split; [exact Hreach | now apply reaches_terminal]. }
  revert x' Hnd Hx' Hid.
  induction later as [| e later IH] using rev_ind; intros x' Hnd Hx' Hid.
  - rewrite app_nil_r in *.
    pose proof (wellFormed_run maxFiles trace Hnd) as Hwf.
    left. f_equal. symmetry.
    now apply (NoDup_map_eq id (files (run maxFiles trace)));
      [apply (wf_files_nodup _ _ Hwf) | | |].
  - rewrite app_assoc in Hnd, Hx'. apply fresh_last in Hnd.
    destruct Hnd as [Hnd Hfresh]. rewrite run_snoc in Hx'.
    pose proof (wellFormed_run maxFiles (trace ++ later) Hnd) as Hwf.
    destruct (step_predecessor maxFiles _ e x' Hx') as [(y & Hy & Hyid) | Hnew].
    + apply reaches_advances with (status y).
      * apply IH; [assumption | assumption | congruence].
      * now apply (step_advances maxFiles (dropStamps (trace ++ later))
                     (run maxFiles (trace ++ later)) e Hwf Hfresh y x' Hy Hx').
    + exfalso. apply (Hfresh _ Hnew). rewrite dropStamps_app.
      apply in_or_app. left. rewrite Hid.
      rewrite dropStamps_app in Hnd. apply NoDup_app_remove_r in Hnd.
      now apply (wf_files_seen _ _ (wellFormed_run maxFiles trace Hnd)).
Qed.

Lemma distinct_stamps_terminal_final_witness :
  NoDup (dropStamps (upload_a ++ drop_b_later))
  /\ In photoA_completed (files (run 10 upload_a))
  /\ In photoA_completed (files (run 10 (upload_a ++ drop_b_later)))
  /\ reaches (status photoA_completed) (status photoA_completed)
  /\ (terminal (status photoA_completed) ->
      status photoA_completed = status photoA_completed).
Proof.
  assert (Hnd : NoDup (dropStamps (upload_a ++ drop_b_later))).
  { cbn. repeat constructor; cbn; intuition discriminate. }
  assert (Hx : In photoA_completed (files (run 10 upload_a))).
  { left. reflexivity. }
  assert (Hx' : In photoA_completed (files (run 10 (upload_a ++ drop_b_later)))).
  { left. reflexivity. }
  split; [exact Hnd |]. split; [exact Hx |]. split; [exact Hx' |].
  exact (distinct_stamps_terminal_final 10 upload_a drop_b_later
           photoA_completed photoA_completed Hnd Hx Hx' eq_refl).
Defined.

End ImageUploaderSpec.

(* ================================================================== *)
(** * Further properties *)

Module HelpersCollectionsSpec.
Import HelpersCollections.

Example unique_keeps_first :
  unique Z.eq_dec [3; 1; 3; 2; 1] = [3; 1; 2].
Proof. reflexivity. Qed.

Section UniqueFacts.

Variable T : Type.
Variable T_eq_dec : forall x y : T, {x = y} + {x <> y}.

Lemma set_has_In (x : T) (s : list T) : set_has T_eq_dec x s = true <-> In x s.
Proof.
  unfold set_has. destruct (in_dec T_eq_dec x s); split; auto; discriminate.
Qed.

Lemma set_add_In (s : list T) (x y : T) :
  In y (set_add T_eq_dec s x) <-> In y s \/ y = x.
Proof.
  unfold set_add. destruct (set_has T_eq_dec x s) eqn:Hx.
  - apply set_has_In in Hx. split; [auto |]. intros [H | ->]; auto.
  - rewrite in_app_iff. cbn. intuition.
Qed.

Lemma set_add_NoDup (s : list T) (x : T) :
  NoDup s -> NoDup (set_add T_eq_dec s x).
Proof.
  intros Hs. unfold set_add. destruct (set_has T_eq_dec x s) eqn:Hx; [assumption |].
  apply NoDup_app; [assumption | repeat constructor; auto |].
  intros y Hy [<- | []].
  apply set_has_In in Hy. congruence.
Qed.

Lemma fold_set_add_spec (l s : list T) :
  (NoDup s -> NoDup (fold_left (set_add T_eq_dec) l s))
  /\ (forall y, In y (fold_left (set_add T_eq_dec) l s) <-> In y s \/ In y l).
Proof.
  revert s. induction l as [| x l IH]; intros s; cbn [fold_left].
  - split; [auto |]. intros y. cbn. tauto.
  - destruct (IH (set_add T_eq_dec s x)) as [Hnd Hin]. split.
    + intros Hs. apply Hnd. now apply set_add_NoDup.
    + intros y. rewrite Hin, set_add_In. cbn. intuition.
Qed.

(** Adding the members of [l] to a set [s] appends to [s] the new members
    of [l], in the order [unique] lists them. *)
Lemma fold_set_add_app (l s : list T) :
  fold_left (set_add T_eq_dec) l s
  = s ++ filter (fun x => negb (set_has T_eq_dec x s)) (unique T_eq_dec l).
Proof.
  unfold unique, new_Set.
  induction l as [| x l IH] using rev_ind.
  - cbn. now rewrite app_nil_r.
  - rewrite !fold_left_app. cbn [fold_left]. rewrite IH.
    set (u := fold_left (set_add T_eq_dec) l []) in *.
    set (keep := fun x => negb (set_has T_eq_dec x s)).
    unfold set_add.
    destruct (set_has T_eq_dec x u) eqn:Hxu.
    + assert (Hin : set_has T_eq_dec x (s ++ filter keep u) = true).
      { apply set_has_In. apply set_has_In in Hxu. apply in_or_app.
        destruct (set_has T_eq_dec x s) eqn:Hxs.
        - left. now apply set_has_In.
        - right. apply filter_In. split; [assumption |]. unfold keep.
          now rewrite Hxs. }
      now rewrite Hin.
    + rewrite filter_app. cbn [filter].
      replace (keep x) with (negb (set_has T_eq_dec x s)) by reflexivity.
      destruct (set_has T_eq_dec x s) eqn:Hxs; cbn [negb].
      * assert (Hin : set_has T_eq_dec x (s ++ filter keep u) = true).
        { apply set_has_In. apply in_or_app. left. now apply set_has_In. }
        rewrite Hin. now rewrite app_nil_r.
      * assert (Hout : set_has T_eq_dec x (s ++ filter keep u) = false).
        { destruct (set_has T_eq_dec x (s ++ filter keep u)) eqn:E; [| reflexivity].
          apply set_has_In in E. apply in_app_or in E. destruct E as [E | E].
          - apply set_has_In in E. congruence.
          - apply filter_In in E. destruct E as [E _].
            apply set_has_In in E. congruence. }
        rewrite Hout. now rewrite app_assoc.
Qed.

(** X3. [unique] returns each member of the array exactly once, in the order
    of the first occurrences: the result has no duplicate, it has the same
    members as the array, the result for [l1 ++ l2] is the result for [l1]
    followed by the members of the result for [l2] that are not in [l1],
    and an array without duplicates is returned unchanged (so [unique] is
    idempotent). *)
Theorem unique_first_occurrences (l l1 l2 : list T) :
  NoDup (unique T_eq_dec l)
  /\ (forall x, In x (unique T_eq_dec l) <-> In x l)
  /\ unique T_eq_dec (l1 ++ l2)
     = unique T_eq_dec l1
       ++ filter (fun x => negb (set_has T_eq_dec x (unique T_eq_dec l1)))
                 (unique T_eq_dec l2)
  /\ (NoDup l -> unique T_eq_dec l = l)
  /\ unique T_eq_dec (unique T_eq_dec l) = unique T_eq_dec l.
Proof.
  assert (Hnd : forall l, NoDup (unique T_eq_dec l)).
  { intros l0. apply (proj1 (fold_set_add_spec l0 [])). constructor. }
  assert (Hfix : forall l, NoDup l -> unique T_eq_dec l = l).
  { intros l0. induction l0 as [| x l0 IH] using rev_ind; intros Hl0.
    - reflexivity.
    - unfold unique, new_Set in *. rewrite fold_left_app. cbn [fold_left].
      rewrite IH by (now apply NoDup_app_remove_r in Hl0).
      unfold set_add. destruct (set_has T_eq_dec x l0) eqn:Hx; [| reflexivity].
      exfalso. apply set_has_In in Hx.
      apply NoDup_remove_2 in Hl0. apply Hl0. now rewrite app_nil_r. }
  split; [apply Hnd |]. split; [| split; [| split]].
  - intros x. unfold unique, new_Set.
    rewrite (proj2 (fold_set_add_spec l [])). cbn. tauto.
  - unfold unique at 1. unfold new_Set. rewrite fold_left_app.
    apply fold_set_add_app.
  - apply Hfix.
  - apply Hfix, Hnd.
Qed.

End UniqueFacts.

Section ObjectFacts.

Variable V : Type.

Lemma obj_get_set (k k' : string) (v : V) (obj : Obj V) :
  obj_get k (obj_set k' v obj)
  = if String.eqb k' k then Some v else obj_get k obj.
Proof.
  induction obj as [| [j w] rest IH]; cbn [obj_set obj_get].
  - reflexivity.
  - destruct (String.eqb j k') eqn:Hjk'; cbn [obj_get].
    + apply String.eqb_eq in Hjk'. subst j.
      now destruct (String.eqb k' k).
    + destruct (String.eqb j k) eqn:Hjk; [| exact IH].
      apply String.eqb_eq in Hjk. subst j.
      destruct (String.eqb k' k) eqn:E; [| reflexivity].
      apply String.eqb_eq in E. subst. now rewrite String.eqb_refl in Hjk'.
Qed.

Lemma obj_get_delete (k k' : string) (obj : Obj V) :
  obj_get k (obj_delete k' obj)
  = if String.eqb k' k then None else obj_get k obj.
Proof.
  unfold obj_delete.
  induction obj as [| [j w] rest IH]; cbn [filter obj_get fst].
  - now destruct (String.eqb k' k).
  - destruct (String.eqb j k') eqn:Hjk'; cbn [negb obj_get].
    + rewrite IH. apply String.eqb_eq in Hjk'. subst j.
      now destruct (String.eqb k' k).
    + rewrite IH. destruct (String.eqb j k) eqn:Hjk; [| reflexivity].
      apply String.eqb_eq in Hjk. subst j.
      destruct (String.eqb k' k) eqn:E; [| reflexivity].
      apply String.eqb_eq in E. subst. now rewrite String.eqb_refl in Hjk'.
Qed.

Lemma obj_has_get (k : string) (obj : Obj V) :
  obj_has k obj = false <-> obj_get k obj = None.
Proof.
  unfold obj_has. induction obj as [| [j w] rest IH]; cbn [existsb obj_get fst].
  - tauto.
  - destruct (String.eqb j k); cbn [orb]; [split; discriminate | exact IH].
Qed.

Lemma obj_get_pick_from (obj result : Obj V) (keys : list string) (k : string) :
  obj_get k
    (fold_left
       (fun result key =>
          if obj_has key obj then
            match obj_get key obj with
            | Some v => obj_set key v result
            | None => result
            end
          else result)
       keys result)
  = if mentions keys k && obj_has k obj then obj_get k obj else obj_get k result.
Proof.
  revert result. induction keys as [| key keys IH]; intros result;
    cbn [fold_left mentions existsb andb].
  - reflexivity.
  - rewrite IH. fold (mentions keys k).
    destruct (String.eqb k key) eqn:Hk.
    + apply String.eqb_eq in Hk. subst key. cbn [orb andb].
      destruct (obj_has k obj) eqn:Hhas.
      * rewrite andb_true_r. destruct (mentions keys k); [reflexivity |].
        destruct (obj_get k obj) as [v |] eqn:Hget.
        -- now rewrite obj_get_set, String.eqb_refl.
        -- apply obj_has_get in Hget. congruence.
      * now rewrite andb_false_r.
    + cbn [orb]. destruct (mentions keys k && obj_has k obj); [reflexivity |].
      destruct (obj_has key obj); [| reflexivity].
      destruct (obj_get key obj) as [v |]; [| reflexivity].
      rewrite obj_get_set. rewrite String.eqb_sym in Hk. now rewrite Hk.
Qed.

Lemma obj_get_omit (obj : Obj V) (keys : list string) (k : string) :
  obj_get k (omit obj keys)
  = if mentions keys k then None else obj_get k obj.
Proof.
  unfold omit. revert obj. induction keys as [| key keys IH]; intros obj;
    cbn [fold_left mentions existsb].
  - reflexivity.
  - rewrite IH. fold (mentions keys k). rewrite obj_get_delete.
    rewrite (String.eqb_sym k key).
    destruct (String.eqb key k), (mentions keys k); reflexivity.
Qed.

(** X4. [pick] and [omit] split an object along a list of keys: a key reads
    from [pick(obj, keys)] what it reads from [obj] when it is listed and
    [undefined] otherwise, it reads from [omit(obj, keys)] [undefined] when
    it is listed and what it reads from [obj] otherwise, and so every
    property of [obj] is in exactly one of the two results.  Keys that the
    object does not have are ignored. *)
Theorem pick_omit_partition (obj : Obj V) (keys : list string) (k : string) :
  obj_get k (pick obj keys)
  = (if mentions keys k then obj_get k obj else None)
  /\ obj_get k (omit obj keys)
     = (if mentions keys k then None else obj_get k obj)
  /\ (obj_get k (pick obj keys) = None \/ obj_get k (omit obj keys) = None)
  /\ obj_get k obj
     = match obj_get k (pick obj keys) with
       | Some v => Some v
       | None => obj_get k (omit obj keys)
       end.
Proof.
  assert (Hpick : obj_get k (pick obj keys)
                  = if mentions keys k then obj_get k obj else None).
  { unfold pick. rewrite obj_get_pick_from. cbn [obj_get].
    destruct (mentions keys k); cbn [andb]; [| reflexivity].
    destruct (obj_has k obj) eqn:Hhas; [reflexivity |].
    symmetry. now apply obj_has_get. }
  rewrite Hpick, obj_get_omit.
  destruct (mentions keys k); repeat split; auto.
  now destruct (obj_get k obj).
Qed.

End ObjectFacts.

End HelpersCollectionsSpec.

Module HelpersChunkSpec.
Import Helpers HelpersCollections JSFacts.

Lemma chunk_loop_diverges {T} (array : list T) (size : Z) :
  array <> [] -> size <= 0 ->
  forall (fuel : nat) (i : Z) (acc : list (list T)),
    i <= 0 -> chunk_loop fuel array size i acc = None.
Proof.
  intros Hne Hsize.
  assert (Hlen : 0 < JS.len array).
  { destruct array; [congruence | unfold JS.len; cbn; lia]. }
  induction fuel as [| fuel IH]; intros i acc Hi; cbn [chunk_loop];
    replace (i <? JS.len array) with true by (symmetry; apply Z.ltb_lt; lia).
  - reflexivity.
  - apply IH. lia.
Qed.

(** X5. With a chunk size of 0 or less and a non-empty array the loop of
    [chunk] never ends: the index never reaches [array.length], whatever the
    number of iterations. *)
Theorem chunk_nonpositive_size_never_returns {T} (array : list T) (size : Z) :
  array <> [] -> size <= 0 ->
  forall fuel : nat, chunk fuel array size = None.
Proof.
  intros Hne Hsize fuel. unfold chunk.
  now apply chunk_loop_diverges.
Qed.

Lemma chunk_nonpositive_size_never_returns_witness :
  chunk 4 [1; 2; 3] 0 = None /\ chunk 1000 [1; 2; 3] (-1) = None.
Proof.
  split.
  - apply (chunk_nonpositive_size_never_returns [1; 2; 3] 0);
      [discriminate | lia].
  - apply (chunk_nonpositive_size_never_returns [1; 2; 3] (-1));
      [discriminate | lia].
Defined.

Lemma windowsFrom_step (n size i : Z) :
  1 <= size -> 0 <= i < n ->
  windowsFrom n size i = 1 + windowsFrom n size (i + size).
Proof.
  intros Hs Hi. unfold windowsFrom.
  replace (n <=? i) with false by (symmetry; apply Z.leb_gt; lia).
  destruct (Z.leb_spec n (i + size)) as [Hlast | Hmore].
  - rewrite Z.add_0_r. symmetry.
    apply Z.div_unique with (r := n - i - 1); lia.
  - replace (n - i + size - 1) with (n - (i + size) + size - 1 + 1 * size) by lia.
    rewrite Z.div_add by lia. lia.
Qed.

Lemma chunk_loop_count {T} (array : list T) (size : Z) :
  1 <= size ->
  forall (m : nat) (i : Z) (acc : list (list T)),
    0 <= i -> (Z.to_nat (JS.len array - i) <= m)%nat ->
    exists rest,
      (forall fuel, (m <= fuel)%nat ->
         chunk_loop fuel array size i acc = Some (acc ++ rest))
      /\ Forall (fun c => 1 <= JS.len c <= size) rest
      /\ JS.len rest = windowsFrom (JS.len array) size i.
Proof.
  intros Hsize. induction m as [| m IH]; intros i acc Hi Hm.
  - exists []. repeat split.
    + intros fuel _. rewrite app_nil_r. apply HelpersSpec.chunk_loop_stops. lia.
    + constructor.
    + unfold windowsFrom.
      now replace (JS.len array <=? i) with true by (symmetry; apply Z.leb_le; lia).
  - destruct (Z.le_gt_cases (JS.len array) i) as [Hout | Hin].
    + exists []. repeat split.
      * intros fuel _. rewrite app_nil_r. now apply HelpersSpec.chunk_loop_stops.
      * constructor.
      * unfold windowsFrom.
        now replace (JS.len array <=? i) with true by (symmetry; apply Z.leb_le; lia).
    + set (w := JS.slice array i (i + size)).
      destruct (IH (i + size) (acc ++ [w])) as (rest & Hrun & Hall & Hcount);
        [lia | lia |].
      exists (w :: rest). repeat split.
      * intros fuel Hfuel. destruct fuel as [| fuel]; [lia |]. cbn [chunk_loop].
        replace (i <? JS.len array) with true by (symmetry; apply Z.ltb_lt; lia).
        fold w. rewrite (Hrun fuel) by lia. now rewrite <- app_assoc.
      * constructor; [| exact Hall]. unfold w.
        rewrite slice_window by lia. unfold JS.len in *.
        rewrite length_firstn, length_skipn. lia.
      * rewrite windowsFrom_step by lia. rewrite <- Hcount.
        unfold JS.len. cbn [length]. lia.
Qed.

(** X6. For a chunk size of at least 1, [chunk] returns
    ceil(array.length / size) sublists, none of them empty and none longer
    than [size]; in particular the empty array gives no sublist. *)
Theorem chunk_count {T} (array : list T) (size : Z) :
  1 <= size ->
  exists chunks,
    chunk (length array) array size = Some chunks
    /\ JS.len chunks = (JS.len array + size - 1) / size
    /\ Forall (fun c => 1 <= JS.len c <= size) chunks
    /\ (array = [] -> chunks = []).
Proof.
  intros Hsize.
  destruct (chunk_loop_count array size Hsize (length array) 0 [])
    as (chunks & Hrun & Hall & Hcount); [lia | unfold JS.len; lia |].
  exists chunks. split; [| split; [| split]].
  - unfold chunk. now rewrite (Hrun (length array)) by lia.
  - rewrite Hcount. unfold windowsFrom.
    destruct (Z.leb_spec (JS.len array) 0) as [Hempty | Hsome].
    + assert (JS.len array = 0) by (pose proof (len_nonneg array); lia).
      replace (JS.len array + size - 1) with (size - 1) by lia.
      symmetry. apply Z.div_small. lia.
    + f_equal. lia.
  - exact Hall.
  - intros ->. cbn in Hcount. destruct chunks; [reflexivity |].
    unfold JS.len in Hcount. cbn in Hcount. lia.
Qed.

Lemma chunk_count_witness :
  1 <= 2
  /\ exists chunks,
       chunk (length [1; 2; 3; 4; 5]) [1; 2; 3; 4; 5] 2 = Some chunks
       /\ JS.len chunks = (JS.len [1; 2; 3; 4; 5] + 2 - 1) / 2
       /\ Forall (fun c => 1 <= JS.len c <= 2) chunks
       /\ ([1; 2; 3; 4; 5] = [] -> chunks = []).
Proof.
  split; [lia | apply (chunk_count [1; 2; 3; 4; 5] 2); lia].
Defined.

End HelpersChunkSpec.

Module ImageServiceUtilsSpec.
Import JS ImageService ImageServiceUtils JSFacts.

Example extension_of_photo :
  getFileExtension [112; 46; 116; 97; 114; 46; 103; 122]%N = [103; 122]%N.
Proof. reflexivity. Qed.

Example extension_of_dotfile :
  getFileExtension [46; 101; 110; 118]%N = [].
Proof. reflexivity. Qed.

Lemma lastIndexOf_absent (c : Settings.code_unit) (s : Settings.ustring) (i : Z) :
  ~ In c s -> lastIndexOf_from c i s = -1.
Proof.
  revert i. induction s as [| x rest IH]; intros i Hc; cbn [lastIndexOf_from].
  - reflexivity.
  - rewrite IH by (intros H; apply Hc; now right). cbn.
    destruct (N.eqb_spec x c) as [-> | _]; [| reflexivity].
    exfalso. apply Hc. now left.
Qed.

Lemma lastIndexOf_last (c : Settings.code_unit) (stem e : Settings.ustring) (i : Z) :
  0 <= i -> ~ In c e ->
  lastIndexOf_from c i (stem ++ c :: e) = i + len stem.
Proof.
  intros Hi He. revert i Hi.
  induction stem as [| x stem IH]; intros i Hi; cbn [app lastIndexOf_from].
  - rewrite lastIndexOf_absent by assumption. cbn.
    rewrite N.eqb_refl. unfold len. cbn. lia.
  - rewrite IH by lia. cbv zeta.
    replace (i + 1 + len stem >=? 0) with true
      by (symmetry; apply Z.geb_le; pose proof (len_nonneg stem); lia).
    cbv iota. unfold len. cbn [length]. lia.
Qed.

Lemma split_at_last (c : Settings.code_unit) (s : Settings.ustring) :
  In c s -> exists stem e, s = stem ++ c :: e /\ ~ In c e.
Proof.
  induction s as [| x rest IH]; [intros [] |].
  intros Hin. destruct (in_dec N.eq_dec c rest) as [Hrest | Hrest].
  - destruct (IH Hrest) as (stem & e & -> & He).
    exists (x :: stem), e. auto.
  - destruct Hin as [-> | Hin]; [| contradiction].
    exists [], rest. auto.
Qed.

Lemma slice_from_beyond {A} (l : list A) (start : Z) :
  len l <= start -> slice_from l start = [].
Proof.
  intros H. pose proof (len_nonneg l) as Hl.
  unfold slice_from, slice, rel_index.
  replace (start <? 0) with false by (symmetry; apply Z.ltb_ge; lia).
  rewrite Z.min_r by lia.
  rewrite skipn_all2 by (unfold len in *; lia). apply firstn_nil.
Qed.

Lemma slice_from_inside {A} (l : list A) (start : Z) :
  0 <= start <= len l -> slice_from l start = skipn (Z.to_nat start) l.
Proof.
  intros H. unfold slice_from, slice, rel_index.
  replace (start <? 0) with false by (symmetry; apply Z.ltb_ge; lia).
  replace (len l <? 0) with false by (symmetry; apply Z.ltb_ge; lia).
  rewrite (Z.min_l start) by lia. rewrite Z.min_id.
  apply firstn_all2. rewrite length_skipn. unfold len in *. lia.
Qed.

Lemma getFileExtension_no_dot (filename : Settings.ustring) :
  len filename < 2 ^ 32 -> ~ In dot filename -> getFileExtension filename = [].
Proof.
  intros Hlen Hdot. unfold getFileExtension, lastIndexOf.
  rewrite lastIndexOf_absent by assumption.
  apply slice_from_beyond. unfold toUint32.
  change ((-1 - 1) mod 2 ^ 32 + 2) with (2 ^ 32). lia.
Qed.

Lemma getFileExtension_split (stem e : Settings.ustring) :
  len (stem ++ dot :: e) < 2 ^ 32 -> ~ In dot e ->
  getFileExtension (stem ++ dot :: e)
  = match stem with
    | [] => []
    | _ => e
    end.
Proof.
  intros Hlen He. unfold getFileExtension, lastIndexOf.
  rewrite lastIndexOf_last by (assumption || lia).
  destruct stem as [| x stem].
  - apply slice_from_beyond. unfold toUint32.
    change ((0 + len [] - 1) mod 2 ^ 32 + 2) with (2 ^ 32 + 1). lia.
  - set (s := x :: stem) in *.
    assert (Hs : 1 <= len s) by (unfold len, s; cbn [length]; lia).
    assert (Htot : len (s ++ dot :: e) = len s + 1 + len e).
    { unfold len. rewrite length_app. cbn [length]. lia. }
    pose proof (len_nonneg e) as Hle.
    unfold toUint32. rewrite Z.mod_small by lia.
    rewrite slice_from_inside by lia.
    replace (Z.to_nat (0 + len s - 1 + 2)) with (1 + length s)%nat
      by (unfold len; lia).
    rewrite <- skipn_skipn. rewrite skipn_app.
    rewrite skipn_all, Nat.sub_diag. reflexivity.
Qed.

(** X7. For a file name shorter than 2^32 characters, [getFileExtension]
    returns the characters after the last dot when that dot is not the first
    character, and the empty string when the name has no dot or its only
    dot comes first (a name such as [.env]); the result never contains a
    dot. *)
Theorem getFileExtension_after_last_dot (filename : Settings.ustring) :
  len filename < 2 ^ 32 ->
  ~ In dot (getFileExtension filename)
  /\ (~ In dot filename -> getFileExtension filename = [])
  /\ (forall stem e,
        filename = stem ++ dot :: e -> ~ In dot e ->
        getFileExtension filename = match stem with
                                    | [] => []
                                    | _ => e
                                    end).
Proof.
  intros Hlen. split; [| split].
  - destruct (in_dec N.eq_dec dot filename) as [Hin | Hout].
    + destruct (split_at_last dot filename Hin) as (stem & e & -> & He).
      rewrite getFileExtension_split by assumption.
      destruct stem; [intros [] | exact He].
    + rewrite getFileExtension_no_dot by assumption. intros [].
  - now apply getFileExtension_no_dot.
  - intros stem e -> He. now apply getFileExtension_split.
Qed.

Lemma getFileExtension_after_last_dot_witness :
  len [97; 46; 98; 46; 99]%N < 2 ^ 32
  /\ ~ In dot (getFileExtension [97; 46; 98; 46; 99]%N)
  /\ getFileExtension [97; 46; 98; 46; 99]%N = [99]%N.
Proof.
  assert (H : len [97; 46; 98; 46; 99]%N < 2 ^ 32) by (cbn; lia).
  split; [exact H |]. split.
  - exact (proj1 (getFileExtension_after_last_dot [97; 46; 98; 46; 99]%N H)).
  - reflexivity.
Defined.








End ImageServiceUtilsSpec.

Module SettingsStoreSpec.
Import JS Domain Settings SettingsStore.

Lemma blank_true (s : string) : blank s = true <-> s = EmptyString.
Proof. unfold blank. apply String.eqb_eq. Qed.

Lemma enabled_blank_false (enabled : bool) (s : string) :
  enabled && blank s = false <-> (enabled = true -> s <> EmptyString).
Proof.
  destruct enabled; cbn [andb].
  - split.
    + intros H _ Hs. apply blank_true in Hs. congruence.
    + intros H. destruct (blank s) eqn:E; [| reflexivity].
      apply blank_true in E. now destruct (H eq_refl).
  - split; [discriminate | reflexivity].
Qed.

(** X9. [validateNotificationSettings] returns no error exactly when every
    enabled channel among e-mail, webhook, Slack and Teams has its address
    or URL filled in; the browser channel is never checked.  The errors come
    in the order e-mail, webhook, Slack, Teams, and the settings page shows
    the first one only: with e-mail enabled and no address, that is the
    e-mail message, whatever else is wrong. *)
Theorem validateNotificationSettings_accepts_iff (n : NotificationSettings) :
  (validateNotificationSettings n = []
   <-> (email_enabled (email n) = true -> email_address (email n) <> EmptyString)
       /\ (webhook_enabled (webhook n) = true
           -> webhook_url (webhook n) <> EmptyString)
       /\ (slack_enabled (slack n) = true
           -> slack_webhook (slack n) <> EmptyString)
       /\ (teams_enabled (teams n) = true
           -> teams_webhook (teams n) <> EmptyString))
  /\ (handleSaveNotifications_toast n = None
      <-> validateNotificationSettings n = [])
  /\ (email_enabled (email n) = true -> email_address (email n) = EmptyString ->
      handleSaveNotifications_toast n = Some msg_email).
Proof.
  split; [| split].
  - unfold validateNotificationSettings.
    rewrite !SettingsSpec.push_if_nil, !enabled_blank_false. tauto.
  - unfold handleSaveNotifications_toast.
    destruct (validateNotificationSettings n); split; congruence.
  - intros Hen Haddr. unfold handleSaveNotifications_toast,
      validateNotificationSettings, push_if.
    rewrite Hen, Haddr. cbn [blank String.eqb andb app].
    destruct (webhook_enabled (webhook n) && blank (webhook_url (webhook n)));
      destruct (slack_enabled (slack n) && blank (slack_webhook (slack n)));
      destruct (teams_enabled (teams n) && blank (teams_webhook (teams n)));
      reflexivity.
Qed.

Lemma spread_stringified (base s : AllSettings) :
  spread base (stringified s)
  = {| thresholds := thresholds s; notifications := notifications s;
       apiKeys := apiKeys s; system := system s;
       lastUpdated := lastUpdated s; updatedBy := updatedBy s |}.
Proof. reflexivity. Qed.

(** X10. Reading the settings back after an update gives the section that
    was written, the other three sections as they were, the time of the
    update and the user [Current User]; this holds whatever the store held
    before (nothing, or an object with only some of the keys), and no update
    checks what it writes.  Updates of two different sections give the same
    four sections in either order. *)
Theorem settings_update_read_back (loadTime now now' : string)
    (st : LocalStorage) (t : ThresholdSettings) (n : NotificationSettings)
    (k : APIKeySettings) (y : SystemSettings) :
  getAllSettings loadTime (updateThresholds loadTime now t st)
  = {| thresholds := t;
       notifications := notifications (getAllSettings loadTime st);
       apiKeys := apiKeys (getAllSettings loadTime st);
       system := system (getAllSettings loadTime st);
       lastUpdated := now; updatedBy := "Current User" |}
  /\ getAllSettings loadTime (updateNotifications loadTime now n st)
     = {| thresholds := thresholds (getAllSettings loadTime st);
          notifications := n;
          apiKeys := apiKeys (getAllSettings loadTime st);
          system := system (getAllSettings loadTime st);
          lastUpdated := now; updatedBy := "Current User" |}
  /\ getAllSettings loadTime (updateAPIKeys loadTime now k st)
     = {| thresholds := thresholds (getAllSettings loadTime st);
          notifications := notifications (getAllSettings loadTime st);
          apiKeys := k;
          system := system (getAllSettings loadTime st);
          lastUpdated := now; updatedBy := "Current User" |}
  /\ getAllSettings loadTime (updateSystemSettings loadTime now y st)
     = {| thresholds := thresholds (getAllSettings loadTime st);
          notifications := notifications (getAllSettings loadTime st);
          apiKeys := apiKeys (getAllSettings loadTime st);
          system := y;
          lastUpdated := now; updatedBy := "Current User" |}
  /\ sections (getAllSettings loadTime
                 (updateNotifications loadTime now' n
                    (updateThresholds loadTime now t st)))
     = sections (getAllSettings loadTime
                   (updateThresholds loadTime now' t
                      (updateNotifications loadTime now n st)))
  /\ sections (getAllSettings loadTime
                 (updateSystemSettings loadTime now' y
                    (updateAPIKeys loadTime now k st)))
     = sections (getAllSettings loadTime
                   (updateAPIKeys loadTime now' k
                      (updateSystemSettings loadTime now y st))).
Proof. repeat split. Qed.

(** X11. Exported settings can be restored: importing the text that
    [exportSettings] returned brings back the four sections it held,
    whatever the store holds at the time of the import.  An import that
    holds only some sections replaces those and keeps the others; an import
    whose text does not parse, or parses to something that is not an
    object, fails with its own message and leaves the store as it is; and
    after [resetToDefaults] the defaults are read. *)
Theorem settings_export_import (loadTime now : string)
    (exported current : LocalStorage) (imp : PartialSettings) :
  sections (getAllSettings loadTime
              (snd (importSettings loadTime now
                      (ParsedObject (stringified (exportSettings loadTime exported)))
                      current)))
  = sections (exportSettings loadTime exported)
  /\ sections (getAllSettings loadTime
                 (snd (importSettings loadTime now (ParsedObject imp) current)))
     = sections (spread (getAllSettings loadTime current) imp)
  /\ updatedBy (getAllSettings loadTime
                  (snd (importSettings loadTime now (ParsedObject imp) current)))
     = "Import"%string
  /\ importSettings loadTime now ParseError current
     = ({| success := false;
           import_error := Some "ファイルの解析に失敗しました"%string;
           imported := None |}, current)
  /\ importSettings loadTime now NotAnObject current
     = ({| success := false;
           import_error := Some "無効な設定ファイルです"%string;
           imported := None |}, current)
  /\ getAllSettings loadTime (resetToDefaults current) = defaultSettings loadTime.
Proof. repeat split. Qed.

Lemma call_keepsThresholds (loadTime : string) (st : LocalStorage) (c : StoreCall) :
  keepsThresholds c = true ->
  thresholds (getAllSettings loadTime (call loadTime st c))
  = thresholds (getAllSettings loadTime st).
Proof.
  destruct c as [now t | now n | now k | now y | | now [| | imp]];
    cbn [keepsThresholds]; try discriminate; try reflexivity.
  destruct (p_thresholds imp) eqn:Himp; [discriminate |].
  intros _. cbn. now rewrite Himp.
Qed.

(** X12. Thresholds that were saved stay: after [updateThresholds], any
    sequence of later calls that are neither threshold updates, nor resets,
    nor imports of an object with a [thresholds] key leaves the thresholds
    that are read back unchanged. *)
Theorem saved_thresholds_persist (loadTime now : string) (t : ThresholdSettings)
    (st : LocalStorage) (later : list StoreCall) :
  forallb keepsThresholds later = true ->
  thresholds (getAllSettings loadTime
                (fold_left (call loadTime) later
                           (updateThresholds loadTime now t st)))
  = t.
Proof.
  intros Hlater.
  assert (Hframe : forall st0,
             thresholds (getAllSettings loadTime
                           (fold_left (call loadTime) later st0))
             = thresholds (getAllSettings loadTime st0)).
  { induction later as [| c later IH]; intros st0; cbn [fold_left].
    - reflexivity.
    - cbn [forallb] in Hlater. apply andb_true_iff in Hlater.
      destruct Hlater as [Hc Hrest].
      rewrite (IH Hrest). now apply call_keepsThresholds. }
  rewrite Hframe. reflexivity.
Qed.

Lemma saved_thresholds_persist_witness :
  forallb keepsThresholds otherCalls = true
  /\ thresholds (getAllSettings "2024-07-01T00:00:00Z"
                   (fold_left (call "2024-07-01T00:00:00Z") otherCalls
                              (updateThresholds "2024-07-01T00:00:00Z"
                                 "2024-07-30T09:00:00Z" defaultThresholds None)))
     = defaultThresholds.
Proof.
  split; [reflexivity |].
  apply (saved_thresholds_persist "2024-07-01T00:00:00Z" "2024-07-30T09:00:00Z"
           defaultThresholds None otherCalls).
  reflexivity.
Defined.

Lemma startsWith_spec (w s : ustring) :
  startsWith w s = true <-> exists post, s = w ++ post.
Proof.
  revert s. induction w as [| a w IH]; intros s; cbn [startsWith].
  - split; [intros _; now exists s | reflexivity].
  - destruct s as [| b s].
    + split; [discriminate | intros (post & H); discriminate].
    + rewrite andb_true_iff, N.eqb_eq, IH. split.
      * intros [-> (post & ->)]. now exists post.
      * intros (post & H). injection H as -> ->. split; [reflexivity | now exists post].
Qed.

Lemma includesWord_spec (w s : ustring) :
  includesWord w s = true <-> exists pre post, s = pre ++ w ++ post.
Proof.
  induction s as [| b s IH]; cbn [includesWord]; rewrite orb_true_iff.
  - split.
    + intros [H | H]; [| discriminate].
      apply startsWith_spec in H. destruct H as (post & H). now exists [], post.
    + intros (pre & post & H). left. apply startsWith_spec.
      destruct pre; [now exists post | discriminate].
  - rewrite IH, startsWith_spec. split.
    + intros [(post & H) | (pre & post & ->)].
      * now exists [], post.
      * now exists (b :: pre), post.
    + intros (pre & post & H). destruct pre as [| x pre].
      * left. now exists post.
      * right. injection H as -> ->. now exists pre, post.
Qed.

(** X13. [validateAPIKey] accepts a key exactly when it has at least 10
    characters and does not contain the word [invalid].  A key that is too
    short is reported as too short even when it contains the word; an
    accepted key gets the usage limit of its provider: 1000000 for gemini,
    100 for serpapi, 1000 for the others. *)
Theorem validateAPIKey_accepts_iff (r1 r2 : number) (provider : Provider)
    (k : ustring) :
  (kv_isValid (validateAPIKey r1 r2 provider k) = true
   <-> 10 <= len k /\ ~ (exists pre post, k = pre ++ invalid_word ++ post))
  /\ (len k < 10 ->
      kv_error (validateAPIKey r1 r2 provider k)
      = Some "APIキーが短すぎます"%string)
  /\ (10 <= len k -> (exists pre post, k = pre ++ invalid_word ++ post) ->
      kv_error (validateAPIKey r1 r2 provider k)
      = Some "無効なAPIキーです"%string)
  /\ (kv_isValid (validateAPIKey r1 r2 provider k) = true ->
      option_map usage_limit (kv_usage (validateAPIKey r1 r2 provider k))
      = Some match provider with
             | Gemini => 1000000
             | Serpapi => 100
             | _ => 1000
             end).
Proof.
  unfold validateAPIKey.
  destruct (Z.ltb_spec (len k) 10) as [Hshort | Hlong].
  - rewrite orb_true_r. cbn [kv_isValid kv_error kv_usage].
    split; [| split; [| split]].
    + split; [discriminate | intros [H _]; lia].
    + reflexivity.
    + intros H. lia.
    + discriminate.
  - replace (len k =? 0) with false by (symmetry; apply Z.eqb_neq; lia).
    cbn [orb].
    destruct (includesWord invalid_word k) eqn:Hinc;
      cbn [kv_isValid kv_error kv_usage option_map usage_limit].
    + apply includesWord_spec in Hinc.
      split; [| split; [| split]].
      * split; [discriminate | intros [_ H]; contradiction].
      * intros H. lia.
      * reflexivity.
      * discriminate.
    + assert (Hnot : ~ (exists pre post, k = pre ++ invalid_word ++ post)).
      { intros H. apply includesWord_spec in H. congruence. }
      split; [| split; [| split]].
      * split; [intros _; now split | reflexivity].
      * intros H. lia.
      * intros _ H. contradiction.
      * reflexivity.
Qed.

(** X14. [maskAPIKey] shows nothing of a key but its length and, for a key
    of more than 8 characters, its first four and last four characters: two
    keys of the same length that agree on those characters get the same
    mask.  Masking a mask changes nothing. *)
Theorem maskAPIKey_hides_middle (k1 k2 : ustring) :
  (len k1 = len k2 ->
   (8 < len k1 ->
    firstn 4 k1 = firstn 4 k2 /\ skipn (length k1 - 4) k1 = skipn (length k2 - 4) k2) ->
   maskAPIKey k1 = maskAPIKey k2)
  /\ maskAPIKey (maskAPIKey k1) = maskAPIKey k1.
Proof.
  assert (Hshort : forall k, len k <= 8 -> maskAPIKey k = repeat mask_char (length k)).
  { intros k Hk. unfold maskAPIKey. destruct k as [| c k']; [reflexivity |].
    replace (len (c :: k') <=? 8) with true by (symmetry; apply Z.leb_le; lia).
    unfold repeat1, len. now rewrite Nat2Z.id. }
  split.
  - intros Hlen Hends.
    assert (Hl : length k1 = length k2) by (unfold len in Hlen; lia).
    destruct (Z.le_gt_cases (len k1) 8) as [Hs | Hl8].
    + rewrite (Hshort k1), (Hshort k2) by lia. now rewrite Hl.
    + destruct (Hends Hl8) as [Hhead Htail].
      rewrite (SettingsSpec.maskAPIKey_long k1), (SettingsSpec.maskAPIKey_long k2)
        by lia.
      now rewrite Hhead, Htail, Hl.
  - destruct (Z.le_gt_cases (len k1) 8) as [Hs | Hl8].
    + rewrite (Hshort k1 Hs). rewrite Hshort; unfold len;
        rewrite repeat_length; [reflexivity | unfold len in Hs; lia].
    + rewrite (SettingsSpec.maskAPIKey_long k1 Hl8).
      set (m := firstn 4 k1 ++ repeat mask_char (length k1 - 8)
                ++ skipn (length k1 - 4) k1).
      assert (Hm : length m = length k1).
      { unfold m. rewrite !length_app, length_firstn, repeat_length, length_skipn.
        unfold len in Hl8. lia. }
      rewrite SettingsSpec.maskAPIKey_long by (unfold len in *; lia).
      rewrite Hm. unfold m. unfold len in Hl8.
      f_equal; [| f_equal].
      * rewrite firstn_app, length_firstn.
        replace (4 - Nat.min 4 (length k1))%nat with 0%nat by lia.
        rewrite firstn_firstn. cbn [firstn]. now rewrite app_nil_r.
      * rewrite app_assoc, skipn_app.
        rewrite length_app, length_firstn, repeat_length.
        replace (length k1 - 4 - (Nat.min 4 (length k1) + (length k1 - 8)))%nat
          with 0%nat by lia.
        rewrite skipn_all2
          by (rewrite length_app, length_firstn, repeat_length; lia).
        reflexivity.
Qed.

Lemma maskAPIKey_hides_middle_witness :
  len [1; 2; 3; 4; 5; 6; 7; 8; 9; 10]%N = len [1; 2; 3; 4; 0; 0; 7; 8; 9; 10]%N
  /\ maskAPIKey [1; 2; 3; 4; 5; 6; 7; 8; 9; 10]%N
     = maskAPIKey [1; 2; 3; 4; 0; 0; 7; 8; 9; 10]%N.
Proof.
  split; [reflexivity |].
  apply (proj1 (maskAPIKey_hides_middle [1; 2; 3; 4; 5; 6; 7; 8; 9; 10]%N
                                        [1; 2; 3; 4; 0; 0; 7; 8; 9; 10]%N)).
  - reflexivity.
  - intros _. split; reflexivity.
Defined.

End SettingsStoreSpec.

Module SearchChecksSpec.
Import JS Domain Http SearchService SearchChecks.

Lemma selected_In (l : list string) (s : string) :
  SearchService.includes l s = true <-> In s l.
Proof.
  unfold SearchService.includes. rewrite existsb_exists. split.
  - intros (x & Hx & Heq). apply String.eqb_eq in Heq. now subst.
  - intros H. exists s. split; [assumption | apply String.eqb_refl].
Qed.

Lemma empty_or_includes (l : list string) (s : string) :
  (len l =? 0) || SearchService.includes l s = true -> l = [] \/ In s l.
Proof.
  intros H. apply orb_true_iff in H. destruct H as [H | H].
  - left. apply Z.eqb_eq in H. destruct l; [reflexivity | discriminate].
  - right. now apply selected_In.
Qed.

Lemma mockResult_Some (rnd : Random) (params : SearchParams) (i : Z)
    (r : SearchResult) :
  mockResult rnd params i = Some r ->
  passesFilter (filters params) r
  /\ result_index r = i + (page params - 1) * limit params
  /\ domain r = pick mockDomains (rnd RDomain i) ""%string
  /\ threatLevel r = pick threatLevels (rnd RThreatLevel i) UNKNOWN
  /\ threatScore r = getThreatScore (threatLevel r) (rnd RThreatScore i).
Proof.
  unfold mockResult.
  destruct (negb _) eqn:Hpass; [discriminate |].
  intros H. injection H as <-.
  cbn [result_index domain threatLevel threatScore].
  split; [| repeat split].
  apply negb_false_iff in Hpass.
  apply andb_true_iff in Hpass. destruct Hpass as [Hpass Hofficial].
  apply andb_true_iff in Hpass. destruct Hpass as [Hpass Hstatus].
  apply andb_true_iff in Hpass. destruct Hpass as [Hlevels Hdomains].
  unfold passesFilter. cbn [threatLevel domain status isOfficial].
  split; [now apply empty_or_includes |].
  split; [now apply empty_or_includes |].
  split; [now apply empty_or_includes |].
  unfold official_matches in Hofficial.
  destruct (f_isOfficial (filters params)) as [b |]; [| now left].
  right. apply Bool.eqb_prop in Hofficial. now subst.
Qed.

Lemma collect_length {A B} (f : A -> option B) (l : list A) :
  (length (collect f l) <= length l)%nat.
Proof.
  induction l as [| a l IH]; cbn [collect length]; [lia |].
  destruct (f a); cbn [length]; lia.
Qed.

Lemma collect_NoDup {A B} (f : A -> option B) (key : B -> Z) (c : Z)
    (l : list Z) (g : Z -> A) :
  (forall i b, f (g i) = Some b -> key b = i + c) ->
  NoDup l -> NoDup (map key (collect f (map g l))).
Proof.
  intros Hkey. induction l as [| i l IH]; intros Hnd; cbn [map collect].
  - constructor.
  - inversion Hnd as [| ? ? Hfresh Hnd']; subst.
    destruct (f (g i)) as [b |] eqn:Hb; [| now apply IH].
    cbn [map]. constructor; [| now apply IH].
    rewrite (Hkey i b Hb). intros Hin. apply in_map_iff in Hin.
    destruct Hin as (b' & Hk & Hin').
    apply SearchServiceSpec.in_collect in Hin'.
    destruct Hin' as (a & Ha & Hfa). apply in_map_iff in Ha.
    destruct Ha as (j & <- & Hj). rewrite (Hkey j b' Hfa) in Hk.
    assert (j = i) by lia. subst. contradiction.
Qed.

Lemma iterations_NoDup (bound : Z) : NoDup (iterations bound).
Proof.
  unfold iterations. generalize 0%nat.
  induction (Z.to_nat bound) as [| n IH]; intros start; cbn [seq map].
  - constructor.
  - constructor; [| apply IH].
    rewrite in_map_iff. intros (k & Hk & Hin). apply in_seq in Hin. lia.
Qed.

(** X16. Every result that [generateMockSearchResults] returns passes the
    threat level, domain, status and official filters of the request; there
    are at most [limit] results, and no two of them carry the same result
    number. *)
Theorem mock_results_respect_filters (rnd : Random) (params : SearchParams) :
  Forall (passesFilter (filters params))
         (results (generateMockSearchResults rnd params))
  /\ len (results (generateMockSearchResults rnd params)) <= Z.max 0 (limit params)
  /\ NoDup (map result_index (results (generateMockSearchResults rnd params))).
Proof.
  unfold generateMockSearchResults. cbn [results]. cbv zeta.
  split; [| split].
  - apply Forall_forall. intros r Hr.
    apply SearchServiceSpec.in_collect in Hr. destruct Hr as (i & _ & Hres).
    exact (proj1 (mockResult_Some rnd params i r Hres)).
  - match goal with
    | |- len (collect ?f (iterations ?b)) <= _ =>
        pose proof (collect_length f (iterations b)) as H;
        assert (Hb : length (iterations b) = Z.to_nat b)
          by (unfold iterations; now rewrite length_map, length_seq)
    end.
    unfold len. lia.
  - match goal with
    | |- NoDup (map _ (collect _ (iterations ?b))) =>
        pose proof (iterations_NoDup b) as Hnd;
        rewrite <- (map_id (iterations b))
    end.
    apply (collect_NoDup (mockResult rnd params) result_index
             ((page params - 1) * limit params) _ (fun i => i));
      [| exact Hnd].
    intros i b Hb. exact (proj1 (proj2 (mockResult_Some rnd params i b Hb))).
Qed.

End SearchChecksSpec.

(* ================================================================== *)
(** ** The upload component: bounds over every trace *)

Module ImageUploaderBounds.
Import JS ImageService ImageUploader ImageUploaderChecks.

Lemma filter_length_le {A} (p : A -> bool) (l : list A) :
  (length (filter p l) <= length l)%nat.
Proof.
  induction l as [| a l IH]; cbn [filter length]; [lia |].
  destruct (p a); cbn [length]; lia.
Qed.

Lemma slice_front_length {A} (l : list A) (m : Z) :
  0 <= m -> len (slice l 0 m) <= m.
Proof.
  intros Hm. unfold slice, len.
  pose proof (firstn_le_length
                (Z.to_nat (Z.max (rel_index (len l) m - rel_index (len l) 0) 0))
                (skipn (Z.to_nat (rel_index (len l) 0)) l)) as H.
  unfold len in H.
  assert (Hk : rel_index (Z.of_nat (length l)) 0 = 0)
    by (unfold rel_index; cbn; lia).
  assert (Hf : rel_index (Z.of_nat (length l)) m <= m).
  { unfold rel_index. destruct (m <? 0) eqn:Hneg; lia. }
  rewrite Hk in *. lia.
Qed.

Lemma updateById_length (fileId : FileId) (g : ImageFile -> ImageFile)
    (l : list ImageFile) :
  length (updateById fileId g l) = length l.
Proof. unfold updateById. apply length_map. Qed.

Lemma step_keeps_bound (maxFiles : Z) (s : State) (e : Event) :
  0 <= maxFiles ->
  len (files s) <= maxFiles -> len (files (step maxFiles s e)) <= maxFiles.
Proof.
  intros Hm Hs.
  destruct e as [now accepted rejected | fileId | | | fileId pct | fileId answer];
    cbn [step].
  - cbn [onDrop files]. cbv zeta.
    destruct (len (files s ++ newImageFiles now accepted) >? maxFiles) eqn:Hover.
    + now apply slice_front_length.
    + lia.
  - cbn [removeFile files]. unfold len in *.
    pose proof (filter_length_le
                  (fun f => negb (fileId_eqb (id f) fileId)) (files s)).
    lia.
  - cbn [clearAllFiles files]. unfold len. cbn. lia.
  - unfold uploadFiles.
    destruct (len (filter isPending (files s)) =? 0); cbn [files];
      [assumption |].
    rewrite ImageUploaderSpec.markUploading_eq. unfold len in *.
    now rewrite length_map.
  - unfold onProgress. destruct (inflightFile fileId (inflight s));
      [| assumption].
    cbn [files]. unfold len in *. now rewrite updateById_length.
  - unfold onSettled. destruct (inflightFile fileId (inflight s)) as [f |];
      [| assumption].
    cbv zeta. destruct (outcome _); cbn [files]; unfold len in *;
      now rewrite updateById_length.
Qed.

(** X18. When [maxFiles] is not negative, the list of files of the upload
    component never holds more than [maxFiles] records, whatever is
    dropped, removed, uploaded or answered. *)
Theorem files_never_exceed_maxFiles (maxFiles : Z) (trace : list Event) :
  0 <= maxFiles -> len (files (run maxFiles trace)) <= maxFiles.
Proof.
  intros Hm. induction trace as [| e trace IH] using rev_ind.
  - unfold run, len. cbn. lia.
  - rewrite ImageUploaderSpec.run_snoc. now apply step_keeps_bound.
Qed.

Lemma files_never_exceed_maxFiles_witness :
  0 <= 2 /\ len (files (run 2 busy_trace)) <= 2.
Proof.
  split; [lia |]. apply (files_never_exceed_maxFiles 2 busy_trace). lia.
Defined.

(* ---------------------------------------------------------------- *)
(** *** Uploads against drops *)

Lemma filter_filter_length {A} (p q : A -> bool) (l : list A) :
  (length (filter p (filter q l)) <= length (filter p l))%nat.
Proof.
  induction l as [| a l IH]; cbn [filter length]; [lia |].
  destruct (q a), (p a) eqn:Hp; cbn [filter length]; rewrite ?Hp;
    cbn [length]; lia.
Qed.

Lemma filter_firstn_length {A} (p : A -> bool) (n : nat) (l : list A) :
  (length (filter p (firstn n l)) <= length (filter p l))%nat.
Proof.
  rewrite <- (firstn_skipn n l) at 2. rewrite filter_app, length_app. lia.
Qed.

Lemma filter_skipn_length {A} (p : A -> bool) (n : nat) (l : list A) :
  (length (filter p (skipn n l)) <= length (filter p l))%nat.
Proof.
  rewrite <- (firstn_skipn n l) at 2. rewrite filter_app, length_app. lia.
Qed.

Lemma filter_slice_length {A} (p : A -> bool) (l : list A) (a b : Z) :
  (length (filter p (slice l a b)) <= length (filter p l))%nat.
Proof.
  unfold slice. cbv zeta.
  eapply Nat.le_trans; [apply filter_firstn_length | apply filter_skipn_length].
Qed.

Lemma isPending_newImageFile (now index : Z) (f : File) :
  isPending (newImageFile now index f) = ImageServiceUtils.passesValidation f.
Proof.
  unfold isPending, newImageFile, ImageServiceUtils.passesValidation.
  cbn [status].
  destruct (validateImageFile f) as [msg |] eqn:Hv.
  - now rewrite (ImageServiceSpec.validation_error_truthy f msg Hv).
  - reflexivity.
Qed.

Lemma pendingOf_newImageFiles (P : File -> bool) (now index : Z)
    (accepted : list File) :
  length (pendingOf P (newImageFiles_from now index accepted))
  = length (filter P (filter ImageServiceUtils.passesValidation accepted)).
Proof.
  revert index. induction accepted as [| f rest IH]; intros index;
    cbn [newImageFiles_from pendingOf filter]; [reflexivity |].
  rewrite isPending_newImageFile. cbn [file newImageFile].
  fold (pendingOf P (newImageFiles_from now (index + 1) rest)).
  destruct (ImageServiceUtils.passesValidation f); cbn [andb filter];
    [destruct (P f); cbn [length] |]; now rewrite IH.
Qed.

Lemma pendingOf_files_uploaded (P : File -> bool) (l : list ImageFile) :
  length (filter P (map file (filter isPending l))) = length (pendingOf P l).
Proof.
  induction l as [| x l IH]; cbn [filter map pendingOf]; [reflexivity |].
  fold (pendingOf P l).
  destruct (isPending x); cbn [andb map filter]; [| assumption].
  destruct (P (file x)); cbn [length]; now rewrite IH.
Qed.

Lemma pendingOf_updateById (P : File -> bool) (fileId : FileId)
    (g : ImageFile -> ImageFile) (l : list ImageFile) :
  (forall x, file (g x) = file x) ->
  (forall x, isPending (g x) = true -> isPending x = true) ->
  (length (pendingOf P (updateById fileId g l)) <= length (pendingOf P l))%nat.
Proof.
  intros Hfile Hpending. unfold updateById.
  induction l as [| x l IH]; cbn [map pendingOf filter]; [lia |].
  fold (pendingOf P (map (fun f => if fileId_eqb (id f) fileId then g f else f) l)).
  fold (pendingOf P l).
  destruct (fileId_eqb (id x) fileId).
  - rewrite Hfile. destruct (isPending (g x)) eqn:Hg.
    + rewrite (Hpending x Hg). destruct (P (file x)); cbn [andb length]; lia.
    + cbn [andb]. destruct (isPending x && P (file x)); cbn [length]; lia.
  - destruct (isPending x && P (file x)); cbn [length]; lia.
Qed.

(** Once [uploadFiles] has marked the pending files, none is pending. *)
Lemma pendingOf_marked (P : File -> bool) (l : list ImageFile) :
  pendingOf P (fold_left (fun l p => updateById (id p) setUploading l)
                         (filter isPending l) l) = [].
Proof.
  rewrite ImageUploaderSpec.markUploading_eq.
  assert (H : forall x, In x l ->
            isPending (if existsb (fun p => fileId_eqb (id x) (id p))
                                  (filter isPending l)
                       then setUploading x else x) = false).
  { intros x Hx.
    destruct (existsb _ (filter isPending l)) eqn:Hex; [reflexivity |].
    destruct (isPending x) eqn:Hp; [| reflexivity].
    assert (Hin : In x (filter isPending l)) by (apply filter_In; now split).
    assert (Hex' : existsb (fun p => fileId_eqb (id x) (id p))
                           (filter isPending l) = true).
    { apply existsb_exists. exists x. split; [assumption |].
      unfold fileId_eqb. now rewrite !Z.eqb_refl. }
    congruence. }
  revert H. generalize (filter isPending l) as ps. intros ps.
  induction l as [| x l IH]; intros H; cbn [map pendingOf filter];
    [reflexivity |].
  rewrite (H x (or_introl eq_refl)). cbn [andb].
  apply IH. intros y Hy. apply H. now right.
Qed.

Lemma validDropped_app (t1 t2 : list Event) :
  validDropped (t1 ++ t2) = validDropped t1 ++ validDropped t2.
Proof. unfold validDropped. apply flat_map_app. Qed.

(** X19. For every property [P] of files: the number of calls of
    [uploadImage] for files with [P], together with the number of pending
    records with [P], never exceeds the number of dropped files with [P]
    that pass [validateImageFile].  With [P] true of one file only: a file
    is handed to [uploadImage] at most as often as it was dropped. *)
Theorem uploads_bounded_by_valid_drops (P : File -> bool) (maxFiles : Z)
    (trace : list Event) :
  (length (filter P (uploadCalls (run maxFiles trace)))
   + length (pendingOf P (files (run maxFiles trace)))
   <= length (filter P (validDropped trace)))%nat.
Proof.
  induction trace as [| e trace IH] using rev_ind; [cbn; lia |].
  rewrite ImageUploaderSpec.run_snoc, validDropped_app, filter_app, length_app.
  set (s := run maxFiles trace) in *.
  destruct e as [now accepted rejected | fileId | | | fileId pct | fileId answer];
    cbn [step validDropped flat_map]; rewrite ?app_nil_r.
  - cbn [onDrop uploadCalls files]. cbv zeta.
    pose proof (pendingOf_newImageFiles P now 0 accepted) as Hnew.
    fold (newImageFiles now accepted) in Hnew.
    assert (Hall : (length (pendingOf P (files s ++ newImageFiles now accepted))
                    = length (pendingOf P (files s))
                      + length (pendingOf P (newImageFiles now accepted)))%nat).
    { unfold pendingOf. now rewrite filter_app, length_app. }
    destruct (len (files s ++ newImageFiles now accepted) >? maxFiles).
    + pose proof (filter_slice_length
                    (fun r => isPending r && P (file r))
                    (files s ++ newImageFiles now accepted) 0 maxFiles) as Hcut.
      unfold pendingOf in *. lia.
    + lia.
  - cbn [removeFile uploadCalls files length].
    pose proof (filter_filter_length
                  (fun r => isPending r && P (file r))
                  (fun f => negb (fileId_eqb (id f) fileId)) (files s)) as H.
    unfold pendingOf in *. cbn [filter length]. lia.
  - cbn [clearAllFiles uploadCalls files pendingOf filter length]. lia.
  - unfold uploadFiles.
    destruct (len (filter isPending (files s)) =? 0);
      cbn [uploadCalls files filter length]; [lia |].
    rewrite pendingOf_marked, filter_app, length_app, pendingOf_files_uploaded.
    cbn [length]. lia.
  - unfold onProgress. destruct (inflightFile fileId (inflight s));
      cbn [uploadCalls files filter length]; [| lia].
    pose proof (pendingOf_updateById P fileId (setProgress pct) (files s)
                  (fun x => eq_refl) (fun x H => H)).
    lia.
  - unfold onSettled. destruct (inflightFile fileId (inflight s)) as [f |];
      cbn [filter length]; [| lia].
    cbv zeta. destruct (outcome _) as [r | msg];
      cbn [uploadCalls files].
    + pose proof (pendingOf_updateById P fileId (setCompleted r) (files s)
                    (fun x => eq_refl)) as H.
      assert (Hp : forall x, isPending (setCompleted r x) = true ->
                             isPending x = true) by (intros x; discriminate).
      specialize (H Hp). lia.
    + pose proof (pendingOf_updateById P fileId (setFailed msg) (files s)
                    (fun x => eq_refl)) as H.
      assert (Hp : forall x, isPending (setFailed msg x) = true ->
                             isPending x = true) by (intros x; discriminate).
      specialize (H Hp). lia.
Qed.

End ImageUploaderBounds.

(* ================================================================== *)
(** ** The upload component: the fields of a record and its status *)

Module ImageUploaderRecords.
Import JS ImageService ImageUploader ImageUploaderInvariants ImageUploaderChecks.

Lemma fieldsMatchStatus_new (now index : Z) (f : File) :
  fieldsMatchStatus (newImageFile now index f).
Proof.
  unfold fieldsMatchStatus, newImageFile. cbn [status progress response error].
  destruct (validateImageFile f) as [msg |] eqn:Hv.
  - rewrite (ImageServiceSpec.validation_error_truthy f msg Hv).
    split; [reflexivity | eauto].
  - cbn [truthy]. repeat split.
Qed.

Lemma fieldsMatchStatus_step (maxFiles : Z) (seen : list Z) (s : State)
    (e : Event) :
  wellFormed seen s ->
  Forall fieldsMatchStatus (files s) ->
  Forall fieldsMatchStatus (files (step maxFiles s e)).
Proof.
  intros Hwf Hs. rewrite Forall_forall in *.
  destruct e as [now accepted rejected | fileId | | | fileId pct | fileId answer];
    cbn [step]; intros x Hx.
  - cbn [onDrop files] in Hx.
    assert (Hin : In x (files s ++ newImageFiles now accepted)).
    { destruct (len _ >? maxFiles);
        [now apply ImageUploaderSpec.in_slice in Hx | exact Hx]. }
    apply in_app_or in Hin. destruct Hin as [Hold | Hnew]; [now apply Hs |].
    apply ImageUploaderSpec.in_newImageFiles_from in Hnew.
    destruct Hnew as (k & f & _ & _ & ->). apply fieldsMatchStatus_new.
  - cbn [removeFile files] in Hx. apply filter_In in Hx. now apply Hs.
  - cbn [clearAllFiles files] in Hx. contradiction.
  - unfold uploadFiles in Hx.
    destruct (len (filter isPending (files s)) =? 0); cbn [files] in Hx;
      [now apply Hs |].
    apply ImageUploaderSpec.in_markUploading in Hx.
    destruct Hx as (y & Hy & [-> | ->]); [now apply Hs | exact I].
  - unfold onProgress in Hx.
    destruct (inflightFile fileId (inflight s)) as [f |] eqn:Hfl;
      [| now apply Hs].
    cbn [files] in Hx. apply ImageUploaderSpec.in_updateById in Hx.
    destruct Hx as (y & Hy & [[_ ->] | [Hid ->]]); [now apply Hs |].
    apply ImageUploaderSpec.inflightFile_Some in Hfl.
    apply ImageUploaderSpec.fileId_eqb_eq in Hid.
    pose proof (wf_inflight_uploading _ _ Hwf (fileId, f) y Hfl Hy Hid) as Hup.
    unfold fieldsMatchStatus. cbn [status setProgress]. now rewrite Hup.
  - unfold onSettled in Hx.
    destruct (inflightFile fileId (inflight s)) as [f |]; [| now apply Hs].
    cbv zeta in Hx. destruct (outcome _) as [r | msg]; cbn [files] in Hx;
      apply ImageUploaderSpec.in_updateById in Hx;
      destruct Hx as (y & Hy & [[_ ->] | [_ ->]]); try (now apply Hs);
      unfold fieldsMatchStatus; cbn [status progress response error
                                     setCompleted setFailed];
      split; eauto.
Qed.

(** X26. When no two drops get the same [Date.now()] value, the fields of
    every record of the upload component agree with its status after any
    sequence of events: a pending record has progress 0 and neither a
    response nor an error, a completed record has progress 100 and the
    response of its upload, a failed record has progress 0 and an error. *)
Theorem record_fields_match_status (maxFiles : Z) (trace : list Event) :
  NoDup (dropStamps trace) ->
  Forall fieldsMatchStatus (files (run maxFiles trace)).
Proof.
  induction trace as [| e trace IH] using rev_ind; intros Hnd.
  - constructor.
  - rewrite ImageUploaderSpec.run_snoc.
    destruct (ImageUploaderSpec.fresh_last trace e Hnd) as [Hnd' _].
    apply (fieldsMatchStatus_step maxFiles (dropStamps trace));
      [now apply ImageUploaderSpec.wellFormed_run | now apply IH].
Qed.

Lemma record_fields_match_status_witness :
  map status (files (run 3 mixed_trace)) = [completed; failed; pending]
  /\ Forall fieldsMatchStatus (files (run 3 mixed_trace)).
Proof.
  split; [reflexivity |].
  apply (record_fields_match_status 3 mixed_trace).
  repeat constructor; cbn; intuition discriminate.
Defined.

End ImageUploaderRecords.

(* ================================================================== *)
(** ** The filter panel and the search results page *)

Module FilterPanelSpec.
Import JS SearchService FilterPanel.

Lemma includes_false (l : list string) (s : string) :
  includes l s = false <-> ~ In s l.
Proof.
  rewrite <- SearchChecksSpec.selected_In. destruct (includes l s); split; congruence.
Qed.

Lemma filter_absent (value : string) (l : list string) :
  ~ In value l -> filter (fun x => negb (String.eqb x value)) l = l.
Proof.
  induction l as [| a l IH]; intros H; cbn [filter]; [reflexivity |].
  destruct (String.eqb_spec a value) as [-> | Hne].
  - exfalso. apply H. now left.
  - cbn [negb]. f_equal. apply IH. intros Hin. apply H. now right.
Qed.

(** X20. The toggle of the filter panel ([toggleThreatLevel],
    [toggleDomain], [toggleStatus]) flips the membership of the value and
    of no other entry, keeps a list free of duplicates free of them, and
    applied twice to a list without the value gives the list back. *)
Theorem toggle_flips_membership (value : string) (current : list string) :
  (forall y, In y (toggle value current)
             <-> (y = value /\ ~ In value current)
                 \/ (y <> value /\ In y current))
  /\ (NoDup current -> NoDup (toggle value current))
  /\ (~ In value current -> toggle value (toggle value current) = current).
Proof.
  unfold toggle at 1 2.
  destruct (includes current value) eqn:Hinc.
  - apply SearchChecksSpec.selected_In in Hinc. split; [| split].
    + intros y. rewrite filter_In. split.
      * intros [Hy Hne]. right. split; [| assumption].
        intros ->. rewrite String.eqb_refl in Hne. discriminate.
      * intros [[_ Habs] | [Hne Hy]]; [contradiction |].
        split; [assumption |]. apply negb_true_iff. now apply String.eqb_neq.
    + intros Hnd. now apply NoDup_filter.
    + intros Habs. contradiction.
  - apply includes_false in Hinc. split; [| split].
    + intros y. rewrite in_app_iff. cbn [In]. split.
      * intros [Hy | [<- | []]].
        -- right. split; [| assumption]. intros ->. contradiction.
        -- left. now split.
      * intros [[-> _] | [_ Hy]]; auto.
    + intros Hnd. apply NoDup_app; [assumption | repeat constructor; intros [] |].
      intros x Hx [<- | []]. contradiction.
    + intros _. unfold toggle.
      rewrite (proj2 (includes_false current value) Hinc).
      assert (Hnow : includes (current ++ [value]) value = true).
      { apply SearchChecksSpec.selected_In. apply in_or_app. right. now left. }
      rewrite Hnow, filter_app, (filter_absent value current Hinc).
      cbn [filter]. rewrite String.eqb_refl. cbn [negb]. apply app_nil_r.
Qed.

End FilterPanelSpec.

Module SearchResultsPageSpec.
Import JS SearchService FilterPanel SearchResultsPage.

Lemma get_hd (name : string) (p : URLSearchParams) :
  get name p = hd_error (getAll name p).
Proof.
  unfold get, getAll. induction p as [| kv p IH]; cbn [find filter];
    [reflexivity |].
  destruct (named name kv); [reflexivity | exact IH].
Qed.

Lemma getAll_app (name : string) (p q : URLSearchParams) :
  getAll name (p ++ q) = getAll name p ++ getAll name q.
Proof. unfold getAll. now rewrite filter_app, map_app. Qed.

Lemma getAll_delete (name other : string) (p : URLSearchParams) :
  getAll name (delete other p)
  = if String.eqb other name then [] else getAll name p.
Proof.
  unfold getAll, delete, named. induction p as [| kv p IH]; cbn [filter map].
  - now destruct (String.eqb other name).
  - destruct (String.eqb_spec (fst kv) other) as [Ho | Ho]; cbn [negb].
    + rewrite IH. rewrite Ho.
      destruct (String.eqb other name); reflexivity.
    + cbn [filter]. destruct (String.eqb_spec (fst kv) name) as [Hn | Hn].
      * cbn [map]. rewrite IH.
        destruct (String.eqb_spec other name) as [He | He]; [| reflexivity].
        congruence.
      * exact IH.
Qed.

Lemma getAll_append (name other value : string) (p : URLSearchParams) :
  getAll name (append other value p)
  = getAll name p ++ (if String.eqb other name then [value] else []).
Proof.
  unfold append. rewrite getAll_app. f_equal.
  unfold getAll, named. cbn [filter fst]. now destruct (String.eqb other name).
Qed.

Lemma getAll_set (name other value : string) (p : URLSearchParams) :
  getAll name (set other value p)
  = if String.eqb other name then [value] else getAll name p.
Proof.
  induction p as [| kv p IH]; cbn [set].
  - unfold getAll, named. cbn [filter fst].
    now destruct (String.eqb other name).
  - unfold named at 1. destruct (String.eqb_spec (fst kv) other) as [Ho | Ho].
    + change ((other, value) :: delete other p)
        with ([(other, value)] ++ delete other p).
      rewrite getAll_app, getAll_delete.
      unfold getAll at 1. unfold named. cbn [filter fst].
      destruct (String.eqb_spec other name) as [He | He]; [reflexivity |].
      cbn [map app]. unfold getAll, named. cbn [filter].
      destruct (String.eqb_spec (fst kv) name) as [Hn | Hn]; [congruence |].
      reflexivity.
    + change (kv :: set other value p) with ([kv] ++ set other value p).
      rewrite getAll_app, IH.
      destruct (String.eqb_spec other name) as [He | He].
      * unfold getAll, named. cbn [filter].
        destruct (String.eqb_spec (fst kv) name) as [Hn | Hn]; [congruence |].
        reflexivity.
      * change (kv :: p) with ([kv] ++ p). now rewrite getAll_app.
Qed.

Lemma getAll_appended (name other : string) (values : list string)
    (p : URLSearchParams) :
  getAll name (fold_left (fun p v => append other v p) values p)
  = getAll name p ++ (if String.eqb other name then values else []).
Proof.
  revert p. induction values as [| v values IH]; intros p; cbn [fold_left].
  - destruct (String.eqb other name); now rewrite app_nil_r.
  - rewrite IH, getAll_append.
    destruct (String.eqb other name); rewrite <- app_assoc; reflexivity.
Qed.

Lemma getAll_setDate (name other : string) (v : option string)
    (p : URLSearchParams) :
  getAll name (setDate other v p)
  = if truthy v && String.eqb other name then [dateValue v]
    else getAll name p.
Proof.
  unfold setDate. destruct v as [s |]; [| reflexivity].
  destruct (truthy (Some s)); cbn [andb dateValue];
    [apply getAll_set | reflexivity].
Qed.

Lemma getAll_setFlag (name other : string) (v : option bool)
    (p : URLSearchParams) :
  getAll name (setFlag other v p)
  = if isSome v && String.eqb other name then flagValue v
    else getAll name p.
Proof.
  unfold setFlag. destruct v as [b |]; cbn [isSome andb flagValue];
    [apply getAll_set | reflexivity].
Qed.

Lemma getAll_setWhen (name other value : string) (cond : bool)
    (p : URLSearchParams) :
  getAll name (setWhen cond other value p)
  = if cond && String.eqb other name then [value] else getAll name p.
Proof.
  unfold setWhen. destruct cond; cbn [andb]; [apply getAll_set | reflexivity].
Qed.

(** What [getAll] reads from the parameters [handleFiltersChange] writes. *)
Lemma getAll_newSearchParams (numberToString : Q -> string) (name : string)
    (f : FilterConfig) (p : URLSearchParams) :
  getAll name (newSearchParams numberToString f p)
  = if String.eqb "sortOrder" name then [f_sortOrder f]
    else if String.eqb "sortBy" name then [f_sortBy f]
    else if isSome (f_hasRiskFactors f) && String.eqb "hasRiskFactors" name
         then flagValue (f_hasRiskFactors f)
    else if isSome (f_isOfficial f) && String.eqb "isOfficial" name
         then flagValue (f_isOfficial f)
    else if ltb (f_similarityMax f) 100 && String.eqb "maxSimilarity" name
         then [numberToString (f_similarityMax f)]
    else if gtb (f_similarityMin f) 0 && String.eqb "minSimilarity" name
         then [numberToString (f_similarityMin f)]
    else if truthy (f_endDate f) && String.eqb "endDate" name
         then [dateValue (f_endDate f)]
    else if truthy (f_startDate f) && String.eqb "startDate" name
         then [dateValue (f_startDate f)]
    else (if existsb (fun key => String.eqb key name) (listKeys ++ scalarKeys)
          then [] else getAll name p)
         ++ (if String.eqb "threatLevels" name then f_threatLevels f else [])
         ++ (if String.eqb "domains" name then f_domains f else [])
         ++ (if String.eqb "status" name then f_status f else []).
Proof.
  unfold newSearchParams. cbv zeta.
  rewrite !getAll_set, !getAll_setFlag, !getAll_setWhen, !getAll_setDate,
    !getAll_appended.
  do 8 (match goal with
        | |- (if ?c then _ else _) = (if ?c then _ else _) =>
            destruct c; [reflexivity |]
        end).
  rewrite <- !app_assoc. f_equal.
  unfold listKeys, scalarKeys. cbn [fold_left app existsb].
  rewrite !getAll_delete.
  repeat match goal with
         | |- context [String.eqb ?k name] => destruct (String.eqb k name)
         end; reflexivity.
Qed.

Lemma gtb_positive (x : Q) : (0 < x)%Q -> gtb x 0 = true.
Proof.
  intros H. unfold gtb. destruct (Qle_bool x 0) eqn:Hle; [| reflexivity].
  apply Qle_bool_iff in Hle. lra.
Qed.

Lemma ltb_below (x y : Q) : (x < y)%Q -> ltb x y = true.
Proof.
  intros H. unfold ltb. destruct (Qle_bool y x) eqn:Hle; [| reflexivity].
  apply Qle_bool_iff in Hle. lra.
Qed.

Lemma truthy_nonempty (s : string) :
  s <> EmptyString -> truthy (Some s) = true.
Proof.
  intros H. unfold truthy. apply negb_true_iff. now apply String.eqb_neq.
Qed.

Lemma truthy_date (v : option string) :
  v <> Some EmptyString ->
  (if truthy v then Some (dateValue v) else None) = v.
Proof.
  intros H. destruct v as [s |]; [| reflexivity].
  rewrite truthy_nonempty; [reflexivity |]. intros ->. now apply H.
Qed.

Lemma orString_nonempty (s d : string) :
  s <> EmptyString -> orString (Some s) d = s.
Proof. intros H. unfold orString. now rewrite truthy_nonempty. Qed.

Lemma triState_flag (v : option bool) :
  triState (hd_error (if isSome v then flagValue v else [])) = v.
Proof. now destruct v as [[|] |]. Qed.

(** The parameters [handleFiltersChange] does not name are kept. *)
Lemma other_parameters_kept (numberToString : Q -> string)
    (f : FilterConfig) (p : URLSearchParams) (name : string) :
  existsb (String.eqb name)
          (listKeys ++ scalarKeys ++ ["sortBy"; "sortOrder"]%string) = false ->
  getAll name (newSearchParams numberToString f p) = getAll name p.
Proof.
  intros H. rewrite getAll_newSearchParams.
  unfold listKeys, scalarKeys in *. cbn [app existsb] in *.
  repeat (apply orb_false_iff in H; destruct H as [?H H]).
  repeat match goal with
         | Hk : String.eqb name ?k = false |- _ =>
             rewrite String.eqb_sym in Hk; rewrite Hk; clear Hk
         end.
  rewrite ?andb_false_r. cbn [orb app]. apply app_nil_r.
Qed.

(** X21. The filters survive a reload of the search results page: read
    back by [initialFilters] from the URL parameters [handleFiltersChange]
    wrote, they are the filters that were set, whatever the URL held
    before, provided that no date is the empty string, the sort key and
    order are not empty, the lower bound is 0 or a positive number that
    [parseInt] reads back from its [toString], and the upper bound is 100 or
    a smaller such number.  The page is reset to 1 and the parameters that
    are not filter parameters are kept. *)
Theorem filters_survive_reload (parseInt : string -> option Q)
    (numberToString : Q -> string) (f : FilterConfig) (p : URLSearchParams) :
  f_startDate f <> Some EmptyString -> f_endDate f <> Some EmptyString ->
  parseInt "0"%string = Some 0%Q -> parseInt "100"%string = Some 100%Q ->
  (f_similarityMin f = 0%Q
   \/ (0 < f_similarityMin f)%Q
      /\ numberToString (f_similarityMin f) <> EmptyString
      /\ parseInt (numberToString (f_similarityMin f)) = Some (f_similarityMin f)) ->
  (f_similarityMax f = 100%Q
   \/ (f_similarityMax f < 100)%Q
      /\ numberToString (f_similarityMax f) <> EmptyString
      /\ parseInt (numberToString (f_similarityMax f)) = Some (f_similarityMax f)) ->
  f_sortBy f <> EmptyString -> f_sortOrder f <> EmptyString ->
  initialFilters parseInt
    (page_searchParams (handleFiltersChange numberToString f p))
  = ofConfig f
  /\ currentPage (handleFiltersChange numberToString f p) = 1
  /\ forall name,
       existsb (String.eqb name)
               (listKeys ++ scalarKeys ++ ["sortBy"; "sortOrder"]%string) = false ->
       getAll name (page_searchParams (handleFiltersChange numberToString f p))
       = getAll name p.
Proof.
  intros Hstart Hend Hzero Hhundred Hmin Hmax HsortBy HsortOrder.
  split; [| split; [reflexivity |];
            intros name Hname; now apply other_parameters_kept].
  unfold initialFilters, ofConfig, handleFiltersChange.
  cbn [page_searchParams].
  rewrite !get_hd, !getAll_newSearchParams.
  cbn [String.eqb Ascii.eqb Bool.eqb andb orb existsb listKeys scalarKeys app
         hd_error].
  rewrite ?andb_false_r, ?andb_true_r. cbn [app hd_error].
  rewrite ?app_nil_r.
  assert (Hs : hd_error (if truthy (f_startDate f)
                         then [dateValue (f_startDate f)] else [])
               = f_startDate f).
  { destruct (f_startDate f) as [s |]; [| reflexivity].
    rewrite truthy_nonempty; [reflexivity |]. intros ->. now apply Hstart. }
  assert (He : hd_error (if truthy (f_endDate f)
                         then [dateValue (f_endDate f)] else [])
               = f_endDate f).
  { destruct (f_endDate f) as [s |]; [| reflexivity].
    rewrite truthy_nonempty; [reflexivity |]. intros ->. now apply Hend. }
  assert (Hlo : parseInt (orString
                  (hd_error (if gtb (f_similarityMin f) 0
                             then [numberToString (f_similarityMin f)] else []))
                  "0") = Some (f_similarityMin f)).
  { destruct Hmin as [-> | (Hpos & Hne & Hparse)]; [exact Hzero |].
    rewrite (gtb_positive _ Hpos). cbn [hd_error].
    now rewrite (orString_nonempty _ _ Hne). }
  assert (Hhi : parseInt (orString
                  (hd_error (if ltb (f_similarityMax f) 100
                             then [numberToString (f_similarityMax f)] else []))
                  "100") = Some (f_similarityMax f)).
  { destruct Hmax as [-> | (Hlt & Hne & Hparse)]; [exact Hhundred |].
    rewrite (ltb_below _ _ Hlt). cbn [hd_error].
    now rewrite (orString_nonempty _ _ Hne). }
  rewrite Hs, He, Hlo, Hhi, !triState_flag.
  now rewrite (orString_nonempty _ _ HsortBy), (orString_nonempty _ _ HsortOrder).
Qed.


Lemma filters_survive_reload_witness :
  initialFilters parseDecimal
    (page_searchParams
       (handleFiltersChange integerToString recent_high opened_for_image))
  = ofConfig recent_high.
Proof.
  apply (filters_survive_reload parseDecimal integerToString recent_high
           opened_for_image).
  - discriminate.
  - discriminate.
  - reflexivity.
  - reflexivity.
  - right. split; [reflexivity |]. split; [discriminate | reflexivity].
  - left. reflexivity.
  - discriminate.
  - discriminate.
Defined.

Lemma no_truthy_entry (bs : list bool) :
  len (filter (fun b : bool => b) bs) = 0 <-> Forall (fun b => b = false) bs.
Proof.
  induction bs as [| b bs IH]; cbn [filter].
  - split; [constructor | reflexivity].
  - rewrite Forall_cons_iff, <- IH. destruct b.
    + unfold len. cbn [length]. split; [lia | intros [H _]; discriminate].
    + tauto.
Qed.

Lemma len_positive_false {A} (l : list A) : (len l >? 0) = false <-> l = [].
Proof.
  unfold len. destruct l as [| a l]; cbn [length].
  - split; reflexivity.
  - split; [| discriminate]. intros H. rewrite Z.gtb_ltb in H.
    apply Z.ltb_ge in H. lia.
Qed.

(** X22. The number of active filters the panel shows is 0 exactly when
    [handleFiltersChange] writes none of the nine filter parameters to the
    URL. *)
Theorem badge_counts_written_filters (numberToString : Q -> string)
    (f : FilterConfig) (p : URLSearchParams) :
  activeFilterCount f = 0
  <-> Forall (fun name => getAll name (newSearchParams numberToString f p) = [])
             (listKeys ++ scalarKeys).
Proof.
  unfold listKeys, scalarKeys. cbn [app].
  rewrite !Forall_cons_iff, !getAll_newSearchParams.
  cbn [String.eqb Ascii.eqb Bool.eqb andb orb existsb listKeys scalarKeys app].
  rewrite ?andb_false_r, ?andb_true_r. cbn [app]. rewrite ?app_nil_r.
  unfold activeFilterCount.
  rewrite no_truthy_entry, !Forall_cons_iff, !len_positive_false,
    !orb_false_iff.
  destruct (truthy (f_startDate f)), (truthy (f_endDate f)),
    (gtb (f_similarityMin f) 0), (ltb (f_similarityMax f) 100),
    (f_isOfficial f) as [official |], (f_hasRiskFactors f) as [risk |];
    cbn [isSome flagValue];
    (split; [intros (H1 & H2 & H3 & H4 & H5 & H6 & H7 & _);
             try discriminate; destruct H3; destruct H7; try discriminate;
             repeat split; auto
            | intros (H1 & H2 & H3 & H4 & H5 & H6 & H7 & H8 & H9 & _);
              try discriminate; repeat split; auto]).
Qed.

(** X25. When there is no search error, the search is not loading, there
    are results and more than one page, and the current page lies between 1
    and [totalPages], the page buttons of the search results page show
    [min(5, totalPages)] page numbers, each of them between 1 and
    [totalPages] and no number twice, and the current page is one of them.
    With a search error, while the search is loading, without results, or
    with a single page, no button is shown. *)
Theorem page_buttons_show_current (searchError isSearchLoading : bool)
    (data : SearchData) (currentPage : Z) :
  (searchError = false -> isSearchLoading = false ->
   resultCount data <> 0 -> 1 < totalPages data ->
   1 <= currentPage <= totalPages data ->
   In currentPage
      (pageButtons searchError isSearchLoading (Some data) currentPage)
   /\ Forall (fun pageNum => 1 <= pageNum <= totalPages data)
             (pageButtons searchError isSearchLoading (Some data) currentPage)
   /\ len (pageButtons searchError isSearchLoading (Some data) currentPage)
      = Z.min 5 (totalPages data)
   /\ NoDup (pageButtons searchError isSearchLoading (Some data) currentPage))
  /\ (searchError = true \/ isSearchLoading = true
      \/ resultCount data = 0 \/ totalPages data <= 1 ->
      pageButtons searchError isSearchLoading (Some data) currentPage = []).
Proof.
  unfold pageButtons. split.
  - intros -> -> Hcount Hpages Hc.
    destruct (Z.eqb_spec (resultCount data) 0) as [Hzero | _];
      [contradiction |].
    replace (totalPages data >? 1) with true
      by (symmetry; apply Z.gtb_lt; lia).
    set (start := Z.max 1 (Z.min (totalPages data - 4) (currentPage - 2))).
    split; [| split; [| split]].
    + apply in_map_iff. exists (currentPage - start). split; [lia |].
      apply in_map_iff. exists (Z.to_nat (currentPage - start)).
      split; [lia |]. apply in_seq. lia.
    + apply Forall_forall. intros pageNum Hin.
      apply in_map_iff in Hin. destruct Hin as (i & <- & Hi).
      apply in_map_iff in Hi. destruct Hi as (k & <- & Hk).
      apply in_seq in Hk. lia.
    + unfold len. rewrite !length_map, length_seq. lia.
    + generalize 0%nat.
      induction (Z.to_nat (Z.min 5 (totalPages data))) as [| n IH];
        intros first; cbn [seq map]; constructor; [| apply IH].
      rewrite in_map_iff. intros (i & Heq & Hi).
      apply in_map_iff in Hi. destruct Hi as (k & <- & Hk).
      apply in_seq in Hk. lia.
  - intros H. destruct searchError; [reflexivity |].
    destruct isSearchLoading; [reflexivity |].
    destruct H as [H | [H | [Hzero | Hsingle]]]; try discriminate.
    + now rewrite Hzero.
    + destruct (resultCount data =? 0); [reflexivity |].
      replace (totalPages data >? 1) with false; [reflexivity |].
      symmetry. rewrite Z.gtb_ltb. apply Z.ltb_ge. lia.
Qed.

Lemma page_buttons_show_current_witness :
  In 7 (pageButtons false false
                    (Some {| resultCount := 20; totalPages := 10 |}) 7)
  /\ pageButtons false false
                 (Some {| resultCount := 20; totalPages := 1 |}) 1 = [].
Proof.
  pose proof (page_buttons_show_current false false
                {| resultCount := 20; totalPages := 10 |} 7) as Hmany.
  pose proof (page_buttons_show_current false false
                {| resultCount := 20; totalPages := 1 |} 1) as Hone.
  split.
  - apply (proj1 Hmany); cbn [resultCount totalPages]; try reflexivity; lia.
  - apply (proj2 Hone). right. right. right. cbn [totalPages]. lia.
Defined.

End SearchResultsPageSpec.

(* ================================================================== *)
(** ** [mockWhitelistAPI] *)

Module WhitelistAPISpec.
Import JS Domain WhitelistAPI.

Section Pages.

Variable toLowerCase : string -> string.

Lemma firstn_add {A} (n k : nat) (l : list A) :
  firstn (n + k) l = firstn n l ++ firstn k (skipn n l).
Proof.
  revert l. induction n as [| n IH]; intros l; [reflexivity |].
  destruct l as [| a l]; cbn [Nat.add firstn skipn app].
  - now rewrite firstn_nil.
  - now rewrite IH.
Qed.

Lemma page_window (rnd : Draws) (page limit : Z) (filters : FilterOptions) :
  1 <= page -> 0 <= limit ->
  domains (getWhitelistDomains toLowerCase rnd page limit filters)
  = firstn (Z.to_nat limit)
           (skipn (Z.to_nat ((page - 1) * limit))
                  (mockDomains toLowerCase rnd filters)).
Proof.
  intros Hp Hl. cbn [domains getWhitelistDomains].
  replace (page * limit) with ((page - 1) * limit + limit) by lia.
  apply JSFacts.slice_window; nia.
Qed.

Lemma mockDomains_length (rnd : Draws) (filters : FilterOptions) :
  len (mockDomains toLowerCase rnd filters) <= 15.
Proof.
  unfold mockDomains, len.
  pose proof (ImageUploaderBounds.filter_length_le (keeps toLowerCase filters)
                (map (mockDomain rnd) (map Z.of_nat (seq 0 15)))) as H.
  rewrite !length_map, length_seq in H. lia.
Qed.

(** With [isActive] null the draws decide nothing but the [isActive] field
    of the domains: two calls keep the same entries. *)
Lemma entries_without_draws (rnd rnd' : Draws) (filters : FilterOptions) :
  isActive filters = ActiveNull ->
  map entry (mockDomains toLowerCase rnd filters)
  = map entry (mockDomains toLowerCase rnd' filters).
Proof.
  intros Hnull. unfold mockDomains.
  induction (map Z.of_nat (seq 0 15)) as [| i l IH]; cbn [map filter];
    [reflexivity |].
  assert (Hkeeps : keeps toLowerCase filters (mockDomain rnd i)
                   = keeps toLowerCase filters (mockDomain rnd' i)).
  { unfold keeps. rewrite Hnull. reflexivity. }
  rewrite Hkeeps.
  destruct (keeps toLowerCase filters (mockDomain rnd' i)); cbn [map];
    [| exact IH].
  now rewrite IH.
Qed.

Lemma entries_window (rnd rnd' : Draws) (page limit : Z)
    (filters : FilterOptions) :
  isActive filters = ActiveNull -> 1 <= page -> 0 <= limit ->
  map entry (domains (getWhitelistDomains toLowerCase rnd page limit filters))
  = firstn (Z.to_nat limit)
           (skipn (Z.to_nat ((page - 1) * limit))
                  (map entry (mockDomains toLowerCase rnd' filters))).
Proof.
  intros Hnull Hp Hl. rewrite page_window by assumption.
  rewrite <- firstn_map, <- skipn_map.
  now rewrite (entries_without_draws rnd rnd' filters Hnull).
Qed.

Lemma pagesFrom_window (rnds : Z -> Draws) (rnd : Draws) (count : nat)
    (first limit : Z) (filters : FilterOptions) :
  isActive filters = ActiveNull -> 1 <= first -> 0 <= limit ->
  map entry (pagesFrom toLowerCase rnds count first limit filters)
  = firstn (count * Z.to_nat limit)
           (skipn (Z.to_nat ((first - 1) * limit))
                  (map entry (mockDomains toLowerCase rnd filters))).
Proof.
  intros Hnull. revert first.
  induction count as [| k IH]; intros first Hf Hl;
    cbn [pagesFrom]; [reflexivity |].
  rewrite map_app, IH, (entries_window (rnds first) rnd) by (assumption || lia).
  cbn [Nat.mul]. rewrite firstn_add, skipn_skipn. do 3 f_equal. nia.
Qed.

(** X23. For a page size of at least 1 and pages numbered from 1, every
    call of [getWhitelistDomains] returns at most [limit] domains, all of
    which pass the filters, and a total of at most 15.  Every call draws
    [isActive] afresh; when the filter on [isActive] is null, the pages
    1, 2, ... up to one that reaches the total, each fetched by a call of
    its own, hold one after the other the entries (id, domain, category) of
    the filtered list of any call: no domain is skipped or repeated between
    pages. *)
Theorem whitelist_pages_cover (rnds : Z -> Draws) (limit : Z)
    (filters : FilterOptions) :
  1 <= limit ->
  (forall page, 1 <= page ->
     len (domains (getWhitelistDomains toLowerCase (rnds page) page limit filters))
     <= limit
     /\ Forall (fun d => keeps toLowerCase filters d = true)
               (domains (getWhitelistDomains toLowerCase (rnds page) page limit
                                             filters))
     /\ total (getWhitelistDomains toLowerCase (rnds page) page limit filters)
        <= 15)
  /\ (isActive filters = ActiveNull ->
      forall (rnd : Draws) (count : nat),
        total (getWhitelistDomains toLowerCase rnd 1 limit filters)
        <= Z.of_nat count * limit ->
        map entry (pagesFrom toLowerCase rnds count 1 limit filters)
        = map entry (mockDomains toLowerCase rnd filters)).
Proof.
  intros Hl. split.
  - intros page Hp. split; [| split].
    + rewrite page_window by lia. unfold len.
      pose proof (firstn_le_length (Z.to_nat limit)
                    (skipn (Z.to_nat ((page - 1) * limit))
                           (mockDomains toLowerCase (rnds page) filters))).
      lia.
    + apply Forall_forall. intros d Hd. cbn [domains getWhitelistDomains] in Hd.
      apply ImageUploaderSpec.in_slice in Hd. unfold mockDomains in Hd.
      apply filter_In in Hd. tauto.
    + apply mockDomains_length.
  - intros Hnull rnd count Hc. cbn [total getWhitelistDomains] in Hc.
    rewrite (pagesFrom_window rnds rnd) by (assumption || lia).
    replace (Z.to_nat ((1 - 1) * limit)) with 0%nat by lia. cbn [skipn].
    apply firstn_all2. rewrite length_map. unfold len in Hc. nia.
Qed.

(** X24. [exportDomains] returns every domain that passes the filters in
    its call (the page of 1000 it asks for holds them all).  When the
    filter on [isActive] is null, that is as many as the [total] of any
    call of [getWhitelistDomains]; with filters that leave [isActive] out,
    as the default [{}] does, no domain passes and the export is empty.
    With a boolean filter on [isActive] the draws of the call decide:
    one call may count all 15 domains and another export none. *)
Theorem export_returns_every_match (rnd : Draws) (filters : FilterOptions) :
  exportDomains toLowerCase rnd filters = mockDomains toLowerCase rnd filters
  /\ (isActive filters = ActiveNull ->
      forall (rnd' : Draws) (page limit : Z),
        total (getWhitelistDomains toLowerCase rnd' page limit filters)
        = len (exportDomains toLowerCase rnd filters))
  /\ (isActive filters = ActiveUndefined ->
      exportDomains toLowerCase rnd filters = [])
  /\ (total (getWhitelistDomains toLowerCase allActive 1 20 activeOnly) = 15
      /\ exportDomains toLowerCase noneActive activeOnly = []).
Proof.
  assert (Hall : forall r f, exportDomains toLowerCase r f
                             = mockDomains toLowerCase r f).
  { intros r f. unfold exportDomains. rewrite page_window by lia.
    replace (Z.to_nat ((1 - 1) * 1000)) with 0%nat by lia. cbn [skipn].
    apply firstn_all2. pose proof (mockDomains_length r f) as H.
    unfold len in H. lia. }
  split; [apply Hall |]. split; [| split; [| split]].
  - intros Hnull rnd' page limit. rewrite Hall.
    cbn [total getWhitelistDomains]. unfold len.
    rewrite <- (length_map entry (mockDomains toLowerCase rnd' filters)).
    rewrite (entries_without_draws rnd' rnd filters Hnull).
    now rewrite length_map.
  - intros Hundef. rewrite Hall. unfold mockDomains.
    induction (map (mockDomain rnd) (map Z.of_nat (seq 0 15))) as [| d l IH];
      cbn [filter]; [reflexivity |].
    replace (keeps toLowerCase filters d) with false; [exact IH |].
    unfold keeps. rewrite Hundef.
    now destruct (_ && _); [| destruct (_ && _)].
  - reflexivity.
  - rewrite Hall. reflexivity.
Qed.

End Pages.

Lemma whitelist_pages_cover_witness :
  map entry (pagesFrom asciiLower varying 2 1 2 partners)
  = map entry (mockDomains asciiLower allActive partners).
Proof.
  apply (proj2 (whitelist_pages_cover asciiLower varying 2 partners
                  ltac:(lia)) eq_refl allActive 2%nat).
  apply Z.leb_le. vm_compute. reflexivity.
Defined.

End WhitelistAPISpec.
